(** * vocabularyDB: the Firestore data-access layer

    A shallow embedding of the data-access module (wordbooks, words and
    part-of-speech tags stored under [users/{uid}/...], with two
    process-local caches) and the properties its specification states.

    Conventions of the model.
    - A document is addressed by the identifiers on its path; identifiers
      are opaque strings (non-empty and without a slash, so that a path
      has the shape the source gives it).
    - Every exported function is [async]: it is a computation over the
      [World] (remote store, the two module-level caches, the clock and the
      identifier generator of the client SDK) that either resolves with a
      value or rejects with an error.  State changes made before a
      rejection stay.
    - [Promise.all] over a list is run in list order.  The calls it groups
      write pairwise different documents, so the final store does not
      depend on how they interleave.
    - The store refuses a write only when its precondition fails: an
      [update] of a missing document, an [addDoc] on an identifier in
      use.  Network and permission failures are outside the model.
    - The caches are JavaScript objects used as maps from own string keys
      to arrays; an array is truthy even when empty, so a key is a hit as
      soon as it was ever assigned.  Keys that name a property inherited
      from [Object.prototype] are outside the model. *)

From Stdlib Require Import ZArith String List Permutation.
From stdpp Require Import base option list strings gmap fin_maps.

Local Open Scope string_scope.
Local Open Scope list_scope.

(** ** Data model *)

(** [Timestamp.now()] is built from the millisecond clock. *)
Definition Timestamp : Type := Z.

(** The layer copies and overwrites [number] fields, it never computes on
    them. *)
Definition number : Type := Z.

Module Wordbook.
(** [Omit<Wordbook, "id">]: what a wordbook document holds, the type at
    which the source reads it.  No write of the layer puts an [id] field
    into a wordbook document.  [trashed?: boolean] and
    [trashedAt?: Timestamp | null] may be missing. *)
Record Data := mkData {
  name : string;
  createdAt : Timestamp;
  userId : string;
  trashed : option bool;
  trashedAt : option (option Timestamp);
}.

(** [Wordbook], built in the source as [{ id: docSnap.id, ...data }]. *)
Record t := mk { id : string; data : Data }.

(** The object literals passed to [updateDoc] on a wordbook. *)
Record Patch := mkPatch {
  p_name : option string;
  p_trashed : option bool;
  p_trashedAt : option (option Timestamp);
}.

Definition merge (p : Patch) (d : Data) : Data :=
  {| name := default (name d) (p_name p);
     createdAt := createdAt d;
     userId := userId d;
     trashed :=
       match p_trashed p with Some b => Some b | None => trashed d end;
     trashedAt :=
       match p_trashedAt p with Some v => Some v | None => trashedAt d end |}.

(** JavaScript truthiness of [data.trashed]. *)
Definition isTrashed (d : Data) : bool :=
  match trashed d with Some true => true | _ => false end.
End Wordbook.

Record RelatedWords := mkRelatedWords {
  same : option string;
  opposite : option string;
}.

Module NewWord.
(** [Omit<Word, "id" | "createdAt" | "wordbookId" | "reviewDate" |
    "studyCount">],
    the argument type of [createWord] and of the items of [bulkImportWords]. *)
Record t := mk {
  word : string;
  pinyin : string;
  favorite : bool;
  translation : string;
  partOfSpeech : list string;
  exampleSentence : string;
  exampleTranslation : string;
  relatedWords : option RelatedWords;
  usageFrequency : number;
  mastery : number;
  note : string;
}.
End NewWord.

Module Word.
(** A word object [{ id, ...fields, wordbookId, createdAt, reviewDate,
    studyCount }].  [I] is [string] for a [Word] and [option string] for
    the data of a stored document, which carries an [id] field only when
    a write put one there. *)
Record rec (I : Type) := mk {
  id : I;
  fields : NewWord.t;
  wordbookId : string;
  createdAt : Timestamp;
  reviewDate : option (option Timestamp);
  studyCount : option number;
}.
Arguments mk {I}.
Arguments id {I}.
Arguments fields {I}.
Arguments wordbookId {I}.
Arguments createdAt {I}.
Arguments reviewDate {I}.
Arguments studyCount {I}.

Abbreviation t := (rec string).
Abbreviation Doc := (rec (option string)).

Definition mastery {I} (w : rec I) : number := NewWord.mastery (fields w).
Definition partOfSpeech {I} (w : rec I) : list string :=
  NewWord.partOfSpeech (fields w).

(** [{ id: docSnap.id, ...docSnap.data() } as Word]: the spread comes
    second, so an [id] field of the data wins over the document id. *)
Definition ofDoc (docId : string) (d : Doc) : t :=
  mk (default docId (id d)) (fields d) (wordbookId d) (createdAt d)
     (reviewDate d) (studyCount d).

(** The data written by [batch.set(docRef, word)]: the whole word. *)
Definition toDoc (w : t) : Doc :=
  mk (Some (id w)) (fields w) (wordbookId w) (createdAt w)
     (reviewDate w) (studyCount w).
End Word.

Module PartialWord.
(** [Partial<Word>]: every field may be left out. *)
Record t := mk {
  id : option string;
  word : option string;
  pinyin : option string;
  favorite : option bool;
  translation : option string;
  partOfSpeech : option (list string);
  exampleSentence : option string;
  exampleTranslation : option string;
  relatedWords : option RelatedWords;
  usageFrequency : option number;
  mastery : option number;
  note : option string;
  wordbookId : option string;
  createdAt : option Timestamp;
  reviewDate : option (option Timestamp);
  studyCount : option number;
}.

Definition empty : t :=
  mk None None None None None None None None None None None None None None
     None None.

Definition mergeFields (p : t) (f : NewWord.t) : NewWord.t :=
  NewWord.mk
    (default (NewWord.word f) (word p))
    (default (NewWord.pinyin f) (pinyin p))
    (default (NewWord.favorite f) (favorite p))
    (default (NewWord.translation f) (translation p))
    (default (NewWord.partOfSpeech f) (partOfSpeech p))
    (default (NewWord.exampleSentence f) (exampleSentence p))
    (default (NewWord.exampleTranslation f) (exampleTranslation p))
    (match relatedWords p with
     | Some r => Some r
     | None => NewWord.relatedWords f
     end)
    (default (NewWord.usageFrequency f) (usageFrequency p))
    (default (NewWord.mastery f) (mastery p))
    (default (NewWord.note f) (note p)).

Definition mergeRest {I} (newId : I) (p : t) (w : Word.rec I) : Word.rec I :=
  Word.mk newId
    (mergeFields p (Word.fields w))
    (default (Word.wordbookId w) (wordbookId p))
    (default (Word.createdAt w) (createdAt p))
    (match reviewDate p with Some v => Some v | None => Word.reviewDate w end)
    (match studyCount p with Some n => Some n | None => Word.studyCount w end).

(** [{ ...w, ...updateData }] on a cached [Word]. *)
Definition mergeWord (p : t) (w : Word.t) : Word.t :=
  mergeRest (default (Word.id w) (id p)) p w.

(** [updateDoc(ref, updateData)] on the data of a stored word. *)
Definition mergeDoc (p : t) (d : Word.Doc) : Word.Doc :=
  mergeRest (match id p with Some i => Some i | None => Word.id d end) p d.

(** [{ mastery: 0, studyCount: 0, reviewDate: null }] *)
Definition resetProgress : t :=
  {| id := None; word := None; pinyin := None; favorite := None;
     translation := None; partOfSpeech := None; exampleSentence := None;
     exampleTranslation := None; relatedWords := None;
     usageFrequency := None; mastery := Some 0%Z; note := None;
     wordbookId := None; createdAt := None; reviewDate := Some None;
     studyCount := Some 0%Z |}.

(** [{ partOfSpeech: updated }] *)
Definition setPartOfSpeech (updated : list string) : t :=
  {| id := None; word := None; pinyin := None; favorite := None;
     translation := None; partOfSpeech := Some updated;
     exampleSentence := None; exampleTranslation := None;
     relatedWords := None; usageFrequency := None; mastery := None;
     note := None; wordbookId := None; createdAt := None;
     reviewDate := None; studyCount := None |}.
End PartialWord.

Module NewTag.
(** [Omit<PartOfSpeechTag, "id" | "userId">] *)
Record t := mk { name : string; color : string }.
End NewTag.

Module PartOfSpeechTag.
(** [PartOfSpeechTag]; as for words, [I] is [string] for a tag object and
    [option string] for the data of a stored document. *)
Record rec (I : Type) := mk {
  id : I;
  name : string;
  color : string;
  userId : string;
}.
Arguments mk {I}.
Arguments id {I}.
Arguments name {I}.
Arguments color {I}.
Arguments userId {I}.

Abbreviation t := (rec string).
Abbreviation Doc := (rec (option string)).

(** [{ id: docSnap.id, ...docSnap.data() } as PartOfSpeechTag] *)
Definition ofDoc (docId : string) (d : Doc) : t :=
  mk (default docId (id d)) (name d) (color d) (userId d).
End PartOfSpeechTag.

Module PartialTag.
(** [Partial<PartOfSpeechTag>] *)
Record t := mk {
  id : option string;
  name : option string;
  color : option string;
  userId : option string;
}.

Definition mergeTag (p : t) (x : PartOfSpeechTag.t) : PartOfSpeechTag.t :=
  PartOfSpeechTag.mk
    (default (PartOfSpeechTag.id x) (id p))
    (default (PartOfSpeechTag.name x) (name p))
    (default (PartOfSpeechTag.color x) (color p))
    (default (PartOfSpeechTag.userId x) (userId p)).

Definition mergeDoc (p : t) (d : PartOfSpeechTag.Doc) : PartOfSpeechTag.Doc :=
  PartOfSpeechTag.mk
    (match id p with Some i => Some i | None => PartOfSpeechTag.id d end)
    (default (PartOfSpeechTag.name d) (name p))
    (default (PartOfSpeechTag.color d) (color p))
    (default (PartOfSpeechTag.userId d) (userId p)).
End PartialTag.

(** ** The world the layer runs in *)

(** Paths of the three collections and of their documents. *)
Inductive ColPath :=
  | WordbooksCol (userId : string)
  | WordsCol (userId wordbookId : string)
  | PosTagsCol (userId : string).

Inductive DocPath :=
  | WordbookDoc (userId wordbookId : string)
  | WordDoc (userId wordbookId wordId : string)
  | PosTagDoc (userId tagId : string).

(** The operations queued on a [writeBatch]; every batch of the layer
    addresses word documents. *)
Inductive BatchOp :=
  | BatchSet (userId wordbookId wordId : string) (data : Word.Doc)
  | BatchUpdate (userId wordbookId wordId : string) (data : PartialWord.t)
  | BatchDelete (userId wordbookId wordId : string).

(** What the layer does that can be seen from outside it: one entry per
    read of the clock and per round trip to the store, in the order they
    are issued. *)
Inductive Event :=
  | ClockRead (t : Timestamp)
  | GetDocs (c : ColPath)
  | QueryArrayContains (c : ColPath) (field value : string)
  | GetDoc (d : DocPath)
  | AddDoc (d : DocPath)
  | UpdateDoc (d : DocPath)
  | DeleteDoc (d : DocPath)
  | BatchCommit (ops : list BatchOp).

(** The remote store: the documents of each collection, by identifier.
    A sub-collection exists independently of its parent document. *)
Record Store := mkStore {
  wordbooks : string -> gmap string Wordbook.Data;
  words : string -> string -> gmap string Word.Doc;
  posTags : string -> gmap string PartOfSpeechTag.Doc;
}.

Record World := mkWorld {
  store : Store;
  wordCache : gmap string (list Word.t);
  posTagCache : gmap string (list PartOfSpeechTag.t);
  (** the value of the [n]-th read of the clock, and the reads so far *)
  clock : nat -> Timestamp;
  clockReads : nat;
  (** the [n]-th automatically generated document id, and the ids drawn *)
  autoId : nat -> string;
  idsDrawn : nat;
  trace : list Event;
}.

Definition withStore (s : Store) (w : World) : World :=
  mkWorld s (wordCache w) (posTagCache w) (clock w) (clockReads w)
          (autoId w) (idsDrawn w) (trace w).

Definition withWordCache (c : gmap string (list Word.t)) (w : World) : World :=
  mkWorld (store w) c (posTagCache w) (clock w) (clockReads w)
          (autoId w) (idsDrawn w) (trace w).

Definition withPosTagCache (c : gmap string (list PartOfSpeechTag.t))
    (w : World) : World :=
  mkWorld (store w) (wordCache w) c (clock w) (clockReads w)
          (autoId w) (idsDrawn w) (trace w).

Definition withEvent (c : Event) (w : World) : World :=
  mkWorld (store w) (wordCache w) (posTagCache w) (clock w) (clockReads w)
          (autoId w) (idsDrawn w) (trace w ++ [c]).

(** Updating one collection of the store. *)
Definition setWordbooks (u : string) (m : gmap string Wordbook.Data)
    (s : Store) : Store :=
  mkStore (fun u' => if decide (u' = u) then m else wordbooks s u')
          (words s) (posTags s).

Definition setWords (u wb : string) (m : gmap string Word.Doc)
    (s : Store) : Store :=
  mkStore (wordbooks s)
          (fun u' wb' =>
             if decide (u' = u) then
               if decide (wb' = wb) then m else words s u' wb'
             else words s u' wb')
          (posTags s).

Definition setPosTags (u : string) (m : gmap string PartOfSpeechTag.Doc)
    (s : Store) : Store :=
  mkStore (wordbooks s) (words s)
          (fun u' => if decide (u' = u) then m else posTags s u').

(** ** Asynchronous computations *)

Inductive FirestoreError :=
  | NotFound       (* update of a document that does not exist *)
  | AlreadyExists. (* [addDoc] on an identifier already in use *)

Inductive Outcome (A : Type) :=
  | Resolved (a : A)
  | Rejected (e : FirestoreError).
Arguments Resolved {A}.
Arguments Rejected {A}.

Definition Promise (A : Type) : Type := World -> Outcome A * World.

Definition resolve {A} (a : A) : Promise A := fun w => (Resolved a, w).

Definition reject {A} (e : FirestoreError) : Promise A :=
  fun w => (Rejected e, w).

Definition andThen {A B} (m : Promise A) (k : A -> Promise B) : Promise B :=
  fun w =>
    match m w with
    | (Resolved a, w') => k a w'
    | (Rejected e, w') => (Rejected e, w')
    end.

Notation "'await' x <- m ; k" := (andThen m (fun x => k))
  (at level 10, x name, m at level 100, k at level 200,
   format "'[v' 'await'  x  <-  m ; '/' k ']'").

(** Running a list of asynchronous steps in order, keeping the results. *)
Fixpoint forEachAsync {A B} (f : A -> Promise B) (l : list A)
    : Promise (list B) :=
  match l with
  | [] => resolve []
  | x :: l' =>
      await y <- f x;
      await ys <- forEachAsync f l';
      resolve (y :: ys)
  end.

Definition modify (f : World -> World) : Promise unit :=
  fun w => (Resolved tt, f w).

Definition inspect {A} (f : World -> A) : Promise A :=
  fun w => (Resolved (f w), w).

(** ** The client SDK, as the layer uses it *)

(** [Timestamp.now()] *)
Definition Timestamp_now : Promise Timestamp :=
  fun w =>
    (Resolved (clock w (clockReads w)),
     mkWorld (store w) (wordCache w) (posTagCache w) (clock w)
             (S (clockReads w)) (autoId w) (idsDrawn w)
             (trace w ++ [ClockRead (clock w (clockReads w))])).

(** The identifier of [doc(colRef)], also drawn inside [addDoc]. *)
Definition newDocId : Promise string :=
  fun w =>
    (Resolved (autoId w (idsDrawn w)),
     mkWorld (store w) (wordCache w) (posTagCache w) (clock w)
             (clockReads w) (autoId w) (S (idsDrawn w)) (trace w)).

Definition emit (c : Event) : Promise unit := modify (withEvent c).

(** *** [users/{uid}/wordbooks] *)

Definition getDocs_wordbooks (u : string)
    : Promise (list (string * Wordbook.Data)) :=
  await _ <- emit (GetDocs (WordbooksCol u));
  inspect (fun w => map_to_list (wordbooks (store w) u)).

Definition getDoc_wordbook (u i : string) : Promise (option Wordbook.Data) :=
  await _ <- emit (GetDoc (WordbookDoc u i));
  inspect (fun w => wordbooks (store w) u !! i).

(** [addDoc] writes under a fresh identifier with the precondition that no
    document has it yet. *)
Definition addDoc_wordbook (u : string) (d : Wordbook.Data) : Promise string :=
  await i <- newDocId;
  await _ <- emit (AddDoc (WordbookDoc u i));
  await s <- inspect store;
  match wordbooks s u !! i with
  | Some _ => reject AlreadyExists
  | None =>
      await _ <-
        modify (withStore (setWordbooks u (<[i := d]> (wordbooks s u)) s));
      resolve i
  end.

(** [updateDoc] merges the given fields into an existing document and
    rejects when there is none. *)
Definition updateDoc_wordbook (u i : string) (p : Wordbook.Patch)
    : Promise unit :=
  await _ <- emit (UpdateDoc (WordbookDoc u i));
  await s <- inspect store;
  match wordbooks s u !! i with
  | None => reject NotFound
  | Some d =>
      modify
        (withStore
           (setWordbooks u (<[i := Wordbook.merge p d]> (wordbooks s u)) s))
  end.

(** [deleteDoc] succeeds whether or not the document exists. *)
Definition deleteDoc_wordbook (u i : string) : Promise unit :=
  await _ <- emit (DeleteDoc (WordbookDoc u i));
  modify (fun w =>
    withStore (setWordbooks u (delete i (wordbooks (store w) u)) (store w)) w).

(** *** [users/{uid}/wordbooks/{id}/words] *)

Definition getDocs_words (u wb : string) : Promise (list (string * Word.Doc)) :=
  await _ <- emit (GetDocs (WordsCol u wb));
  inspect (fun w => map_to_list (words (store w) u wb)).

(** [query(wordsRef, where("partOfSpeech", "array-contains", tag))] *)
Definition queryDocs_words_partOfSpeech (u wb tag : string)
    : Promise (list (string * Word.Doc)) :=
  await _ <- emit (QueryArrayContains (WordsCol u wb) "partOfSpeech" tag);
  inspect (fun w =>
    filter (fun e => tag ∈ Word.partOfSpeech e.2)
           (map_to_list (words (store w) u wb))).

Definition addDoc_word (u wb : string) (d : Word.Doc) : Promise string :=
  await i <- newDocId;
  await _ <- emit (AddDoc (WordDoc u wb i));
  await s <- inspect store;
  match words s u wb !! i with
  | Some _ => reject AlreadyExists
  | None =>
      await _ <-
        modify (withStore (setWords u wb (<[i := d]> (words s u wb)) s));
      resolve i
  end.

Definition updateDoc_word (u wb i : string) (p : PartialWord.t)
    : Promise unit :=
  await _ <- emit (UpdateDoc (WordDoc u wb i));
  await s <- inspect store;
  match words s u wb !! i with
  | None => reject NotFound
  | Some d =>
      modify
        (withStore
           (setWords u wb
              (<[i := PartialWord.mergeDoc p d]> (words s u wb)) s))
  end.

Definition deleteDoc_word (u wb i : string) : Promise unit :=
  await _ <- emit (DeleteDoc (WordDoc u wb i));
  modify (fun w =>
    withStore (setWords u wb (delete i (words (store w) u wb)) (store w)) w).

(** *** [users/{uid}/posTags] *)

Definition getDocs_posTags (u : string)
    : Promise (list (string * PartOfSpeechTag.Doc)) :=
  await _ <- emit (GetDocs (PosTagsCol u));
  inspect (fun w => map_to_list (posTags (store w) u)).

Definition addDoc_posTag (u : string) (d : PartOfSpeechTag.Doc)
    : Promise string :=
  await i <- newDocId;
  await _ <- emit (AddDoc (PosTagDoc u i));
  await s <- inspect store;
  match posTags s u !! i with
  | Some _ => reject AlreadyExists
  | None =>
      await _ <- modify (withStore (setPosTags u (<[i := d]> (posTags s u)) s));
      resolve i
  end.

Definition updateDoc_posTag (u i : string) (p : PartialTag.t) : Promise unit :=
  await _ <- emit (UpdateDoc (PosTagDoc u i));
  await s <- inspect store;
  match posTags s u !! i with
  | None => reject NotFound
  | Some d =>
      modify
        (withStore
           (setPosTags u (<[i := PartialTag.mergeDoc p d]> (posTags s u)) s))
  end.

Definition deleteDoc_posTag (u i : string) : Promise unit :=
  await _ <- emit (DeleteDoc (PosTagDoc u i));
  modify (fun w =>
    withStore (setPosTags u (delete i (posTags (store w) u)) (store w)) w).

(** *** Batched writes *)

(** One queued operation.  A [set] overwrites, an [update] needs the
    document to exist, a [delete] always goes through. *)
Definition applyBatchOp (op : BatchOp) (s : Store) : option Store :=
  match op with
  | BatchSet u wb i d => Some (setWords u wb (<[i := d]> (words s u wb)) s)
  | BatchUpdate u wb i p =>
      match words s u wb !! i with
      | Some d =>
          Some (setWords u wb
                  (<[i := PartialWord.mergeDoc p d]> (words s u wb)) s)
      | None => None
      end
  | BatchDelete u wb i => Some (setWords u wb (delete i (words s u wb)) s)
  end.

Fixpoint applyBatch (ops : list BatchOp) (s : Store) : option Store :=
  match ops with
  | [] => Some s
  | op :: ops' =>
      match applyBatchOp op s with
      | Some s' => applyBatch ops' s'
      | None => None
      end
  end.

(** [batch.commit()]: one round trip; all operations are applied, or, when
    one of them fails, none. *)
Definition commit (ops : list BatchOp) : Promise unit :=
  await _ <- emit (BatchCommit ops);
  await s <- inspect store;
  match applyBatch ops s with
  | Some s' => modify (withStore s')
  | None => reject NotFound
  end.

(** ** The data-access layer *)

Definition makeCacheKey (userId wordbookId : string) : string :=
  userId +:+ "_" +:+ wordbookId.

(** [if (wordCache[key]) wordCache[key].push(...ws)] *)
Definition pushIfCached (key : string) (ws : list Word.t) (w : World) : World :=
  match wordCache w !! key with
  | Some cached => withWordCache (<[key := cached ++ ws]> (wordCache w)) w
  | None => w
  end.

(** [if (wordCache[key]) wordCache[key] = f(wordCache[key])] *)
Definition rewriteIfCached (key : string) (f : list Word.t -> list Word.t)
    (w : World) : World :=
  match wordCache w !! key with
  | Some cached => withWordCache (<[key := f cached]> (wordCache w)) w
  | None => w
  end.

Definition rewriteTagsIfCached (userId : string)
    (f : list PartOfSpeechTag.t -> list PartOfSpeechTag.t) (w : World)
    : World :=
  match posTagCache w !! userId with
  | Some cached => withPosTagCache (<[userId := f cached]> (posTagCache w)) w
  | None => w
  end.

(** *** Wordbooks *)

Definition getWordbooksByUserId (userId : string) : Promise (list Wordbook.t) :=
  await querySnapshot <- getDocs_wordbooks userId;
  resolve
    (omap (fun docSnap =>
             if negb (Wordbook.isTrashed docSnap.2)
             then Some (Wordbook.mk docSnap.1 docSnap.2) else None)
          querySnapshot).

Definition createWordbook (userId name : string) : Promise Wordbook.t :=
  await stored <- Timestamp_now;
  await docId <-
    addDoc_wordbook userId
      (Wordbook.mkData name stored userId (Some false) (Some None));
  await returned <- Timestamp_now;
  resolve
    (Wordbook.mk docId
       (Wordbook.mkData name returned userId (Some false) (Some None))).

Definition deleteWordbook (userId wordbookId : string) : Promise unit :=
  await wordsSnap <- getDocs_words userId wordbookId;
  await _ <-
    forEachAsync (fun d => deleteDoc_word userId wordbookId d.1) wordsSnap;
  deleteDoc_wordbook userId wordbookId.

Definition trashWordbook (userId wordbookId : string) : Promise unit :=
  await now <- Timestamp_now;
  updateDoc_wordbook userId wordbookId
    (Wordbook.mkPatch None (Some true) (Some (Some now))).

Definition getTrashedWordbooksByUserId (userId : string)
    : Promise (list Wordbook.t) :=
  await snapshot <- getDocs_wordbooks userId;
  resolve
    (omap (fun docSnap =>
             if Wordbook.isTrashed docSnap.2
             then Some (Wordbook.mk docSnap.1 docSnap.2) else None)
          snapshot).

Definition clearTrashedWordbooks (userId : string) : Promise unit :=
  await trashed <- getTrashedWordbooksByUserId userId;
  await _ <-
    forEachAsync (fun wb => deleteWordbook userId (Wordbook.id wb)) trashed;
  resolve tt.

Definition updateWordbookName (userId wordbookId newName : string)
    : Promise unit :=
  updateDoc_wordbook userId wordbookId
    (Wordbook.mkPatch (Some newName) None None).

Definition getWordbook (userId wordbookId : string)
    : Promise (option Wordbook.t) :=
  await snap <- getDoc_wordbook userId wordbookId;
  match snap with
  | None => resolve None
  | Some data => resolve (Some (Wordbook.mk wordbookId data))
  end.

(** *** Words *)

Definition getWordsByWordbookId (userId wordbookId : string)
    : Promise (list Word.t) :=
  let key := makeCacheKey userId wordbookId in
  await cached <- inspect (fun w => wordCache w !! key);
  match cached with
  | Some ws => resolve ws
  | None =>
      await snapshot <- getDocs_words userId wordbookId;
      let ws := map (fun docSnap => Word.ofDoc docSnap.1 docSnap.2) snapshot in
      await _ <-
        modify (fun w => withWordCache (<[key := ws]> (wordCache w)) w);
      resolve ws
  end.

Definition createWord (userId wordbookId : string) (wordData : NewWord.t)
    : Promise Word.t :=
  await stored <- Timestamp_now;
  await docId <-
    addDoc_word userId wordbookId
      (Word.mk None wordData wordbookId stored (Some None) (Some 0%Z));
  await returned <- Timestamp_now;
  let newWord :=
    Word.mk docId wordData wordbookId returned (Some None) (Some 0%Z) in
  await _ <- modify (pushIfCached (makeCacheKey userId wordbookId) [newWord]);
  resolve newWord.

Definition updateWord (userId wordbookId wordId : string)
    (updateData : PartialWord.t) : Promise unit :=
  await _ <- updateDoc_word userId wordbookId wordId updateData;
  modify
    (rewriteIfCached (makeCacheKey userId wordbookId)
       (map (fun w =>
               if decide (Word.id w = wordId)
               then PartialWord.mergeWord updateData w else w))).

Definition deleteWord (userId wordbookId wordId : string) : Promise unit :=
  await _ <- deleteDoc_word userId wordbookId wordId;
  modify
    (rewriteIfCached (makeCacheKey userId wordbookId)
       (filter (fun w => Word.id w ≠ wordId))).

Definition bulkImportWords (userId wordbookId : string) (data : list NewWord.t)
    : Promise (list Word.t) :=
  await createdAt <- Timestamp_now;
  await newWords <-
    forEachAsync
      (fun d =>
         await docId <- newDocId;
         resolve (Word.mk docId d wordbookId createdAt (Some None) (Some 0%Z)))
      data;
  await _ <-
    commit (map (fun word =>
                   BatchSet userId wordbookId (Word.id word) (Word.toDoc word))
                newWords);
  let key := makeCacheKey userId wordbookId in
  await _ <-
    modify (fun w =>
      match wordCache w !! key with
      | Some cached =>
          withWordCache (<[key := cached ++ newWords]> (wordCache w)) w
      | None => withWordCache (<[key := newWords]> (wordCache w)) w
      end);
  resolve newWords.

Definition resetWordsProgress (userId wordbookId : string) (ids : list string)
    : Promise unit :=
  await _ <-
    commit (map (fun id =>
                   BatchUpdate userId wordbookId id PartialWord.resetProgress)
                ids);
  modify
    (rewriteIfCached (makeCacheKey userId wordbookId)
       (map (fun w =>
               if decide (Word.id w ∈ ids)
               then PartialWord.mergeWord PartialWord.resetProgress w else w))).

Definition bulkDeleteWords (userId wordbookId : string) (ids : list string)
    : Promise unit :=
  await _ <- commit (map (fun id => BatchDelete userId wordbookId id) ids);
  modify
    (rewriteIfCached (makeCacheKey userId wordbookId)
       (filter (fun w => Word.id w ∉ ids))).

(** *** Part-of-speech tags *)

Definition getPartOfSpeechTags (userId : string)
    : Promise (list PartOfSpeechTag.t) :=
  await cached <- inspect (fun w => posTagCache w !! userId);
  match cached with
  | Some tags => resolve tags
  | None =>
      await snapshot <- getDocs_posTags userId;
      let tags :=
        map (fun docSnap => PartOfSpeechTag.ofDoc docSnap.1 docSnap.2)
            snapshot in
      await _ <-
        modify (fun w =>
          withPosTagCache (<[userId := tags]> (posTagCache w)) w);
      resolve tags
  end.

Definition createPartOfSpeechTag (userId : string) (data : NewTag.t)
    : Promise PartOfSpeechTag.t :=
  await docId <-
    addDoc_posTag userId
      (PartOfSpeechTag.mk None (NewTag.name data) (NewTag.color data) userId);
  let tag :=
    PartOfSpeechTag.mk docId (NewTag.name data) (NewTag.color data) userId in
  await _ <- modify (rewriteTagsIfCached userId (fun tags => tags ++ [tag]));
  resolve tag.

Definition updatePartOfSpeechTag (userId tagId : string) (data : PartialTag.t)
    : Promise unit :=
  await _ <- updateDoc_posTag userId tagId data;
  modify
    (rewriteTagsIfCached userId
       (map (fun t =>
               if decide (PartOfSpeechTag.id t = tagId)
               then PartialTag.mergeTag data t else t))).

Definition deletePartOfSpeechTag (userId tagId : string) : Promise unit :=
  await wordbooksSnap <- getDocs_wordbooks userId;
  await _ <-
    forEachAsync
      (fun wb =>
         await wordsSnap <- queryDocs_words_partOfSpeech userId wb.1 tagId;
         forEachAsync
           (fun docSnap =>
              let updated :=
                filter (fun t => t ≠ tagId) (Word.partOfSpeech docSnap.2) in
              updateDoc_word userId wb.1 docSnap.1
                (PartialWord.setPartOfSpeech updated))
           wordsSnap)
      wordbooksSnap;
  await _ <- deleteDoc_posTag userId tagId;
  modify
    (rewriteTagsIfCached userId
       (filter (fun t => PartOfSpeechTag.id t ≠ tagId))).

(** *** The exported interface as a whole *)

Inductive Request :=
  | GetWordbooksByUserId (userId : string)
  | CreateWordbook (userId name : string)
  | DeleteWordbook (userId wordbookId : string)
  | TrashWordbook (userId wordbookId : string)
  | GetTrashedWordbooksByUserId (userId : string)
  | ClearTrashedWordbooks (userId : string)
  | UpdateWordbookName (userId wordbookId newName : string)
  | GetWordbook (userId wordbookId : string)
  | GetWordsByWordbookId (userId wordbookId : string)
  | CreateWord (userId wordbookId : string) (wordData : NewWord.t)
  | UpdateWord (userId wordbookId wordId : string) (updateData : PartialWord.t)
  | DeleteWord (userId wordbookId wordId : string)
  | BulkImportWords (userId wordbookId : string) (data : list NewWord.t)
  | ResetWordsProgress (userId wordbookId : string) (ids : list string)
  | BulkDeleteWords (userId wordbookId : string) (ids : list string)
  | GetPartOfSpeechTags (userId : string)
  | CreatePartOfSpeechTag (userId : string) (data : NewTag.t)
  | UpdatePartOfSpeechTag (userId tagId : string) (data : PartialTag.t)
  | DeletePartOfSpeechTag (userId tagId : string).

(** The world after a request has settled, whether it resolved or not. *)
Definition perform (r : Request) (w : World) : World :=
  match r with
  | GetWordbooksByUserId u => (getWordbooksByUserId u w).2
  | CreateWordbook u n => (createWordbook u n w).2
  | DeleteWordbook u i => (deleteWordbook u i w).2
  | TrashWordbook u i => (trashWordbook u i w).2
  | GetTrashedWordbooksByUserId u => (getTrashedWordbooksByUserId u w).2
  | ClearTrashedWordbooks u => (clearTrashedWordbooks u w).2
  | UpdateWordbookName u i n => (updateWordbookName u i n w).2
  | GetWordbook u i => (getWordbook u i w).2
  | GetWordsByWordbookId u i => (getWordsByWordbookId u i w).2
  | CreateWord u i d => (createWord u i d w).2
  | UpdateWord u i k d => (updateWord u i k d w).2
  | DeleteWord u i k => (deleteWord u i k w).2
  | BulkImportWords u i d => (bulkImportWords u i d w).2
  | ResetWordsProgress u i ids => (resetWordsProgress u i ids w).2
  | BulkDeleteWords u i ids => (bulkDeleteWords u i ids w).2
  | GetPartOfSpeechTags u => (getPartOfSpeechTags u w).2
  | CreatePartOfSpeechTag u d => (createPartOfSpeechTag u d w).2
  | UpdatePartOfSpeechTag u i d => (updatePartOfSpeechTag u i d w).2
  | DeletePartOfSpeechTag u i => (deletePartOfSpeechTag u i w).2
  end.

Definition performAll (rs : list Request) (w : World) : World :=
  fold_left (fun w r => perform r w) rs w.

(** ** Sample worlds *)

(** Concrete data to run the layer on: a store without documents, cold
    caches, a clock that advances by one millisecond per read and a
    generator that hands out [k0], [k1], ... *)
Definition emptyStore : Store :=
  mkStore (fun _ => ∅) (fun _ _ => ∅) (fun _ => ∅).

Definition sampleClock (n : nat) : Timestamp := (1000 + Z.of_nat n)%Z.

Definition sampleAutoId (n : nat) : string :=
  nth n ["k0"; "k1"; "k2"; "k3"; "k4"; "k5"; "k6"; "k7"] "k8".

Definition freshWorld : World :=
  mkWorld emptyStore ∅ ∅ sampleClock 0 sampleAutoId 0 [].

Definition sampleWord (text : string) (tags : list string) : NewWord.t :=
  NewWord.mk text "" false "" tags "" "" None 1%Z 3%Z "".

(** A user with one tag ([k0]) and one wordbook ([k1]) holding one word
    ([k2]) that carries the tag, after the word list was read once. *)
Definition taggedWorld : World :=
  ((await tag <- createPartOfSpeechTag "u" (NewTag.mk "verb" "red");
    await wb <- createWordbook "u" "book";
    await _ <-
      createWord "u" (Wordbook.id wb)
        (sampleWord "run" [PartOfSpeechTag.id tag]);
    getWordsByWordbookId "u" (Wordbook.id wb)) freshWorld).2.

(** A user with one wordbook ([k0]) holding one word ([k1]), after the
    word list was read once, so that the cache entry of the wordbook is
    populated. *)
Definition cachedBookWorld : World :=
  ((await wb <- createWordbook "u" "book";
    await _ <- createWord "u" (Wordbook.id wb) (sampleWord "run" []);
    getWordsByWordbookId "u" (Wordbook.id wb)) freshWorld).2.

(** A user with two wordbooks, [k0] and [k1]. *)
Definition twoBooksWorld : World :=
  ((await _ <- createWordbook "u" "first";
    createWordbook "u" "second") freshWorld).2.

(** A user with two tags, [k0] ("noun") and [k1] ("verb"), after an update
    of [k1] whose data carried the field [id: "k0"].  The tag list was
    never read, so the tag cache is cold. *)
Definition shadowedTagWorld : World :=
  ((await noun <- createPartOfSpeechTag "u" (NewTag.mk "noun" "blue");
    await verb <- createPartOfSpeechTag "u" (NewTag.mk "verb" "red");
    updatePartOfSpeechTag "u" (PartOfSpeechTag.id verb)
      (PartialTag.mk (Some (PartOfSpeechTag.id noun)) None None None))
     freshWorld).2.

(** A user with one wordbook ([k0]) into which two words were imported
    ([k1] and [k2]); the import left the cache entry populated. *)
Definition twoWordsWorld : World :=
  ((await wb <- createWordbook "u" "book";
    bulkImportWords "u" (Wordbook.id wb)
      [sampleWord "run" ["verb"]; sampleWord "tree" ["noun"]]) freshWorld).2.

(** ** Relations between the world before and after a computation *)

(** [preserves R m]: running [m] relates the world before to the world
    after by [R], whether [m] resolves or rejects. *)
Definition preserves {A} (R : World -> World -> Prop) (m : Promise A) : Prop :=
  forall w, R w (m w).2.

(** The word cache is left as it was. *)
Definition sameWordCache (w w' : World) : Prop := wordCache w' = wordCache w.

(** Where a wordbook document stands: missing, in the trash, or live. *)
Definition trashRank (o : option Wordbook.Data) : nat :=
  match o with
  | None => 0
  | Some d => if Wordbook.isTrashed d then 1 else 2
  end.

(** The document [users/u/wordbooks/i] does not move up: a missing one
    stays missing, one in the trash stays there or goes missing. *)
Definition keepsTrashed (u i : string) (w w' : World) : Prop :=
  autoId w' = autoId w
  /\ idsDrawn w <= idsDrawn w'
  /\ trashRank (wordbooks (store w') u !! i)
       <= trashRank (wordbooks (store w) u !! i).

(** The same, as long as the generator does not hand out [i] again. *)
Definition keepsTrashedIfFresh (u i : string) (w w' : World) : Prop :=
  autoId w' = autoId w
  /\ idsDrawn w <= idsDrawn w'
  /\ ((forall n, idsDrawn w <= n -> autoId w n <> i) ->
      trashRank (wordbooks (store w') u !! i)
        <= trashRank (wordbooks (store w) u !! i)).

(** What a store keeps when only the collection [users/u/wordbooks/wb/words]
    is written. *)
Definition onlyWordsOf (u wb : string) (s s' : Store) : Prop :=
  wordbooks s' = wordbooks s
  /\ posTags s' = posTags s
  /\ forall u' wb', (u', wb') <> (u, wb) -> words s' u' wb' = words s u' wb'.

(** A word object with its progress cleared: [mastery = 0],
    [studyCount = 0], [reviewDate = null], every other field as in [x]. *)
Definition withProgressReset {I} (x : Word.rec I) : Word.rec I :=
  let f := Word.fields x in
  Word.mk (Word.id x)
    (NewWord.mk (NewWord.word f) (NewWord.pinyin f) (NewWord.favorite f)
       (NewWord.translation f) (NewWord.partOfSpeech f)
       (NewWord.exampleSentence f) (NewWord.exampleTranslation f)
       (NewWord.relatedWords f) (NewWord.usageFrequency f) 0%Z
       (NewWord.note f))
    (Word.wordbookId x) (Word.createdAt x) (Some None) (Some 0%Z).

(** No word document of the collection names the tag [t]. *)
Definition tagFree (t : string) (m : gmap string Word.Doc) : Prop :=
  forall k d, m !! k = Some d -> t ∉ Word.partOfSpeech d.

(** ** Further vocabulary for the properties below *)

(** The words of a collection as a cold [getWordsByWordbookId] builds
    them. *)
Definition wordsRead (m : gmap string Word.Doc) : list Word.t :=
  map (fun e => Word.ofDoc e.1 e.2) (map_to_list m).

(** The tags of a collection as a cold [getPartOfSpeechTags] builds
    them. *)
Definition tagsRead (m : gmap string PartOfSpeechTag.Doc)
    : list PartOfSpeechTag.t :=
  map (fun e => PartOfSpeechTag.ofDoc e.1 e.2) (map_to_list m).

(** No document of the collection carries an [id] field that differs from
    its document id: every word reads back under its document id. *)
Definition plainWordIds (m : gmap string Word.Doc) : Prop :=
  forall i d, m !! i = Some d -> Word.id (Word.ofDoc i d) = i.

Definition plainTagIds (m : gmap string PartOfSpeechTag.Doc) : Prop :=
  forall i d, m !! i = Some d ->
    PartOfSpeechTag.id (PartOfSpeechTag.ofDoc i d) = i.

(** The cache entry of the key, when there is one, lists the stored words
    of the wordbook, each once, in some order. *)
Definition wordCacheAgrees (u wb : string) (w : World) : Prop :=
  forall ws, wordCache w !! makeCacheKey u wb = Some ws ->
    ws ≡ₚ wordsRead (words (store w) u wb).

Definition posTagCacheAgrees (u : string) (w : World) : Prop :=
  forall tags, posTagCache w !! u = Some tags ->
    tags ≡ₚ tagsRead (posTags (store w) u).

(** A user with one wordbook ([k0]) holding one word ([k1]); the word list
    was never read, so the cache entry of the wordbook is cold. *)
Definition coldBookWorld : World :=
  ((await wb <- createWordbook "u" "book";
    createWord "u" (Wordbook.id wb) (sampleWord "run" [])) freshWorld).2.

(** Everything except the wordbook document [users/u/wordbooks/i] and the
    word documents under it is as before. *)
Definition onlyWordbook (u i : string) (w w' : World) : Prop :=
  wordCache w' = wordCache w
  /\ posTagCache w' = posTagCache w
  /\ posTags (store w') = posTags (store w)
  /\ (forall u' i', (u', i') <> (u, i) ->
        wordbooks (store w') u' !! i' = wordbooks (store w) u' !! i')
  /\ (forall u' i', (u', i') <> (u, i) ->
        words (store w') u' i' = words (store w) u' i').

(** A user with two tags, [k0] ("noun") and [k1] ("verb"); the tag list
    was never read. *)
Definition twoTagsWorld : World :=
  ((await _ <- createPartOfSpeechTag "u" (NewTag.mk "noun" "blue");
    createPartOfSpeechTag "u" (NewTag.mk "verb" "red")) freshWorld).2.

(** The user a request is made for, and the group of exported functions
    it belongs to. *)
Definition requestUser (r : Request) : string :=
  match r with
  | GetWordbooksByUserId u | CreateWordbook u _ | DeleteWordbook u _
  | TrashWordbook u _ | GetTrashedWordbooksByUserId u
  | ClearTrashedWordbooks u | UpdateWordbookName u _ _ | GetWordbook u _
  | GetWordsByWordbookId u _ | CreateWord u _ _ | UpdateWord u _ _ _
  | DeleteWord u _ _ | BulkImportWords u _ _ | ResetWordsProgress u _ _
  | BulkDeleteWords u _ _ | GetPartOfSpeechTags u
  | CreatePartOfSpeechTag u _ | UpdatePartOfSpeechTag u _ _
  | DeletePartOfSpeechTag u _ => u
  end.

Definition isWordRequest (r : Request) : bool :=
  match r with
  | GetWordsByWordbookId _ _ | CreateWord _ _ _ | UpdateWord _ _ _ _
  | DeleteWord _ _ _ | BulkImportWords _ _ _ | ResetWordsProgress _ _ _
  | BulkDeleteWords _ _ _ => true
  | _ => false
  end.

Definition isTagRequest (r : Request) : bool :=
  match r with
  | GetPartOfSpeechTags _ | CreatePartOfSpeechTag _ _
  | UpdatePartOfSpeechTag _ _ _ | DeletePartOfSpeechTag _ _ => true
  | _ => false
  end.

(** The tag cache is left as it was. *)
Definition samePosTagCache (w w' : World) : Prop :=
  posTagCache w' = posTagCache w.

(** The documents of every user but [u] are left as they were. *)
Definition otherUsersKept (u : string) (w w' : World) : Prop :=
  forall u', u' <> u ->
    wordbooks (store w') u' = wordbooks (store w) u'
    /\ (forall wb, words (store w') u' wb = words (store w) u' wb)
    /\ posTags (store w') u' = posTags (store w) u'.

Definition batchOpUser (op : BatchOp) : string :=
  match op with
  | BatchSet u _ _ _ | BatchUpdate u _ _ _ | BatchDelete u _ _ => u
  end.


(** Every stored word and every stored tag reads back under the id of its
    document. *)
Definition plainStore (s : Store) : Prop :=
  (forall u wb, plainWordIds (words s u wb))
  /\ (forall u, plainTagIds (posTags s u)).

Definition plainKept (w w' : World) : Prop :=
  plainStore (store w) -> plainStore (store w').

(** The updates whose data names an [id] other than that of the document
    they address. *)
Definition renamesId (r : Request) : bool :=
  match r with
  | UpdateWord _ _ wordId updateData =>
      match PartialWord.id updateData with
      | Some i => bool_decide (i <> wordId)
      | None => false
      end
  | UpdatePartOfSpeechTag _ tagId data =>
      match PartialTag.id data with
      | Some i => bool_decide (i <> tagId)
      | None => false
      end
  | _ => false
  end.

Definition plainBatchOp (op : BatchOp) : Prop :=
  match op with
  | BatchSet _ _ i d => Word.id (Word.ofDoc i d) = i
  | BatchUpdate _ _ _ p => PartialWord.id p = None
  | BatchDelete _ _ _ => True
  end.

(** Whether a string has an underscore, the separator of [makeCacheKey]. *)
Fixpoint hasUnderscore (s : string) : bool :=
  match s with
  | EmptyString => false
  | String c s' => if Ascii.eqb c (Ascii.ascii_of_nat 95) then true else hasUnderscore s'
  end.

(** User [u] has read the words of a wordbook whose id has an underscore,
    [x_wb], after adding one word to it. *)
Definition underscoreWorld : World :=
  ((await _ <- createWord "u" "x_wb" (sampleWord "run" []);
    getWordsByWordbookId "u" "x_wb") freshWorld).2.


Definition wordEntryKept (k : string) (w w' : World) : Prop :=
  wordCache w' !! k = wordCache w !! k.

Definition tagEntryKept (u : string) (w w' : World) : Prop :=
  posTagCache w' !! u = posTagCache w !! u.

Definition isReadRequest (r : Request) : bool :=
  match r with
  | GetWordbooksByUserId _ | GetTrashedWordbooksByUserId _ | GetWordbook _ _
  | GetWordsByWordbookId _ _ | GetPartOfSpeechTags _ => true
  | _ => false
  end.
(** * Properties *)

(** ** Running the model *)

Ltac unfold_promise :=
  unfold emit, modify, inspect, resolve, reject, andThen in *.

Ltac unfold_sdk :=
  unfold getDocs_wordbooks, getDoc_wordbook, addDoc_wordbook,
    updateDoc_wordbook, deleteDoc_wordbook, getDocs_words,
    queryDocs_words_partOfSpeech, addDoc_word, updateDoc_word,
    deleteDoc_word, getDocs_posTags, addDoc_posTag, updateDoc_posTag,
    deleteDoc_posTag, commit, Timestamp_now, newDocId in *;
  unfold_promise.

Lemma andThen_resolved {A B} (m : Promise A) (k : A -> Promise B) w a w' :
  m w = (Resolved a, w') -> andThen m k w = k a w'.
Proof. intros H. unfold andThen. by rewrite H. Qed.

Lemma andThen_rejected {A B} (m : Promise A) (k : A -> Promise B) w e w' :
  m w = (Rejected e, w') -> andThen m k w = (Rejected e, w').
Proof. intros H. unfold andThen. by rewrite H. Qed.

(** ** Single-entity reads *)

Lemma getWordbook_run (w : World) (userId wordbookId : string) :
  getWordbook userId wordbookId w =
    (Resolved
       match wordbooks (store w) userId !! wordbookId with
       | None => None
       | Some data => Some (Wordbook.mk wordbookId data)
       end,
     withEvent (GetDoc (WordbookDoc userId wordbookId)) w).
Proof.
  unfold getWordbook. unfold_sdk. simpl.
  destruct (wordbooks (store w) userId !! wordbookId); reflexivity.
Qed.

(** C8: [getWordbook] makes one document read and resolves with [null]
    when the store has no document at the path, and otherwise with the
    record made of the document's id and its stored fields; it never
    rejects and leaves store and caches as they were. *)
Theorem getWordbook_found_or_null (w : World) (userId wordbookId : string) :
  getWordbook userId wordbookId w =
    (Resolved
       match wordbooks (store w) userId !! wordbookId with
       | None => None
       | Some data => Some (Wordbook.mk wordbookId data)
       end,
     withEvent (GetDoc (WordbookDoc userId wordbookId)) w)
  /\ (forall e, (getWordbook userId wordbookId w).1 <> Rejected e).
Proof.
  split; [apply getWordbook_run|].
  intros e. rewrite getWordbook_run. discriminate.
Qed.

(** ** The word cache *)

Lemma getWordsByWordbookId_hit (w : World) (userId wordbookId : string)
    (ws : list Word.t) :
  wordCache w !! makeCacheKey userId wordbookId = Some ws ->
  getWordsByWordbookId userId wordbookId w = (Resolved ws, w).
Proof.
  intros H. unfold getWordsByWordbookId. unfold_promise. by rewrite H.
Qed.

Lemma getWordsByWordbookId_miss (w : World) (userId wordbookId : string) :
  wordCache w !! makeCacheKey userId wordbookId = None ->
  let ws := map (fun e => Word.ofDoc e.1 e.2)
                (map_to_list (words (store w) userId wordbookId)) in
  let w1 := withEvent (GetDocs (WordsCol userId wordbookId)) w in
  getWordsByWordbookId userId wordbookId w =
    (Resolved ws,
     withWordCache (<[makeCacheKey userId wordbookId := ws]> (wordCache w)) w1).
Proof.
  intros H. unfold getWordsByWordbookId. unfold_sdk. rewrite H. reflexivity.
Qed.

(** Whatever the cache held before, it holds the returned list after. *)
Lemma getWordsByWordbookId_populates (w : World) (userId wordbookId : string) :
  exists ws,
    (getWordsByWordbookId userId wordbookId w).1 = Resolved ws /\
    wordCache (getWordsByWordbookId userId wordbookId w).2
      !! makeCacheKey userId wordbookId = Some ws.
Proof.
  destruct (wordCache w !! makeCacheKey userId wordbookId) as [ws|] eqn:E.
  - exists ws. by rewrite (getWordsByWordbookId_hit _ _ _ _ E).
  - rewrite (getWordsByWordbookId_miss _ _ _ E). eexists. split; [done|].
    simpl. apply lookup_insert_eq.
Qed.

(** C5: when the cache entry of a (user, wordbook) key is populated,
    [getWordsByWordbookId] resolves with the cached list and changes
    nothing, in particular it issues no store read, and it does so whatever
    the store holds.  Hence a call that follows any call for the same key
    resolves with the same list even when the store was rewritten by
    someone else in between. *)
Theorem getWordsByWordbookId_cache_first (w : World)
    (userId wordbookId : string) :
  (forall ws, wordCache w !! makeCacheKey userId wordbookId = Some ws ->
     getWordsByWordbookId userId wordbookId w = (Resolved ws, w) /\
     forall mutated : Store,
       getWordsByWordbookId userId wordbookId (withStore mutated w) =
         (Resolved ws, withStore mutated w))
  /\ (forall mutated : Store,
        let first := getWordsByWordbookId userId wordbookId w in
        let second :=
          getWordsByWordbookId userId wordbookId (withStore mutated first.2) in
        second.1 = first.1 /\
        trace second.2 = trace first.2).
Proof.
  split.
  - intros ws H. split; [by apply getWordsByWordbookId_hit|].
    intros s'. by apply getWordsByWordbookId_hit.
  - intros s'. simpl.
    destruct (getWordsByWordbookId_populates w userId wordbookId)
      as (ws & E1 & E2).
    rewrite E1.
    rewrite (getWordsByWordbookId_hit (withStore s' _) _ _ ws); [done|].
    exact E2.
Qed.

(** In [cachedBookWorld] the entry of the key is populated; the call is
    answered from it, also after the store was emptied by someone else. *)
Lemma getWordsByWordbookId_cache_first_witness :
  let ws := [Word.mk "k1" (sampleWord "run" []) "k0" 1002%Z
                     (Some None) (Some 0%Z)] in
  wordCache cachedBookWorld !! makeCacheKey "u" "k0" = Some ws
  /\ getWordsByWordbookId "u" "k0" cachedBookWorld =
       (Resolved ws, cachedBookWorld)
  /\ getWordsByWordbookId "u" "k0" (withStore emptyStore cachedBookWorld) =
       (Resolved ws, withStore emptyStore cachedBookWorld).
Proof.
  intros ws.
  assert (H : wordCache cachedBookWorld !! makeCacheKey "u" "k0" = Some ws)
    by (vm_compute; reflexivity).
  split; [exact H|].
  destruct (getWordsByWordbookId_cache_first cachedBookWorld "u" "k0")
    as [Hhit _].
  destruct (Hhit ws H) as [H1 H2]. split; [exact H1|apply H2].
Defined.

(** ** What a computation leaves in place *)


Section Preserves.
Context (R : World -> World -> Prop) `{!PreOrder R}.

Lemma preserves_resolve {A} (a : A) : preserves R (resolve a).
Proof. intros w. simpl. reflexivity. Qed.

Lemma preserves_reject {A} e : preserves R (@reject A e).
Proof. intros w. simpl. reflexivity. Qed.

Lemma preserves_inspect {A} (f : World -> A) : preserves R (inspect f).
Proof. intros w. simpl. reflexivity. Qed.

Lemma preserves_modify (f : World -> World) :
  (forall w, R w (f w)) -> preserves R (modify f).
Proof. intros H w. apply H. Qed.

Lemma preserves_andThen {A B} (m : Promise A) (k : A -> Promise B) :
  preserves R m -> (forall a, preserves R (k a)) -> preserves R (andThen m k).
Proof.
  intros Hm Hk w. unfold andThen. specialize (Hm w).
  destruct (m w) as [[a|e] w']; simpl in *; [|done].
  etransitivity; [exact Hm|apply Hk].
Qed.

Lemma preserves_forEachAsync {A B} (f : A -> Promise B) (l : list A) :
  (forall x, preserves R (f x)) -> preserves R (forEachAsync f l).
Proof.
  intros Hf. induction l as [|x l IH]; simpl.
  - apply preserves_resolve.
  - apply preserves_andThen; [apply Hf|]. intros y.
    apply preserves_andThen; [apply IH|]. intros ys. apply preserves_resolve.
Qed.
End Preserves.

(** Leaves are closed by running the code; sequencing and loops by the
    lemmas above. *)
Ltac preserves_leaf :=
  intros; intros ?w; unfold_sdk;
  unfold rewriteIfCached, pushIfCached, rewriteTagsIfCached;
  simpl; repeat case_match; simpl; hnf; simpl;
  first [ done | reflexivity | (repeat split; done) ].

Ltac preserves_auto :=
  repeat first
    [ solve [preserves_leaf]
    | apply preserves_andThen; [apply _| |intros ?]
    | apply preserves_forEachAsync; [apply _|intros ?] ].

(** *** The word cache is private to the word operations *)


#[local] Instance sameWordCache_preorder : PreOrder sameWordCache.
Proof.
  split; [by intros w|]. intros w1 w2 w3 H1 H2.
  unfold sameWordCache in *. congruence.
Qed.

Lemma deletePartOfSpeechTag_sameWordCache userId tagId :
  preserves sameWordCache (deletePartOfSpeechTag userId tagId).
Proof. unfold deletePartOfSpeechTag. preserves_auto. Qed.

Lemma deleteWordbook_sameWordCache userId wordbookId :
  preserves sameWordCache (deleteWordbook userId wordbookId).
Proof. unfold deleteWordbook. preserves_auto. Qed.

(** ** Creating a wordbook *)

(** C7: when the generated identifier is free, [createWordbook] reads the
    clock, adds a document with the given name, the user id, that first
    timestamp, [trashed = false] and [trashedAt = null], then reads the
    clock again and resolves with the new id and the same fields except
    that [createdAt] is the second reading.  Whenever the two readings
    differ, the returned [createdAt] is not the stored one. *)
Theorem createWordbook_restamps (w : World) (userId name : string) :
  let docId := autoId w (idsDrawn w) in
  let stored := clock w (clockReads w) in
  let returned := clock w (S (clockReads w)) in
  let r := createWordbook userId name w in
  wordbooks (store w) userId !! docId = None ->
  r.1 = Resolved
          (Wordbook.mk docId
             (Wordbook.mkData name returned userId (Some false) (Some None)))
  /\ wordbooks (store r.2) userId !! docId =
       Some (Wordbook.mkData name stored userId (Some false) (Some None))
  /\ trace r.2 =
       trace w ++ [ClockRead stored; AddDoc (WordbookDoc userId docId);
                   ClockRead returned]
  /\ (returned <> stored ->
      forall wb d, r.1 = Resolved wb ->
        wordbooks (store r.2) userId !! docId = Some d ->
        Wordbook.createdAt (Wordbook.data wb) <> Wordbook.createdAt d).
Proof.
  intros docId stored returned r Hfree.
  assert (E : r =
    (Resolved (Wordbook.mk docId
        (Wordbook.mkData name returned userId (Some false) (Some None))),
     mkWorld
       (setWordbooks userId
          (<[docId :=
               Wordbook.mkData name stored userId (Some false) (Some None)]>
             (wordbooks (store w) userId)) (store w))
       (wordCache w) (posTagCache w) (clock w) (S (S (clockReads w)))
       (autoId w) (S (idsDrawn w))
       (((trace w ++ [ClockRead stored]) ++ [AddDoc (WordbookDoc userId docId)])
          ++ [ClockRead returned]))).
  { subst r. unfold createWordbook. unfold_sdk. simpl.
    fold docId. rewrite Hfree. reflexivity. }
  assert (Hs : wordbooks (store r.2) userId !! docId =
       Some (Wordbook.mkData name stored userId (Some false) (Some None))).
  { rewrite E. simpl. rewrite decide_True by done. apply lookup_insert_eq. }
  split; [by rewrite E|]. split; [exact Hs|]. split.
  - rewrite E. simpl. by rewrite <- !app_assoc.
  - intros Hne wb d Hwb Hd. rewrite Hs in Hd. rewrite E in Hwb. simpl in Hwb.
    injection Hwb as <-. injection Hd as <-. simpl. exact Hne.
Qed.

(** On the sample clock the two readings are one millisecond apart. *)
Lemma createWordbook_restamps_witness :
  wordbooks (store freshWorld) "u" !! "k0" = None
  /\ (createWordbook "u" "book" freshWorld).1 =
       Resolved (Wordbook.mk "k0"
                   (Wordbook.mkData "book" 1001%Z "u" (Some false) (Some None)))
  /\ wordbooks (store (createWordbook "u" "book" freshWorld).2) "u" !! "k0" =
       Some (Wordbook.mkData "book" 1000%Z "u" (Some false) (Some None)).
Proof.
  split; [reflexivity|].
  pose proof (createWordbook_restamps freshWorld "u" "book") as H.
  simpl in H. destruct (H eq_refl) as (H1 & H2 & _). split; assumption.
Defined.

(** ** Hard deletion of a wordbook *)

Lemma setWords_lookup u wb m s : words (setWords u wb m s) u wb = m.
Proof. simpl. by rewrite !decide_True. Qed.

Lemma forEach_deleteDoc_word u wb (l : list (string * Word.Doc)) w :
  exists w',
    forEachAsync (fun d => deleteDoc_word u wb d.1) l w =
      (Resolved (map (fun _ => tt) l), w')
    /\ wordbooks (store w') = wordbooks (store w)
    /\ forall k,
         words (store w') u wb !! k =
           if decide (k ∈ l.*1) then None else words (store w) u wb !! k.
Proof.
  revert w. induction l as [|[i d] l IH]; intros w.
  - exists w. repeat split.
  - cbn [forEachAsync].
    set (w1 := withStore
                 (setWords u wb (delete i (words (store w) u wb)) (store w))
                 (withEvent (DeleteDoc (WordDoc u wb i)) w)).
    rewrite (andThen_resolved _ _ w tt w1) by reflexivity.
    destruct (IH w1) as (w2 & E1 & E2 & E3).
    rewrite (andThen_resolved _ _ _ _ _ E1).
    exists w2. split; [done|]. split; [done|].
    intros k. rewrite E3. subst w1. cbn [store withStore].
    rewrite setWords_lookup. rewrite fmap_cons. cbn [fst].
    destruct (decide (k ∈ l.*1)) as [Hin|Hnin].
    + rewrite decide_True; [done|]. by apply list_elem_of_further.
    + destruct (decide (k = i)) as [->|Hne].
      * rewrite decide_True by apply list_elem_of_here.
        apply lookup_delete_eq.
      * rewrite decide_False; [by apply lookup_delete_ne|].
        intros [?|?]%elem_of_cons; done.
Qed.

(** When [deleteWordbook] has run, the wordbook document and all word
    documents under it are gone; the word cache is as before. *)
Lemma deleteWordbook_effect (w : World) (userId wordbookId : string) :
  exists w',
    deleteWordbook userId wordbookId w = (Resolved tt, w')
    /\ wordbooks (store w') userId !! wordbookId = None
    /\ words (store w') userId wordbookId = ∅
    /\ wordCache w' = wordCache w.
Proof.
  pose proof (deleteWordbook_sameWordCache userId wordbookId w) as Hc.
  revert Hc. unfold deleteWordbook, getDocs_words.
  set (w1 := withEvent (GetDocs (WordsCol userId wordbookId)) w).
  set (docs := map_to_list (words (store w) userId wordbookId)).
  rewrite (andThen_resolved _ _ w docs w1) by reflexivity.
  destruct (forEach_deleteDoc_word userId wordbookId docs w1)
    as (w2 & E1 & E2 & E3).
  rewrite (andThen_resolved _ _ _ _ _ E1).
  intros Hc. eexists. split; [reflexivity|]. split; [|split].
  - simpl. rewrite decide_True by done. apply lookup_delete_eq.
  - simpl. apply map_eq. intros k. rewrite lookup_empty, E3.
    case_decide as Hk; [done|].
    destruct (words (store w1) userId wordbookId !! k) as [d|] eqn:Ek; [|done].
    exfalso. apply Hk. apply list_elem_of_fmap. exists (k, d). split; [done|].
    by apply elem_of_map_to_list.
  - exact Hc.
Qed.

(** After [deleteWordbook], [getWordbook] resolves with [null], and
    [getWordsByWordbookId] resolves with the empty list when the cache
    entry of the key was never populated, and with the cached list, as it
    was before the deletion, when it was. *)
Lemma deleteWordbook_then_reads (w : World) (userId wordbookId : string) :
  exists w',
    deleteWordbook userId wordbookId w = (Resolved tt, w')
    /\ (getWordbook userId wordbookId w').1 = Resolved None
    /\ (getWordsByWordbookId userId wordbookId w').1 =
         Resolved (default [] (wordCache w !! makeCacheKey userId wordbookId)).
Proof.
  destruct (deleteWordbook_effect w userId wordbookId)
    as (w' & E & Hwb & Hws & Hc).
  exists w'. split; [exact E|]. split.
  - by rewrite getWordbook_run, Hwb.
  - destruct (wordCache w !! makeCacheKey userId wordbookId) as [ws|] eqn:Ek.
    + rewrite (getWordsByWordbookId_hit w' _ _ ws); [done|]. by rewrite Hc.
    + rewrite getWordsByWordbookId_miss by (by rewrite Hc).
      simpl. by rewrite Hws, map_to_list_empty.
Qed.

(** C1, on [cachedBookWorld]: [deleteWordbook] resolves, [getWordbook]
    then resolves with [null] and the store has no word left under the
    wordbook, but [getWordsByWordbookId] still resolves with the word that
    was cached before the deletion. *)
Theorem deleteWordbook_stale_word_list :
  let after := deleteWordbook "u" "k0" cachedBookWorld in
  after.1 = Resolved tt
  /\ (getWordbook "u" "k0" after.2).1 = Resolved None
  /\ words (store after.2) "u" "k0" = ∅
  /\ (getWordsByWordbookId "u" "k0" after.2).1 =
       Resolved [Word.mk "k1" (sampleWord "run" []) "k0" 1002%Z
                         (Some None) (Some 0%Z)]
  /\ (getWordsByWordbookId "u" "k0" after.2).1 <> Resolved [].
Proof.
  intros after. subst after.
  split; [vm_compute; reflexivity|]. split; [vm_compute; reflexivity|].
  split; [|split; [vm_compute; reflexivity|vm_compute; discriminate]].
  destruct (deleteWordbook_effect cachedBookWorld "u" "k0")
    as (w' & E & _ & Hws & _).
  by rewrite E.
Qed.

(** ** Listing wordbooks *)

Lemma getWordbooksByUserId_run (w : World) (userId : string) :
  getWordbooksByUserId userId w =
    (Resolved
       (omap (fun e => if negb (Wordbook.isTrashed e.2)
                       then Some (Wordbook.mk e.1 e.2) else None)
             (map_to_list (wordbooks (store w) userId))),
     withEvent (GetDocs (WordbooksCol userId)) w).
Proof. reflexivity. Qed.

Lemma getTrashedWordbooksByUserId_run (w : World) (userId : string) :
  getTrashedWordbooksByUserId userId w =
    (Resolved
       (omap (fun e => if Wordbook.isTrashed e.2
                       then Some (Wordbook.mk e.1 e.2) else None)
             (map_to_list (wordbooks (store w) userId))),
     withEvent (GetDocs (WordbooksCol userId)) w).
Proof. reflexivity. Qed.

(** The records pushed by a [forEach] that keeps the documents on which
    the flag test gives [keep]. *)
Lemma elem_of_pushed (m : gmap string Wordbook.Data) (keep : bool)
    (x : Wordbook.t) :
  x ∈ omap (fun e : string * Wordbook.Data =>
              if bool_decide (Wordbook.isTrashed e.2 = keep)
              then Some (Wordbook.mk e.1 e.2) else None)
           (map_to_list m)
  <-> m !! Wordbook.id x = Some (Wordbook.data x)
      /\ Wordbook.isTrashed (Wordbook.data x) = keep.
Proof.
  rewrite list_elem_of_omap. split.
  - intros ([i d] & Hin & Hx). apply elem_of_map_to_list in Hin.
    simpl in Hx. case_bool_decide as Hk; [|done]. injection Hx as <-. done.
  - intros [Hl Hk]. exists (Wordbook.id x, Wordbook.data x). split.
    + by apply elem_of_map_to_list.
    + simpl. rewrite bool_decide_true by done. by destruct x.
Qed.

Lemma omap_ext_eq {A B} (f g : A -> option B) (l : list A) :
  (forall x, f x = g x) -> omap f l = omap g l.
Proof.
  intros H. induction l as [|x l IH]; csimpl; [done|]. by rewrite H, IH.
Qed.

Lemma active_as_pushed (l : list (string * Wordbook.Data)) :
  omap (fun e => if negb (Wordbook.isTrashed e.2)
                 then Some (Wordbook.mk e.1 e.2) else None) l =
  omap (fun e => if bool_decide (Wordbook.isTrashed e.2 = false)
                 then Some (Wordbook.mk e.1 e.2) else None) l.
Proof.
  apply omap_ext_eq. intros [i d]. simpl. by destruct (Wordbook.isTrashed d).
Qed.

Lemma trashed_as_pushed (l : list (string * Wordbook.Data)) :
  omap (fun e => if Wordbook.isTrashed e.2
                 then Some (Wordbook.mk e.1 e.2) else None) l =
  omap (fun e => if bool_decide (Wordbook.isTrashed e.2 = true)
                 then Some (Wordbook.mk e.1 e.2) else None) l.
Proof.
  apply omap_ext_eq. intros [i d]. simpl. by destruct (Wordbook.isTrashed d).
Qed.

(** Splitting a list by a test and its negation loses and repeats nothing. *)
Lemma omap_split_perm {A B} (p : A -> bool) (f : A -> B) (l : list A) :
  omap (fun x => if negb (p x) then Some (f x) else None) l ++
  omap (fun x => if p x then Some (f x) else None) l ≡ₚ map f l.
Proof.
  induction l as [|x l IH]; [done|]. cbn [omap list_omap map].
  destruct (p x); cbn [negb].
  - rewrite <- Permutation_middle. by constructor.
  - simpl. by constructor.
Qed.

(** C10: in any state of the store, the lists returned by
    [getWordbooksByUserId] and [getTrashedWordbooksByUserId] split the
    user's wordbook documents in two: a record is in the first list
    exactly when its document exists and its [trashed] flag is not truthy,
    in the second exactly when it exists and the flag is truthy; no record
    is in both; and the two lists together are the collection, each
    document once. *)
Theorem wordbook_lists_partition (w : World) (userId : string) :
  exists active trashed : list Wordbook.t,
    (getWordbooksByUserId userId w).1 = Resolved active
    /\ (getTrashedWordbooksByUserId userId
          (getWordbooksByUserId userId w).2).1 = Resolved trashed
    /\ (forall x, x ∈ active <->
          wordbooks (store w) userId !! Wordbook.id x = Some (Wordbook.data x)
          /\ Wordbook.isTrashed (Wordbook.data x) = false)
    /\ (forall x, x ∈ trashed <->
          wordbooks (store w) userId !! Wordbook.id x = Some (Wordbook.data x)
          /\ Wordbook.isTrashed (Wordbook.data x) = true)
    /\ (forall x, x ∈ active -> x ∉ trashed)
    /\ active ++ trashed ≡ₚ
         map (fun e => Wordbook.mk e.1 e.2)
             (map_to_list (wordbooks (store w) userId))
    /\ NoDup (map Wordbook.id (active ++ trashed)).
Proof.
  rewrite getWordbooksByUserId_run. cbn [fst snd].
  rewrite getTrashedWordbooksByUserId_run. cbn [fst snd store withEvent].
  set (docs := map_to_list (wordbooks (store w) userId)).
  eexists _, _. split; [reflexivity|]. split; [reflexivity|].
  assert (Ha : forall x,
    x ∈ omap (fun e => if negb (Wordbook.isTrashed e.2)
                       then Some (Wordbook.mk e.1 e.2) else None) docs <->
    wordbooks (store w) userId !! Wordbook.id x = Some (Wordbook.data x)
    /\ Wordbook.isTrashed (Wordbook.data x) = false).
  { intros x. rewrite active_as_pushed. apply elem_of_pushed. }
  assert (Ht : forall x,
    x ∈ omap (fun e => if Wordbook.isTrashed e.2
                       then Some (Wordbook.mk e.1 e.2) else None) docs <->
    wordbooks (store w) userId !! Wordbook.id x = Some (Wordbook.data x)
    /\ Wordbook.isTrashed (Wordbook.data x) = true).
  { intros x. rewrite trashed_as_pushed. apply elem_of_pushed. }
  pose proof (omap_split_perm (fun e : string * Wordbook.Data =>
                 Wordbook.isTrashed e.2)
               (fun e => Wordbook.mk e.1 e.2) docs) as Hp.
  split; [exact Ha|]. split; [exact Ht|]. split; [|split; [exact Hp|]].
  - intros x [_ H1]%Ha [_ H2]%Ht. congruence.
  - rewrite Hp. rewrite map_map. simpl.
    apply (NoDup_fst_map_to_list (wordbooks (store w) userId)).
Qed.

(** ** The trash is one-way *)

#[local] Instance keepsTrashed_preorder u i : PreOrder (keepsTrashed u i).
Proof.
  split.
  - intros w. repeat split; lia.
  - intros w1 w2 w3 (A1 & B1 & C1) (A2 & B2 & C2).
    repeat split; [congruence|lia|lia].
Qed.

#[local] Instance keepsTrashedIfFresh_preorder u i :
  PreOrder (keepsTrashedIfFresh u i).
Proof.
  split.
  - intros w. repeat split; lia.
  - intros w1 w2 w3 (A1 & B1 & C1) (A2 & B2 & C2).
    split; [congruence|]. split; [lia|]. intros Hf.
    etransitivity; [apply C2|by apply C1].
    intros n Hn. rewrite A1. apply Hf. lia.
Qed.

Lemma keepsTrashed_weaken u i w w' :
  keepsTrashed u i w w' -> keepsTrashedIfFresh u i w w'.
Proof. intros (A & B & C). repeat split; auto. Qed.

Lemma applyBatch_wordbooks ops s s' :
  applyBatch ops s = Some s' -> wordbooks s' = wordbooks s.
Proof.
  revert s. induction ops as [|op ops IH]; intros s; simpl.
  - by intros [= <-].
  - destruct (applyBatchOp op s) as [s1|] eqn:E1; [|done].
    intros H. rewrite (IH _ H).
    destruct op; simpl in E1; repeat case_match; by simplify_eq.
Qed.

Lemma commit_keepsTrashed u i ops : preserves (keepsTrashed u i) (commit ops).
Proof.
  intros w. unfold commit. unfold_promise. simpl. unfold keepsTrashed.
  destruct (applyBatch ops (store w)) as [s'|] eqn:E; simpl.
  - rewrite (applyBatch_wordbooks _ _ _ E). repeat split; lia.
  - repeat split; lia.
Qed.

Lemma deleteDoc_wordbook_keepsTrashed u i userId wordbookId :
  preserves (keepsTrashed u i) (deleteDoc_wordbook userId wordbookId).
Proof.
  intros w. unfold deleteDoc_wordbook. unfold_promise. simpl.
  unfold keepsTrashed. simpl.
  repeat split; [lia|]. case_decide; [|lia]. subst.
  destruct (decide (wordbookId = i)) as [->|Hne].
  - rewrite lookup_delete_eq. simpl. lia.
  - rewrite lookup_delete_ne by done. lia.
Qed.

(** An [updateDoc] that does not write [trashed: false] keeps a trashed
    document trashed. *)
Lemma updateDoc_wordbook_keepsTrashed u i userId wordbookId p :
  Wordbook.p_trashed p <> Some false ->
  preserves (keepsTrashed u i) (updateDoc_wordbook userId wordbookId p).
Proof.
  intros Hp w. unfold updateDoc_wordbook. unfold_promise. simpl.
  unfold keepsTrashed.
  destruct (wordbooks (store w) userId !! wordbookId) as [d|] eqn:E; simpl.
  2: repeat split; lia.
  repeat split; [lia|]. case_decide; [|lia]. subst.
  destruct (decide (wordbookId = i)) as [->|Hne].
  - rewrite lookup_insert_eq, E. unfold trashRank, Wordbook.isTrashed. simpl.
    destruct (Wordbook.p_trashed p) as [[]|]; try done;
      repeat case_match; lia.
  - rewrite lookup_insert_ne by done. lia.
Qed.

Create HintDb preserves.

#[local] Hint Resolve commit_keepsTrashed deleteDoc_wordbook_keepsTrashed
  : preserves.

Ltac preserves_auto ::=
  repeat first
    [ solve [eauto with preserves]
    | solve [preserves_leaf]
    | solve [intros ?w; unfold_sdk;
             unfold rewriteIfCached, pushIfCached, rewriteTagsIfCached;
             simpl; repeat case_match; simpl; unfold keepsTrashed; simpl;
             repeat split; lia]
    | apply preserves_andThen; [apply _| |intros ?]
    | apply preserves_forEachAsync; [apply _|intros ?] ].

Lemma deleteWordbook_keepsTrashed u i userId wordbookId :
  preserves (keepsTrashed u i) (deleteWordbook userId wordbookId).
Proof. unfold deleteWordbook. preserves_auto. Qed.

#[local] Hint Resolve deleteWordbook_keepsTrashed : preserves.

(** Every request except [createWordbook] keeps a trashed wordbook out of
    the live ones. *)
Lemma perform_keepsTrashed u i (r : Request) (w : World) :
  (forall userId name, r <> CreateWordbook userId name) ->
  keepsTrashed u i w (perform r w).
Proof.
  intros Hr. destruct r; cbn [perform]; try (exfalso; by eapply Hr).
  all: match goal with |- keepsTrashed _ _ ?w (?m ?w).2 =>
         revert w; change (preserves (keepsTrashed u i) m) end.
  - unfold getWordbooksByUserId. preserves_auto.
  - apply deleteWordbook_keepsTrashed.
  - unfold trashWordbook.
    apply preserves_andThen; [apply _|preserves_auto|intros now].
    by apply updateDoc_wordbook_keepsTrashed.
  - unfold getTrashedWordbooksByUserId. preserves_auto.
  - unfold clearTrashedWordbooks, getTrashedWordbooksByUserId. preserves_auto.
  - unfold updateWordbookName. by apply updateDoc_wordbook_keepsTrashed.
  - unfold getWordbook. preserves_auto.
  - unfold getWordsByWordbookId. preserves_auto.
  - unfold createWord. preserves_auto.
  - unfold updateWord. preserves_auto.
  - unfold deleteWord. preserves_auto.
  - unfold bulkImportWords. preserves_auto.
  - unfold resetWordsProgress. preserves_auto.
  - unfold bulkDeleteWords. preserves_auto.
  - unfold getPartOfSpeechTags. preserves_auto.
  - unfold createPartOfSpeechTag. preserves_auto.
  - unfold updatePartOfSpeechTag. preserves_auto.
  - unfold deletePartOfSpeechTag. preserves_auto.
Qed.

Lemma createWordbook_keepsTrashedIfFresh u i userId name :
  preserves (keepsTrashedIfFresh u i) (createWordbook userId name).
Proof.
  intros w. unfold createWordbook. unfold_sdk. simpl.
  unfold keepsTrashedIfFresh.
  destruct (wordbooks (store w) userId !! autoId w (idsDrawn w)) eqn:E; simpl.
  - repeat split; [lia|]. intros _. lia.
  - repeat split; [lia|]. intros Hf. case_decide; [|lia]. subst.
    rewrite lookup_insert_ne; [lia|]. apply Hf. lia.
Qed.

(** [createWordbook] does not touch a document that is already there. *)
Lemma createWordbook_present u i userId name w d :
  wordbooks (store w) u !! i = Some d ->
  wordbooks (store (createWordbook userId name w).2) u !! i = Some d.
Proof.
  intros Hd. unfold createWordbook. unfold_sdk. simpl.
  destruct (wordbooks (store w) userId !! autoId w (idsDrawn w)) eqn:E; simpl.
  - done.
  - case_decide; [|done]. subst. rewrite lookup_insert_ne; [done|].
    intros Heq. rewrite Heq in E. congruence.
Qed.

Lemma perform_keepsTrashedIfFresh u i (r : Request) (w : World) :
  keepsTrashedIfFresh u i w (perform r w).
Proof.
  destruct r;
    try (apply keepsTrashed_weaken, perform_keepsTrashed; discriminate).
  apply createWordbook_keepsTrashedIfFresh.
Qed.

Lemma performAll_keepsTrashedIfFresh u i (rs : list Request) (w : World) :
  keepsTrashedIfFresh u i w (performAll rs w).
Proof.
  revert w. induction rs as [|r rs IH]; intros w.
  - reflexivity.
  - cbn [performAll fold_left]. etransitivity.
    + apply (perform_keepsTrashedIfFresh u i r w).
    + apply IH.
Qed.

Lemma trashRank_le_1 o :
  trashRank o <= 1 ->
  match o with
  | None => True
  | Some d => Wordbook.trashed d = Some true
  end.
Proof.
  destruct o as [d|]; [|done]. unfold trashRank, Wordbook.isTrashed.
  destruct (Wordbook.trashed d) as [[]|]; simpl; (done || lia).
Qed.

Lemma trashWordbook_run (w : World) (userId wordbookId : string) d :
  wordbooks (store w) userId !! wordbookId = Some d ->
  exists w',
    trashWordbook userId wordbookId w = (Resolved tt, w')
    /\ wordbooks (store w') userId !! wordbookId =
         Some (Wordbook.mkData (Wordbook.name d) (Wordbook.createdAt d)
                 (Wordbook.userId d) (Some true)
                 (Some (Some (clock w (clockReads w)))))
    /\ autoId w' = autoId w /\ idsDrawn w' = idsDrawn w.
Proof.
  intros Hd. unfold trashWordbook. unfold_sdk. simpl. rewrite Hd.
  eexists. split; [reflexivity|]. simpl. rewrite decide_True by done.
  rewrite lookup_insert_eq. done.
Qed.

(** C6: [getWordbooksByUserId] resolves with exactly the records of the
    user's wordbook documents whose [trashed] flag is not [true].  A
    [trashWordbook] on an existing document resolves and leaves it with
    [trashed = true] and [trashedAt] the clock reading, its other fields
    unchanged.  No request of the layer clears the flag: after any request
    a trashed document is still trashed, or deleted.  So once
    [trashWordbook] has resolved, and as long as the generator does not
    hand out the identifier again for a new wordbook, no later
    [getWordbooksByUserId] lists it, whatever requests were made in
    between. *)
Theorem trashed_wordbook_stays_out :
  (forall (w : World) (userId : string),
     exists active,
       (getWordbooksByUserId userId w).1 = Resolved active
       /\ forall x, x ∈ active <->
            wordbooks (store w) userId !! Wordbook.id x = Some (Wordbook.data x)
            /\ Wordbook.trashed (Wordbook.data x) <> Some true)
  /\ (forall (w : World) (userId wordbookId : string) d,
        wordbooks (store w) userId !! wordbookId = Some d ->
        (trashWordbook userId wordbookId w).1 = Resolved tt
        /\ wordbooks (store (trashWordbook userId wordbookId w).2) userId
             !! wordbookId =
             Some (Wordbook.mkData (Wordbook.name d) (Wordbook.createdAt d)
                     (Wordbook.userId d) (Some true)
                     (Some (Some (clock w (clockReads w))))))
  /\ (forall (w : World) (userId wordbookId : string) d (r : Request),
        wordbooks (store w) userId !! wordbookId = Some d ->
        Wordbook.trashed d = Some true ->
        match wordbooks (store (perform r w)) userId !! wordbookId with
        | None => True
        | Some d' => Wordbook.trashed d' = Some true
        end)
  /\ (forall (w : World) (userId wordbookId : string) (rs : list Request),
        (trashWordbook userId wordbookId w).1 = Resolved tt ->
        (forall n, idsDrawn w <= n -> autoId w n <> wordbookId) ->
        exists active,
          (getWordbooksByUserId userId
             (performAll rs (trashWordbook userId wordbookId w).2)).1 =
            Resolved active
          /\ forall x, x ∈ active -> Wordbook.id x <> wordbookId).
Proof.
  split; [|split; [|split]].
  - intros w u. rewrite getWordbooksByUserId_run. eexists. split; [done|].
    intros x. rewrite active_as_pushed, elem_of_pushed.
    unfold Wordbook.isTrashed.
    destruct (Wordbook.trashed (Wordbook.data x)) as [[]|];
      split; intros [? ?]; split; congruence.
  - intros w u i d Hd.
    destruct (trashWordbook_run w u i d Hd) as (w' & E & Hs & _).
    by rewrite E.
  - intros w u i d r Hd Ht. apply trashRank_le_1.
    assert (H1 : trashRank (wordbooks (store w) u !! i) = 1).
    { rewrite Hd. unfold trashRank, Wordbook.isTrashed. by rewrite Ht. }
    destruct r;
      try (rewrite <- H1; apply perform_keepsTrashed; discriminate).
    cbn [perform]. rewrite (createWordbook_present _ _ _ _ _ _ Hd).
    by rewrite <- Hd, H1.
  - intros w u i rs Hres Hfresh.
    rewrite getWordbooksByUserId_run. eexists. split; [done|].
    intros x Hx. rewrite active_as_pushed, elem_of_pushed in Hx.
    destruct Hx as [Hl Hlive]. intros Heq. rewrite Heq in Hl.
    destruct (wordbooks (store w) u !! i) as [d|] eqn:Hd.
    2: { revert Hres. unfold trashWordbook. unfold_sdk. simpl.
         by rewrite Hd. }
    destruct (trashWordbook_run w u i d Hd) as (w' & E & Hs & Ha & Hn).
    rewrite E in Hl. cbn [snd] in Hl.
    destruct (performAll_keepsTrashedIfFresh u i rs w') as (_ & _ & Hr).
    rewrite Hl, Hs in Hr. unfold trashRank at 1 in Hr. rewrite Hlive in Hr.
    unfold trashRank, Wordbook.isTrashed in Hr. simpl in Hr.
    assert (2 <= 1); [|lia]. apply Hr. intros n Hle. rewrite Ha.
    apply Hfresh. lia.
Qed.

(** In [twoBooksWorld] the wordbook [k0] is trashed, then renamed, a third
    wordbook is created and the lists are read: [k0] is in none of the
    live lists. *)
Lemma trashed_wordbook_stays_out_witness :
  let rs := [UpdateWordbookName "u" "k0" "renamed";
             CreateWordbook "u" "third";
             GetTrashedWordbooksByUserId "u"] in
  (trashWordbook "u" "k0" twoBooksWorld).1 = Resolved tt
  /\ (forall n, idsDrawn twoBooksWorld <= n ->
        autoId twoBooksWorld n <> "k0")
  /\ exists active,
       (getWordbooksByUserId "u"
          (performAll rs (trashWordbook "u" "k0" twoBooksWorld).2)).1 =
         Resolved active
       /\ forall x, x ∈ active -> Wordbook.id x <> "k0".
Proof.
  intros rs.
  assert (H1 : (trashWordbook "u" "k0" twoBooksWorld).1 = Resolved tt)
    by (vm_compute; reflexivity).
  assert (H2 : forall n, idsDrawn twoBooksWorld <= n ->
                 autoId twoBooksWorld n <> "k0").
  { intros n Hn. change (idsDrawn twoBooksWorld) with 2 in Hn.
    change (autoId twoBooksWorld n) with (sampleAutoId n).
    do 2 (destruct n as [|n]; [lia|]).
    do 7 (destruct n as [|n]; [discriminate|]). discriminate. }
  split; [exact H1|]. split; [exact H2|].
  destruct trashed_wordbook_stays_out as (_ & _ & _ & H).
  exact (H twoBooksWorld "u" "k0" rs H1 H2).
Defined.

(** ** Batched writes on one word collection *)

Lemma setWords_other u wb m s u' wb' :
  (u', wb') <> (u, wb) -> words (setWords u wb m s) u' wb' = words s u' wb'.
Proof.
  intros Hne. simpl. repeat case_decide; subst; done.
Qed.

Lemma onlyWordsOf_refl u wb s : onlyWordsOf u wb s s.
Proof. by repeat split. Qed.

Lemma onlyWordsOf_trans u wb s1 s2 s3 :
  onlyWordsOf u wb s1 s2 -> onlyWordsOf u wb s2 s3 -> onlyWordsOf u wb s1 s3.
Proof.
  intros (A1 & B1 & C1) (A2 & B2 & C2).
  repeat split; [congruence|congruence|].
  intros u' wb' H. by rewrite C2, C1.
Qed.

Lemma onlyWordsOf_setWords u wb m s : onlyWordsOf u wb s (setWords u wb m s).
Proof. repeat split. intros u' wb' H. by apply setWords_other. Qed.

Lemma mergeDoc_resetProgress (d : Word.Doc) :
  PartialWord.mergeDoc PartialWord.resetProgress d = withProgressReset d.
Proof. by destruct d as [i [] ? ? ? ?]. Qed.

Lemma mergeWord_resetProgress (x : Word.t) :
  PartialWord.mergeWord PartialWord.resetProgress x = withProgressReset x.
Proof. by destruct x as [i [] ? ? ? ?]. Qed.

Lemma withProgressReset_idem {I} (x : Word.rec I) :
  withProgressReset (withProgressReset x) = withProgressReset x.
Proof. by destruct x as [i [] ? ? ? ?]. Qed.

(** A batch of [update]s with one patch [p] goes through exactly when
    every addressed document exists. *)
Lemma applyBatch_updates_Some u wb p (ids : list string) (s : Store) :
  (forall i, i ∈ ids -> is_Some (words s u wb !! i)) ->
  exists s',
    applyBatch (map (fun i => BatchUpdate u wb i p) ids) s = Some s'
    /\ onlyWordsOf u wb s s'
    /\ ((forall d, PartialWord.mergeDoc p (PartialWord.mergeDoc p d)
                   = PartialWord.mergeDoc p d) ->
        forall k,
          words s' u wb !! k =
            if decide (k ∈ ids)
            then PartialWord.mergeDoc p <$> words s u wb !! k
            else words s u wb !! k).
Proof.
  revert s. induction ids as [|i ids IH]; intros s Hex.
  - exists s. split; [done|]. split; [apply onlyWordsOf_refl|].
    intros _ k. rewrite decide_False; [done|]. apply not_elem_of_nil.
  - destruct (Hex i) as [d Hd]; [apply list_elem_of_here|].
    cbn [map applyBatch applyBatchOp]. rewrite Hd.
    set (s1 := setWords u wb _ s).
    destruct (IH s1) as (s' & E & Hfr & Hl).
    { intros j Hj. subst s1. rewrite setWords_lookup.
      destruct (decide (j = i)) as [->|Hne].
      - rewrite lookup_insert_eq. by eexists.
      - rewrite lookup_insert_ne by done. apply Hex.
        by apply list_elem_of_further. }
    exists s'. split; [exact E|]. split.
    { eapply onlyWordsOf_trans; [|exact Hfr]. apply onlyWordsOf_setWords. }
    intros Hidem k. rewrite (Hl Hidem). subst s1. rewrite setWords_lookup.
    destruct (decide (k = i)) as [->|Hne].
    + rewrite lookup_insert_eq, Hd.
      rewrite (decide_True (P := i ∈ i :: ids)) by apply list_elem_of_here.
      case_decide; simpl; [by rewrite Hidem|done].
    + rewrite lookup_insert_ne by done.
      destruct (decide (k ∈ ids)) as [Hin|Hnin].
      * rewrite decide_True; [done|]. by apply list_elem_of_further.
      * rewrite decide_False; [done|]. intros [?|?]%elem_of_cons; done.
Qed.

Lemma applyBatch_updates_None u wb p (ids : list string) (s : Store) i :
  i ∈ ids -> words s u wb !! i = None ->
  applyBatch (map (fun i => BatchUpdate u wb i p) ids) s = None.
Proof.
  revert s. induction ids as [|j ids IH]; intros s Hin Hn.
  - by apply not_elem_of_nil in Hin.
  - cbn [map applyBatch applyBatchOp].
    destruct (words s u wb !! j) as [d|] eqn:Hd; [|done].
    apply elem_of_cons in Hin as [->|Hin]; [congruence|].
    apply IH; [done|]. rewrite setWords_lookup.
    rewrite lookup_insert_ne; [done|]. intros ->. congruence.
Qed.

(** ** Resetting progress *)

Lemma rewriteIfCached_frame key f w :
  store (rewriteIfCached key f w) = store w
  /\ trace (rewriteIfCached key f w) = trace w
  /\ wordCache (rewriteIfCached key f w) !! key = f <$> wordCache w !! key
  /\ forall k, k <> key ->
       wordCache (rewriteIfCached key f w) !! k = wordCache w !! k.
Proof.
  unfold rewriteIfCached.
  destruct (wordCache w !! key) as [ws|] eqn:Hc; simpl.
  - repeat split; [by rewrite lookup_insert_eq|].
    intros k Hk. by rewrite lookup_insert_ne.
  - by rewrite Hc.
Qed.

Lemma resetWordsProgress_run (w : World) (userId wordbookId : string)
    (ids : list string) :
  let ops := map (fun i => BatchUpdate userId wordbookId i
                             PartialWord.resetProgress) ids in
  resetWordsProgress userId wordbookId ids w =
    match applyBatch ops (store w) with
    | Some s' =>
        (Resolved tt,
         rewriteIfCached (makeCacheKey userId wordbookId)
           (map (fun x => if decide (Word.id x ∈ ids)
                          then PartialWord.mergeWord PartialWord.resetProgress x
                          else x))
           (withStore s' (withEvent (BatchCommit ops) w)))
    | None => (Rejected NotFound, withEvent (BatchCommit ops) w)
    end.
Proof.
  intros ops. unfold resetWordsProgress, commit. unfold_promise. simpl.
  fold ops. by destruct (applyBatch ops (store w)).
Qed.

(** C4: [resetWordsProgress] resolves exactly when every listed id has a
    word document (otherwise the batch is refused as a whole).  When it
    has resolved, a stored word whose document id is listed has
    [mastery = 0], [studyCount = 0] and [reviewDate = null] and its other
    fields as before, and every other stored word, in this or any other
    collection, is as before; in the cache entry of the key, if there is
    one, the words whose [id] is listed are reset in the same way and the
    others are untouched; other cache entries are as before.  The store
    was written by one batched commit. *)
Theorem resetWordsProgress_resets_listed_only (w : World)
    (userId wordbookId : string) (ids : list string) :
  let r := resetWordsProgress userId wordbookId ids w in
  let key := makeCacheKey userId wordbookId in
  (r.1 = Resolved tt <->
     forall i, i ∈ ids -> is_Some (words (store w) userId wordbookId !! i))
  /\ (r.1 = Resolved tt ->
      (forall i d, words (store w) userId wordbookId !! i = Some d ->
         words (store r.2) userId wordbookId !! i =
           Some (if decide (i ∈ ids) then withProgressReset d else d))
      /\ (forall i, words (store w) userId wordbookId !! i = None ->
            words (store r.2) userId wordbookId !! i = None)
      /\ onlyWordsOf userId wordbookId (store w) (store r.2)
      /\ wordCache r.2 !! key =
           map (fun x => if decide (Word.id x ∈ ids)
                         then withProgressReset x else x)
             <$> wordCache w !! key
      /\ (forall k, k <> key -> wordCache r.2 !! k = wordCache w !! k)
      /\ trace r.2 =
           trace w ++
             [BatchCommit
                (map (fun i => BatchUpdate userId wordbookId i
                                 PartialWord.resetProgress) ids)]).
Proof.
  intros r key. subst r key. rewrite resetWordsProgress_run.
  set (ops := map _ ids).
  destruct (applyBatch ops (store w)) as [s'|] eqn:E; cbn [fst snd].
  - assert (Hex : forall i, i ∈ ids ->
               is_Some (words (store w) userId wordbookId !! i)).
    { intros i Hi.
      destruct (words (store w) userId wordbookId !! i) eqn:Hn; [by eexists|].
      subst ops.
      rewrite (applyBatch_updates_None _ _ _ _ _ _ Hi Hn) in E. done. }
    split; [done|]. intros _.
    destruct (applyBatch_updates_Some userId wordbookId
                PartialWord.resetProgress ids (store w) Hex)
      as (s2 & E2 & Hfr & Hl).
    subst ops. rewrite E in E2. injection E2 as <-.
    assert (Hl' := Hl (fun d => ltac:(by rewrite !mergeDoc_resetProgress,
                                         withProgressReset_idem))).
    match goal with |- context [rewriteIfCached ?k ?f ?w0] =>
      destruct (rewriteIfCached_frame k f w0) as (E1 & E2 & E3 & Hk) end.
    rewrite E1, E2, E3.
    cbn [store trace wordCache withStore withEvent].
    split; [|split; [|split; [exact Hfr|split; [|split; [exact Hk|done]]]]].
    + intros i d Hd. rewrite Hl', Hd. simpl.
      case_decide; [by rewrite mergeDoc_resetProgress|done].
    + intros i Hn. rewrite Hl', Hn. by case_decide.
    + destruct (wordCache w !! makeCacheKey userId wordbookId); [|done].
      simpl. apply (f_equal Some), map_ext. intros x.
      case_decide; [apply mergeWord_resetProgress|done].
  - split; [|done]. split; [done|]. intros Hex. exfalso.
    destruct (applyBatch_updates_Some userId wordbookId
                PartialWord.resetProgress ids (store w) Hex)
      as (s2 & E2 & _).
    subst ops. congruence.
Qed.

(** In [twoWordsWorld] both words start with [mastery = 3]; resetting
    [k1] resolves, clears the progress of [k1] in the store and leaves
    [k2] alone. *)
Lemma resetWordsProgress_resets_listed_only_witness :
  let r := resetWordsProgress "u" "k0" ["k1"] twoWordsWorld in
  r.1 = Resolved tt
  /\ (forall d, words (store twoWordsWorld) "u" "k0" !! "k1" = Some d ->
        words (store r.2) "u" "k0" !! "k1" = Some (withProgressReset d))
  /\ (forall d, words (store twoWordsWorld) "u" "k0" !! "k2" = Some d ->
        words (store r.2) "u" "k0" !! "k2" = Some d).
Proof.
  intros r. subst r.
  assert (H : (resetWordsProgress "u" "k0" ["k1"] twoWordsWorld).1
              = Resolved tt) by (vm_compute; reflexivity).
  split; [exact H|].
  destruct (resetWordsProgress_resets_listed_only twoWordsWorld "u" "k0" ["k1"])
    as [_ Hafter].
  destruct (Hafter H) as (Hin & _).
  split; intros d Hd; rewrite (Hin _ d Hd).
  - by rewrite decide_True by (vm_compute; constructor).
  - rewrite decide_False; [done|].
    intros [E|E]%elem_of_cons; [discriminate|by apply not_elem_of_nil in E].
Defined.

(** ** Bulk import *)

Lemma forEach_newWord (wb : string) (t : Timestamp) (data : list NewWord.t)
    (w : World) :
  forEachAsync
    (fun d =>
       await docId <- newDocId;
       resolve (Word.mk docId d wb t (Some None) (Some 0%Z)))
    data w =
  (Resolved
     (imap (fun j d =>
              Word.mk (autoId w (idsDrawn w + j)) d wb t (Some None) (Some 0%Z))
           data),
   mkWorld (store w) (wordCache w) (posTagCache w) (clock w) (clockReads w)
           (autoId w) (idsDrawn w + length data) (trace w)).
Proof.
  revert w. induction data as [|d data IH]; intros w.
  - simpl. unfold resolve. destruct w; simpl. do 2 f_equal. lia.
  - cbn [forEachAsync]. unfold andThen at 1. unfold andThen at 1.
    unfold newDocId at 1. unfold resolve at 1.
    unfold andThen. rewrite IH. unfold resolve. simpl.
    f_equal.
    + f_equal. f_equal; [by rewrite Nat.add_0_r|].
      apply imap_ext. intros j x _. simpl. do 2 f_equal. lia.
    + f_equal. lia.
Qed.

(** A batch of [set]s always goes through; it writes only the addressed
    collection, and when the identifiers are pairwise different every
    word is stored under its identifier. *)
Lemma applyBatch_sets u wb (ws : list Word.t) (s : Store) :
  exists s',
    applyBatch
      (map (fun x => BatchSet u wb (Word.id x) (Word.toDoc x)) ws) s = Some s'
    /\ onlyWordsOf u wb s s'
    /\ (forall k, k ∉ map Word.id ws ->
          words s' u wb !! k = words s u wb !! k)
    /\ (NoDup (map Word.id ws) ->
        forall x, x ∈ ws -> words s' u wb !! Word.id x = Some (Word.toDoc x)).
Proof.
  revert s. induction ws as [|x ws IH]; intros s.
  - exists s. split; [done|]. split; [apply onlyWordsOf_refl|].
    split; [done|]. intros _ x Hx. by apply not_elem_of_nil in Hx.
  - cbn [map applyBatch applyBatchOp].
    set (s1 := setWords u wb _ s).
    destruct (IH s1) as (s' & E & Hfr & Hout & Hin).
    exists s'. split; [exact E|]. split.
    { eapply onlyWordsOf_trans; [|exact Hfr]. apply onlyWordsOf_setWords. }
    split.
    + intros k Hk. rewrite not_elem_of_cons in Hk. destruct Hk as [Hne Hk].
      rewrite (Hout k Hk). subst s1. rewrite setWords_lookup.
      by rewrite lookup_insert_ne.
    + intros Hnd y Hy. apply NoDup_cons in Hnd as [Hx Hnd].
      apply elem_of_cons in Hy as [->|Hy]; [|by apply Hin].
      rewrite (Hout _ Hx). subst s1. rewrite setWords_lookup.
      apply lookup_insert_eq.
Qed.

Lemma ofDoc_toDoc (x : Word.t) : Word.ofDoc (Word.id x) (Word.toDoc x) = x.
Proof. by destruct x. Qed.

Lemma bulkImportWords_run (w : World) (userId wordbookId : string)
    (data : list NewWord.t) :
  let t := clock w (clockReads w) in
  let newWords :=
    imap (fun j d =>
            Word.mk (autoId w (idsDrawn w + j)) d wordbookId t
                    (Some None) (Some 0%Z)) data in
  let ops :=
    map (fun x => BatchSet userId wordbookId (Word.id x) (Word.toDoc x))
        newWords in
  let key := makeCacheKey userId wordbookId in
  exists s',
    applyBatch ops (store w) = Some s'
    /\ bulkImportWords userId wordbookId data w =
         (Resolved newWords,
          mkWorld s'
            (<[key := default [] (wordCache w !! key) ++ newWords]>
               (wordCache w))
            (posTagCache w) (clock w) (S (clockReads w)) (autoId w)
            (idsDrawn w + length data)
            ((trace w ++ [ClockRead t]) ++ [BatchCommit ops])).
Proof.
  intros t newWords ops key.
  destruct (applyBatch_sets userId wordbookId newWords (store w))
    as (s' & E & _).
  fold ops in E. exists s'. split; [exact E|].
  unfold bulkImportWords. unfold andThen at 1. unfold Timestamp_now at 1.
  unfold andThen at 1. rewrite forEach_newWord.
  cbn [autoId idsDrawn store wordCache posTagCache clock clockReads trace].
  fold t. fold newWords. fold ops. fold key.
  unfold commit. unfold_promise.
  cbn [store withEvent withStore wordCache fst snd].
  rewrite E. unfold withStore, withEvent, withWordCache. simpl.
  destruct (wordCache w !! key); reflexivity.
Qed.

(** C3: [bulkImportWords] always resolves.  It reads the clock once, draws
    one identifier per item, and the [j]-th returned word is the [j]-th
    item under the [j]-th identifier drawn, with [wordbookId] the target
    wordbook, [createdAt] the one clock reading, [reviewDate = null] and
    [studyCount = 0].  The store is written by a single batched commit of
    one [set] per word, which touches no other collection and, the
    identifiers being pairwise different, leaves every word stored under
    its identifier, from where it reads back as the same word.  The cache
    entry of the key is then populated (appended to, or started), so that
    a following [getWordsByWordbookId] resolves, without a store read,
    with a list that ends with the new words. *)
Theorem bulkImportWords_one_stamp_one_batch (w : World)
    (userId wordbookId : string) (data : list NewWord.t) :
  let t := clock w (clockReads w) in
  let key := makeCacheKey userId wordbookId in
  exists (newWords : list Word.t) (w' : World),
    bulkImportWords userId wordbookId data w = (Resolved newWords, w')
    /\ length newWords = length data
    /\ (forall j d, data !! j = Some d ->
          newWords !! j =
            Some (Word.mk (autoId w (idsDrawn w + j)) d wordbookId t
                          (Some None) (Some 0%Z)))
    /\ (forall x, x ∈ newWords ->
          Word.createdAt x = t /\ Word.wordbookId x = wordbookId
          /\ Word.reviewDate x = Some None /\ Word.studyCount x = Some 0%Z)
    /\ clockReads w' = S (clockReads w)
    /\ idsDrawn w' = idsDrawn w + length data
    /\ trace w' =
         trace w ++
           [ClockRead t;
            BatchCommit
              (map (fun x => BatchSet userId wordbookId (Word.id x)
                               (Word.toDoc x)) newWords)]
    /\ onlyWordsOf userId wordbookId (store w) (store w')
    /\ (NoDup (map Word.id newWords) ->
        forall x, x ∈ newWords ->
          words (store w') userId wordbookId !! Word.id x = Some (Word.toDoc x)
          /\ Word.ofDoc (Word.id x) (Word.toDoc x) = x)
    /\ getWordsByWordbookId userId wordbookId w' =
         (Resolved (default [] (wordCache w !! key) ++ newWords), w')
    /\ (forall x, x ∈ newWords ->
          x ∈ default [] (wordCache w !! key) ++ newWords).
Proof.
  intros t key. subst t key.
  destruct (bulkImportWords_run w userId wordbookId data) as (s' & E & Hrun).
  cbv zeta in E, Hrun.
  set (newWords :=
         imap (fun j d =>
                 Word.mk (autoId w (idsDrawn w + j)) d wordbookId
                         (clock w (clockReads w)) (Some None) (Some 0%Z))
              data) in *.
  destruct (applyBatch_sets userId wordbookId newWords (store w))
    as (s2 & E2 & Hfr & _ & Hin).
  rewrite E in E2. injection E2 as <-.
  eexists newWords, _. split; [exact Hrun|].
  split; [apply length_imap|]. split.
  { intros j d Hd. subst newWords. by rewrite list_lookup_imap, Hd. }
  split.
  { intros x (j & d & -> & _)%elem_of_lookup_imap. done. }
  split; [done|]. split; [done|]. split.
  { cbn [trace]. by rewrite <- app_assoc. }
  split; [exact Hfr|]. split.
  { intros Hnd x Hx. split; [by apply Hin|apply ofDoc_toDoc]. }
  split.
  - apply getWordsByWordbookId_hit. cbn [wordCache]. apply lookup_insert_eq.
  - intros x Hx. apply elem_of_app. by right.
Qed.

(** Two words imported into the wordbook [b] of a fresh world: the two
    identifiers drawn differ, so both words are stored under them. *)
Lemma bulkImportWords_one_stamp_one_batch_witness :
  exists (newWords : list Word.t) (w' : World),
    bulkImportWords "u" "b" [sampleWord "run" []; sampleWord "tree" []]
      freshWorld = (Resolved newWords, w')
    /\ NoDup (map Word.id newWords)
    /\ forall x, x ∈ newWords ->
         words (store w') "u" "b" !! Word.id x = Some (Word.toDoc x)
         /\ Word.createdAt x = 1000%Z.
Proof.
  destruct (bulkImportWords_one_stamp_one_batch freshWorld "u" "b"
              [sampleWord "run" []; sampleWord "tree" []])
    as (newWords & w' & E & Hlen & Hat & Hst & _ & _ & _ & _ & Hin & _).
  assert (Hnd : NoDup (map Word.id newWords)).
  { pose proof (Hat 0 _ eq_refl) as H0. pose proof (Hat 1 _ eq_refl) as H1.
    destruct newWords as [|a [|b [|c l]]]; try discriminate Hlen.
    simpl in H0, H1. injection H0 as ->. injection H1 as ->.
    apply (bool_decide_unpack _). vm_compute. exact I. }
  exists newWords, w'. split; [exact E|]. split; [exact Hnd|].
  intros x Hx. split; [apply (Hin Hnd x Hx)|apply (Hst x Hx)].
Defined.

(** ** Deleting a part-of-speech tag *)

Lemma updateDoc_word_run u wb i p w d :
  words (store w) u wb !! i = Some d ->
  updateDoc_word u wb i p w =
    (Resolved tt,
     withStore
       (setWords u wb (<[i := PartialWord.mergeDoc p d]> (words (store w) u wb))
          (store w))
       (withEvent (UpdateDoc (WordDoc u wb i)) w)).
Proof.
  intros H. unfold updateDoc_word. unfold_promise. simpl. by rewrite H.
Qed.

Lemma partOfSpeech_setPartOfSpeech (l : list string) (d : Word.Doc) :
  Word.partOfSpeech (PartialWord.mergeDoc (PartialWord.setPartOfSpeech l) d)
    = l.
Proof. reflexivity. Qed.

Lemma not_elem_of_filter_ne (t : string) (l : list string) :
  t ∉ filter (fun x => x ≠ t) l.
Proof. rewrite list_elem_of_filter. by intros [? _]. Qed.

(** Rewriting the tag list of one document keeps clean collections clean. *)
Lemma tagFree_rewrite t u wb i (l : list string) d s wb0 :
  t ∉ l ->
  tagFree t (words s u wb0) ->
  tagFree t
    (words
       (setWords u wb
          (<[i := PartialWord.mergeDoc (PartialWord.setPartOfSpeech l) d]>
             (words s u wb)) s) u wb0).
Proof.
  intros Hl Hfree k d'.
  destruct (decide (wb0 = wb)) as [->|Hne].
  - rewrite setWords_lookup.
    destruct (decide (k = i)) as [->|Hki].
    + rewrite lookup_insert_eq. intros [= <-].
      by rewrite partOfSpeech_setPartOfSpeech.
    + rewrite lookup_insert_ne by done. apply Hfree.
  - rewrite setWords_other by congruence. apply Hfree.
Qed.

(** The updates issued for the documents of one query snapshot. *)
Lemma forEach_stripTag u wb t (docs : list (string * Word.Doc)) (w : World) :
  (forall e, e ∈ docs -> is_Some (words (store w) u wb !! e.1)) ->
  exists w',
    forEachAsync
      (fun docSnap =>
         updateDoc_word u wb docSnap.1
           (PartialWord.setPartOfSpeech
              (filter (fun x => x ≠ t) (Word.partOfSpeech docSnap.2))))
      docs w = (Resolved (map (fun _ => tt) docs), w')
    /\ onlyWordsOf u wb (store w) (store w')
    /\ posTagCache w' = posTagCache w
    /\ (forall wb0, tagFree t (words (store w) u wb0) ->
                    tagFree t (words (store w') u wb0))
    /\ ((forall k d, words (store w) u wb !! k = Some d ->
           t ∈ Word.partOfSpeech d -> k ∈ docs.*1) ->
        tagFree t (words (store w') u wb)).
Proof.
  revert w. induction docs as [|[i d0] docs IH]; intros w Hex.
  - exists w. split; [done|]. split; [apply onlyWordsOf_refl|].
    split; [done|]. split; [done|].
    intros Hsub k d Hk Ht. specialize (Hsub k d Hk Ht).
    by apply not_elem_of_nil in Hsub.
  - destruct (Hex (i, d0)) as [d Hd]; [apply list_elem_of_here|].
    cbn [fst] in Hd. cbn [forEachAsync].
    rewrite (andThen_resolved _ _ _ _ _ (updateDoc_word_run u wb i _ w d Hd)).
    cbn [fst snd].
    set (l := filter (fun x => x ≠ t) (Word.partOfSpeech d0)).
    set (w1 := withStore _ _).
    destruct (IH w1) as (w' & E & Hfr & Hc & Hkeep & Hclean).
    { intros e He. subst w1. cbn [store withStore]. rewrite setWords_lookup.
      destruct (decide (e.1 = i)) as [->|Hne].
      - rewrite lookup_insert_eq. by eexists.
      - rewrite lookup_insert_ne by done. apply Hex.
        by apply list_elem_of_further. }
    rewrite (andThen_resolved _ _ _ _ _ E).
    exists w'. split; [done|]. split.
    { eapply onlyWordsOf_trans; [|exact Hfr]. apply onlyWordsOf_setWords. }
    split; [by rewrite Hc|]. split.
    + intros wb0 H0. apply Hkeep. subst w1. cbn [store withStore].
      apply tagFree_rewrite; [apply not_elem_of_filter_ne|done].
    + intros Hsub. apply Hclean. intros k d' Hk Ht.
      subst w1. cbn [store withStore] in Hk. rewrite setWords_lookup in Hk.
      destruct (decide (k = i)) as [->|Hki].
      * rewrite lookup_insert_eq in Hk. injection Hk as <-.
        rewrite partOfSpeech_setPartOfSpeech in Ht.
        by apply not_elem_of_filter_ne in Ht.
      * rewrite lookup_insert_ne in Hk by done.
        specialize (Hsub k d' Hk Ht). rewrite fmap_cons in Hsub.
        apply elem_of_cons in Hsub as [?|?]; done.
Qed.

(** What [deletePartOfSpeechTag] does for one wordbook: query, then
    update every document of the snapshot. *)
Lemma stripTag_wordbook u t wb (w : World) :
  exists r w',
    (await wordsSnap <- queryDocs_words_partOfSpeech u wb t;
     forEachAsync
       (fun docSnap =>
          updateDoc_word u wb docSnap.1
            (PartialWord.setPartOfSpeech
               (filter (fun x => x ≠ t) (Word.partOfSpeech docSnap.2))))
       wordsSnap) w = (Resolved r, w')
    /\ onlyWordsOf u wb (store w) (store w')
    /\ posTagCache w' = posTagCache w
    /\ (forall wb0, tagFree t (words (store w) u wb0) ->
                    tagFree t (words (store w') u wb0))
    /\ tagFree t (words (store w') u wb).
Proof.
  set (docs := filter (fun e : string * Word.Doc => t ∈ Word.partOfSpeech e.2)
                      (map_to_list (words (store w) u wb))).
  set (w1 := withEvent (QueryArrayContains (WordsCol u wb) "partOfSpeech" t) w).
  rewrite (andThen_resolved _ _ w docs w1) by reflexivity.
  destruct (forEach_stripTag u wb t docs w1) as (w' & E & Hfr & Hc & Hk & Hcl).
  { intros [k d] [_ Hin%elem_of_map_to_list]%list_elem_of_filter. by eexists. }
  exists (map (fun _ => tt) docs), w'. split; [exact E|].
  split; [exact Hfr|]. split; [exact Hc|]. split; [exact Hk|].
  apply Hcl. intros k d Hd Ht. apply list_elem_of_fmap. exists (k, d).
  split; [done|]. apply list_elem_of_filter. split; [done|].
  by apply elem_of_map_to_list.
Qed.

(** The fan-out over the snapshot of the user's wordbooks. *)
Lemma forEach_stripTag_wordbooks u t (wbs : list (string * Wordbook.Data))
    (w : World) :
  exists r w',
    forEachAsync
      (fun wb : string * Wordbook.Data =>
         await wordsSnap <- queryDocs_words_partOfSpeech u wb.1 t;
         forEachAsync
           (fun docSnap =>
              updateDoc_word u wb.1 docSnap.1
                (PartialWord.setPartOfSpeech
                   (filter (fun x => x ≠ t) (Word.partOfSpeech docSnap.2))))
           wordsSnap)
      wbs w = (Resolved r, w')
    /\ wordbooks (store w') = wordbooks (store w)
    /\ posTags (store w') = posTags (store w)
    /\ posTagCache w' = posTagCache w
    /\ (forall wb0, tagFree t (words (store w) u wb0) ->
                    tagFree t (words (store w') u wb0))
    /\ (forall e, e ∈ wbs -> tagFree t (words (store w') u e.1)).
Proof.
  revert w. induction wbs as [|[wb dwb] wbs IH]; intros w.
  - exists [], w. repeat split; try done.
    intros e He. by apply not_elem_of_nil in He.
  - cbn [forEachAsync].
    destruct (stripTag_wordbook u t wb w)
      as (r1 & w1 & E1 & Hfr & Hc & Hk & Hcl).
    cbn [fst]. rewrite (andThen_resolved _ _ _ _ _ E1).
    destruct (IH w1) as (r2 & w2 & E2 & Hb2 & Ht2 & Hc2 & Hk2 & Hcl2).
    rewrite (andThen_resolved _ _ _ _ _ E2).
    destruct Hfr as (Hb1 & Ht1 & _).
    eexists _, w2. split; [reflexivity|].
    split; [congruence|]. split; [congruence|]. split; [congruence|].
    split; [intros wb0 H0; by apply Hk2, Hk|].
    intros e [->|He]%elem_of_cons; [by apply Hk2|by apply Hcl2].
Qed.

Lemma deletePartOfSpeechTag_run (w : World) (userId tagId : string) :
  exists w',
    deletePartOfSpeechTag userId tagId w = (Resolved tt, w')
    /\ wordbooks (store w') = wordbooks (store w)
    /\ (forall wb, is_Some (wordbooks (store w) userId !! wb) ->
                   tagFree tagId (words (store w') userId wb))
    /\ posTags (store w') userId = delete tagId (posTags (store w) userId)
    /\ posTagCache w' !! userId =
         filter (fun x => PartOfSpeechTag.id x ≠ tagId)
           <$> posTagCache w !! userId.
Proof.
  unfold deletePartOfSpeechTag, getDocs_wordbooks.
  set (w1 := withEvent (GetDocs (WordbooksCol userId)) w).
  set (wbs := map_to_list (wordbooks (store w) userId)).
  rewrite (andThen_resolved _ _ w wbs w1) by reflexivity.
  destruct (forEach_stripTag_wordbooks userId tagId wbs w1)
    as (r & w2 & E & Hb & Ht & Hc & _ & Hcl).
  rewrite (andThen_resolved _ _ _ _ _ E).
  unfold deleteDoc_posTag, rewriteTagsIfCached. unfold_promise.
  cbn [fst snd store posTagCache withStore withEvent].
  eexists. split; [reflexivity|].
  assert (Hclean : forall wb, is_Some (wordbooks (store w) userId !! wb) ->
                     tagFree tagId (words (store w2) userId wb)).
  { intros wb [d Hd]. apply (Hcl (wb, d)). by apply elem_of_map_to_list. }
  rewrite Hc. subst w1. cbn [posTagCache withEvent].
  destruct (posTagCache w !! userId) as [tags|] eqn:Hcache;
    cbn [store posTagCache withStore withEvent withPosTagCache setPosTags
         wordbooks words posTags fmap option_fmap option_map].
  - rewrite decide_True by done. rewrite lookup_insert_eq, Ht.
    by repeat split.
  - rewrite decide_True by done. rewrite Ht, Hc. by repeat split.
Qed.

(** C9: [deletePartOfSpeechTag] always resolves and never writes the word
    cache: every entry is after the call what it was before.  So a cached
    word list can still name the deleted tag: in [taggedWorld] the list
    served for the wordbook after the call has a word whose [partOfSpeech]
    contains the tag, while the stored word no longer does. *)
Theorem deletePartOfSpeechTag_leaves_wordCache :
  (forall (w : World) (userId tagId : string),
     (deletePartOfSpeechTag userId tagId w).1 = Resolved tt
     /\ wordCache (deletePartOfSpeechTag userId tagId w).2 = wordCache w)
  /\ (exists (ws : list Word.t) (x : Word.t),
        let after := deletePartOfSpeechTag "u" "k0" taggedWorld in
        (getWordsByWordbookId "u" "k1" after.2).1 = Resolved ws
        /\ x ∈ ws /\ "k0" ∈ Word.partOfSpeech x
        /\ (forall d, words (store after.2) "u" "k1" !! "k2" = Some d ->
                      Word.partOfSpeech d = [])).
Proof.
  split.
  - intros w u t. split; [|apply deletePartOfSpeechTag_sameWordCache].
    destruct (deletePartOfSpeechTag_run w u t) as (w' & E & _).
    by rewrite E.
  - eexists _, (Word.mk "k2" (sampleWord "run" ["k0"]) "k1" _ _ _).
    split; [vm_compute; reflexivity|].
    split; [constructor|]. split; [constructor|].
    intros d. vm_compute. intros [= <-]. reflexivity.
Qed.

Lemma getPartOfSpeechTags_run (w : World) (userId : string) :
  getPartOfSpeechTags userId w =
    match posTagCache w !! userId with
    | Some tags => (Resolved tags, w)
    | None =>
        let tags := map (fun e => PartOfSpeechTag.ofDoc e.1 e.2)
                        (map_to_list (posTags (store w) userId)) in
        (Resolved tags,
         withPosTagCache (<[userId := tags]> (posTagCache w))
           (withEvent (GetDocs (PosTagsCol userId)) w))
    end.
Proof.
  unfold getPartOfSpeechTags. unfold_sdk.
  by destruct (posTagCache w !! userId).
Qed.

(** What [deletePartOfSpeechTag] achieves in general.  It always resolves.
    Afterwards no stored word of any of the user's wordbooks names the
    tag, neither as stored nor as read back, and the tag document is gone.
    The tag list served next has an entry with that [id] only in one
    situation: the tag cache was cold and the data of another tag document
    carries the field [id] with this value. *)
Lemma deletePartOfSpeechTag_cleans (w : World) (userId tagId : string) :
  exists w',
    deletePartOfSpeechTag userId tagId w = (Resolved tt, w')
    /\ (forall wb k d,
          is_Some (wordbooks (store w') userId !! wb) ->
          words (store w') userId wb !! k = Some d ->
          (tagId ∉ Word.partOfSpeech d)
          /\ (tagId ∉ Word.partOfSpeech (Word.ofDoc k d)))
    /\ posTags (store w') userId !! tagId = None
    /\ exists tags,
         (getPartOfSpeechTags userId w').1 = Resolved tags
         /\ forall x, x ∈ tags -> PartOfSpeechTag.id x = tagId ->
              posTagCache w !! userId = None
              /\ exists k d, k <> tagId
                   /\ posTags (store w) userId !! k = Some d
                   /\ PartOfSpeechTag.id d = Some tagId.
Proof.
  destruct (deletePartOfSpeechTag_run w userId tagId)
    as (w' & E & Hb & Hcl & Ht & Hc).
  exists w'. split; [exact E|]. split.
  { intros wb k d Hwb Hd. rewrite Hb in Hwb.
    split; apply (Hcl wb Hwb k d Hd). }
  split; [rewrite Ht; apply lookup_delete_eq|].
  rewrite getPartOfSpeechTags_run, Hc.
  destruct (posTagCache w !! userId) as [tags|]; simpl.
  - eexists. split; [done|]. intros x [Hx _]%list_elem_of_filter Hid. done.
  - eexists. split; [done|]. intros x Hx Hid. split; [done|].
    apply list_elem_of_fmap in Hx as ([k d] & -> & Hin).
    apply elem_of_map_to_list in Hin. rewrite Ht in Hin.
    apply lookup_delete_Some in Hin as [Hne Hin].
    exists k, d. split; [done|]. split; [done|].
    unfold PartOfSpeechTag.ofDoc in Hid. simpl in Hid.
    destruct (PartOfSpeechTag.id d) as [i|]; simpl in Hid; [by subst|done].
Qed.

(** C2, on [shadowedTagWorld]: [deletePartOfSpeechTag] of the tag [k0]
    resolves and removes the document [k0], and the following
    [getPartOfSpeechTags] resolves with a list whose one entry has
    [id = k0]: it is read from the document [k1], whose data field [id]
    takes precedence over the document id in
    [{ id: docSnap.id, ...docSnap.data() }]. *)
Theorem deletePartOfSpeechTag_shadowed_id_listed :
  let after := deletePartOfSpeechTag "u" "k0" shadowedTagWorld in
  after.1 = Resolved tt
  /\ posTags (store after.2) "u" !! "k0" = None
  /\ (getPartOfSpeechTags "u" after.2).1 =
       Resolved [PartOfSpeechTag.mk "k0" "verb" "red" "u"].
Proof.
  split; [vm_compute; reflexivity|].
  split; vm_compute; reflexivity.
Qed.

(** * Further properties of the layer *)

(** ** Creating a word *)

Lemma pushIfCached_frame key ws w :
  store (pushIfCached key ws w) = store w
  /\ trace (pushIfCached key ws w) = trace w
  /\ posTagCache (pushIfCached key ws w) = posTagCache w
  /\ wordCache (pushIfCached key ws w) !! key =
       (fun cached => cached ++ ws) <$> wordCache w !! key
  /\ forall k, k <> key ->
       wordCache (pushIfCached key ws w) !! k = wordCache w !! k.
Proof.
  unfold pushIfCached.
  destruct (wordCache w !! key) as [cached|] eqn:Hc; simpl.
  - repeat split; [by rewrite lookup_insert_eq|].
    intros k Hk. by rewrite lookup_insert_ne.
  - by rewrite Hc.
Qed.

Lemma createWord_run (w : World) (userId wordbookId : string)
    (wordData : NewWord.t) :
  let docId := autoId w (idsDrawn w) in
  let stored := clock w (clockReads w) in
  let returned := clock w (S (clockReads w)) in
  let newWord :=
    Word.mk docId wordData wordbookId returned (Some None) (Some 0%Z) in
  words (store w) userId wordbookId !! docId = None ->
  createWord userId wordbookId wordData w =
    (Resolved newWord,
     pushIfCached (makeCacheKey userId wordbookId) [newWord]
       (mkWorld
          (setWords userId wordbookId
             (<[docId := Word.mk None wordData wordbookId stored
                           (Some None) (Some 0%Z)]>
                (words (store w) userId wordbookId)) (store w))
          (wordCache w) (posTagCache w) (clock w) (S (S (clockReads w)))
          (autoId w) (S (idsDrawn w))
          (((trace w ++ [ClockRead stored])
              ++ [AddDoc (WordDoc userId wordbookId docId)])
             ++ [ClockRead returned]))).
Proof.
  intros docId stored returned newWord Hfree.
  unfold createWord. unfold_sdk. simpl. fold docId. rewrite Hfree.
  reflexivity.
Qed.

(** X1: when the generated identifier is free, [createWord] stores the
    given fields with [wordbookId], [reviewDate = null], [studyCount = 0],
    no [id] field and the first clock reading as [createdAt]; it resolves
    with the word under the new id whose [createdAt] is a second reading,
    appends that word to the cache entry of the key when there is one and
    leaves a cold entry cold; nothing else in the store or the caches
    changes. *)
Theorem createWord_effect (w : World) (userId wordbookId : string)
    (wordData : NewWord.t) :
  let docId := autoId w (idsDrawn w) in
  let stored := clock w (clockReads w) in
  let returned := clock w (S (clockReads w)) in
  let key := makeCacheKey userId wordbookId in
  let newWord :=
    Word.mk docId wordData wordbookId returned (Some None) (Some 0%Z) in
  let r := createWord userId wordbookId wordData w in
  words (store w) userId wordbookId !! docId = None ->
  r.1 = Resolved newWord
  /\ words (store r.2) userId wordbookId =
       <[docId := Word.mk None wordData wordbookId stored
                    (Some None) (Some 0%Z)]>
         (words (store w) userId wordbookId)
  /\ onlyWordsOf userId wordbookId (store w) (store r.2)
  /\ wordCache r.2 !! key =
       (fun cached => cached ++ [newWord]) <$> wordCache w !! key
  /\ (forall k, k <> key -> wordCache r.2 !! k = wordCache w !! k)
  /\ posTagCache r.2 = posTagCache w
  /\ trace r.2 =
       trace w ++ [ClockRead stored;
                   AddDoc (WordDoc userId wordbookId docId);
                   ClockRead returned].
Proof.
  cbv zeta. intros Hfree.
  rewrite createWord_run by exact Hfree. cbn [fst snd].
  match goal with |- context [pushIfCached ?k ?l ?w0] =>
    destruct (pushIfCached_frame k l w0) as (E1 & E2 & E3 & E4 & E5) end.
  rewrite E1, E2, E3, E4.
  cbn [store trace wordCache posTagCache].
  split; [done|]. split; [apply setWords_lookup|].
  split; [apply onlyWordsOf_setWords|]. split; [done|].
  split; [exact E5|]. split; [done|]. by rewrite <- !app_assoc.
Qed.

Lemma createWord_effect_witness :
  words (store cachedBookWorld) "u" "k0" !! "k2" = None
  /\ (createWord "u" "k0" (sampleWord "tree" []) cachedBookWorld).1 =
       Resolved (Word.mk "k2" (sampleWord "tree" []) "k0" 1005%Z
                         (Some None) (Some 0%Z))
  /\ words (store (createWord "u" "k0" (sampleWord "tree" [])
                     cachedBookWorld).2) "u" "k0" !! "k2" =
       Some (Word.mk None (sampleWord "tree" []) "k0" 1004%Z
                     (Some None) (Some 0%Z)).
Proof.
  assert (H : words (store cachedBookWorld) "u" "k0" !! "k2" = None)
    by (vm_compute; reflexivity).
  split; [exact H|].
  destruct (createWord_effect cachedBookWorld "u" "k0" (sampleWord "tree" []) H)
    as (H1 & H2 & _).
  split; [rewrite H1; vm_compute; reflexivity|].
  rewrite H2. vm_compute. reflexivity.
Defined.

Lemma elem_of_wordsRead (m : gmap string Word.Doc) (x : Word.t) :
  x ∈ wordsRead m <-> exists i d, m !! i = Some d /\ x = Word.ofDoc i d.
Proof.
  unfold wordsRead. split.
  - intros Hx. apply list_elem_of_fmap in Hx as ([i d] & -> & Hin).
    apply elem_of_map_to_list in Hin. by exists i, d.
  - intros (i & d & Hd & ->). apply list_elem_of_fmap. exists (i, d).
    split; [done|]. by apply elem_of_map_to_list.
Qed.

(** X2: when [createWord] has stored a word, the next
    [getWordsByWordbookId] lists a word with the new id and the given
    fields.  Its [createdAt] is the second clock reading when the cache
    entry was populated before the call, and the stored first reading when
    it was cold, so the listed word and the word [createWord] returned
    agree in every other field but not always in [createdAt]. *)
Theorem createWord_then_listed (w : World) (userId wordbookId : string)
    (wordData : NewWord.t) :
  let docId := autoId w (idsDrawn w) in
  let r := createWord userId wordbookId wordData w in
  words (store w) userId wordbookId !! docId = None ->
  exists listed x,
    (getWordsByWordbookId userId wordbookId r.2).1 = Resolved listed
    /\ x ∈ listed
    /\ x = Word.mk docId wordData wordbookId
             (match wordCache w !! makeCacheKey userId wordbookId with
              | Some _ => clock w (S (clockReads w))
              | None => clock w (clockReads w)
              end)
             (Some None) (Some 0%Z).
Proof.
  cbv zeta. intros Hfree.
  rewrite createWord_run by exact Hfree. cbn [snd].
  match goal with |- context [pushIfCached ?k ?l ?w0] =>
    destruct (pushIfCached_frame k l w0) as (Hst0 & _ & _ & Hc & _);
    set (after := pushIfCached k l w0) in * end.
  assert (Hst : words (store after) userId wordbookId =
                <[autoId w (idsDrawn w) :=
                    Word.mk None wordData wordbookId (clock w (clockReads w))
                            (Some None) (Some 0%Z)]>
                  (words (store w) userId wordbookId)).
  { rewrite Hst0. apply setWords_lookup. }
  cbn [wordCache] in Hc.
  destruct (wordCache w !! makeCacheKey userId wordbookId) as [ws|] eqn:Hw;
    simpl in Hc.
  - eexists _, _. rewrite (getWordsByWordbookId_hit _ _ _ _ Hc).
    split; [done|]. split; [|done]. apply elem_of_app. right. constructor.
  - rewrite (getWordsByWordbookId_miss _ _ _ Hc). cbn [fst].
    eexists _, _. split; [done|]. split; [|reflexivity].
    apply (elem_of_wordsRead _ _). rewrite Hst.
    eexists _, _. split; [apply lookup_insert_eq|reflexivity].
Qed.

Lemma createWord_then_listed_witness :
  words (store freshWorld) "u" "b" !! "k0" = None
  /\ exists listed,
       (getWordsByWordbookId "u" "b"
          (createWord "u" "b" (sampleWord "run" []) freshWorld).2).1 =
         Resolved listed
       /\ Word.mk "k0" (sampleWord "run" []) "b" 1000%Z (Some None)
            (Some 0%Z) ∈ listed
       /\ (createWord "u" "b" (sampleWord "run" []) freshWorld).1 =
            Resolved (Word.mk "k0" (sampleWord "run" []) "b" 1001%Z
                              (Some None) (Some 0%Z)).
Proof.
  assert (H : words (store freshWorld) "u" "b" !! "k0" = None) by reflexivity.
  split; [exact H|].
  destruct (createWord_then_listed freshWorld "u" "b" (sampleWord "run" []) H)
    as (listed & x & E & Hin & ->).
  exists listed. split; [exact E|]. split; [exact Hin|].
  vm_compute. reflexivity.
Defined.

(** ** Updates of documents that do not exist *)

(** X3: [updateWord], [updateWordbookName], [trashWordbook] and
    [updatePartOfSpeechTag] reject with [NotFound] when the addressed
    document does not exist, and then leave the store and both caches as
    they were; the only traces are the refused round trip and, for
    [trashWordbook], the clock reading taken before it. *)
Theorem update_of_missing_document_rejects (w : World) (userId : string) :
  (forall wordbookId wordId updateData,
     words (store w) userId wordbookId !! wordId = None ->
     updateWord userId wordbookId wordId updateData w =
       (Rejected NotFound,
        withEvent (UpdateDoc (WordDoc userId wordbookId wordId)) w))
  /\ (forall wordbookId newName,
        wordbooks (store w) userId !! wordbookId = None ->
        updateWordbookName userId wordbookId newName w =
          (Rejected NotFound,
           withEvent (UpdateDoc (WordbookDoc userId wordbookId)) w))
  /\ (forall wordbookId,
        wordbooks (store w) userId !! wordbookId = None ->
        let r := trashWordbook userId wordbookId w in
        r.1 = Rejected NotFound
        /\ store r.2 = store w
        /\ wordCache r.2 = wordCache w
        /\ posTagCache r.2 = posTagCache w
        /\ trace r.2 =
             trace w ++ [ClockRead (clock w (clockReads w));
                         UpdateDoc (WordbookDoc userId wordbookId)])
  /\ (forall tagId data,
        posTags (store w) userId !! tagId = None ->
        updatePartOfSpeechTag userId tagId data w =
          (Rejected NotFound,
           withEvent (UpdateDoc (PosTagDoc userId tagId)) w)).
Proof.
  split; [|split; [|split]].
  - intros wb i p H. unfold updateWord. unfold_sdk. simpl. by rewrite H.
  - intros wb n H. unfold updateWordbookName. unfold_sdk. simpl.
    by rewrite H.
  - intros wb H. unfold trashWordbook. unfold_sdk. simpl. rewrite H. simpl.
    repeat split. by rewrite <- app_assoc.
  - intros i p H. unfold updatePartOfSpeechTag. unfold_sdk. simpl.
    by rewrite H.
Qed.

Lemma update_of_missing_document_rejects_witness :
  words (store cachedBookWorld) "u" "k0" !! "k9" = None
  /\ updateWord "u" "k0" "k9" PartialWord.resetProgress cachedBookWorld =
       (Rejected NotFound,
        withEvent (UpdateDoc (WordDoc "u" "k0" "k9")) cachedBookWorld).
Proof.
  assert (H : words (store cachedBookWorld) "u" "k0" !! "k9" = None)
    by (vm_compute; reflexivity).
  split; [exact H|].
  destruct (update_of_missing_document_rejects cachedBookWorld "u")
    as (Hu & _).
  exact (Hu "k0" "k9" PartialWord.resetProgress H).
Defined.

(** X4: when one of the listed ids has no word document,
    [resetWordsProgress] rejects with [NotFound] and resets nothing: the
    store and the caches are as before, also for the listed ids that do
    have a document. *)
Theorem resetWordsProgress_all_or_nothing (w : World)
    (userId wordbookId : string) (ids : list string) (missing : string) :
  missing ∈ ids ->
  words (store w) userId wordbookId !! missing = None ->
  resetWordsProgress userId wordbookId ids w =
    (Rejected NotFound,
     withEvent
       (BatchCommit
          (map (fun i => BatchUpdate userId wordbookId i
                           PartialWord.resetProgress) ids)) w).
Proof.
  intros Hin Hn. rewrite resetWordsProgress_run. cbv zeta.
  by rewrite (applyBatch_updates_None _ _ _ _ _ _ Hin Hn).
Qed.

Lemma resetWordsProgress_all_or_nothing_witness :
  let r := resetWordsProgress "u" "k0" ["k1"; "k9"] twoWordsWorld in
  r.1 = Rejected NotFound
  /\ words (store r.2) "u" "k0" !! "k1" =
       words (store twoWordsWorld) "u" "k0" !! "k1"
  /\ wordCache r.2 = wordCache twoWordsWorld.
Proof.
  assert (Hin : "k9" ∈ ["k1"; "k9"]) by (right; left).
  assert (Hn : words (store twoWordsWorld) "u" "k0" !! "k9" = None)
    by (vm_compute; reflexivity).
  cbv zeta.
  rewrite (resetWordsProgress_all_or_nothing twoWordsWorld "u" "k0"
             ["k1"; "k9"] "k9" Hin Hn).
  repeat split.
Defined.

(** ** The word cache in step with the store *)

Lemma wordsRead_ids (m : gmap string Word.Doc) :
  plainWordIds m -> map Word.id (wordsRead m) = (map_to_list m).*1.
Proof.
  intros Hp. unfold wordsRead. rewrite map_map.
  apply list_fmap_ext. intros j [i d] Hj. simpl.
  apply Hp. apply elem_of_map_to_list. by eapply list_elem_of_lookup_2.
Qed.

Lemma NoDup_wordsRead_ids (m : gmap string Word.Doc) :
  plainWordIds m -> NoDup (map Word.id (wordsRead m)).
Proof.
  intros Hp. rewrite (wordsRead_ids m Hp). apply NoDup_fst_map_to_list.
Qed.

Lemma NoDup_of_ids (l : list Word.t) : NoDup (map Word.id l) -> NoDup l.
Proof. apply (NoDup_fmap_1 Word.id). Qed.

(** A list without repeated ids that has the stored words as its members
    is the stored collection up to order. *)
Lemma agrees_by_membership (l : list Word.t) (m : gmap string Word.Doc) :
  plainWordIds m ->
  NoDup (map Word.id l) ->
  (forall x, x ∈ l <-> exists i d, m !! i = Some d /\ x = Word.ofDoc i d) ->
  l ≡ₚ wordsRead m.
Proof.
  intros Hp Hnd Hmem. apply NoDup_Permutation.
  - by apply NoDup_of_ids.
  - by apply NoDup_of_ids, NoDup_wordsRead_ids.
  - intros x. by rewrite Hmem, elem_of_wordsRead.
Qed.

Lemma agreeing_list_ids (l : list Word.t) (m : gmap string Word.Doc) :
  plainWordIds m -> l ≡ₚ wordsRead m -> NoDup (map Word.id l).
Proof.
  intros Hp Hl. rewrite Hl. by apply NoDup_wordsRead_ids.
Qed.

Lemma NoDup_ids_filter (P : Word.t -> Prop) `{!forall x, Decision (P x)}
    (l : list Word.t) :
  NoDup (map Word.id l) -> NoDup (map Word.id (filter P l)).
Proof.
  induction l as [|a l IH]; [done|]. cbn [map]. intros [Ha Hl]%NoDup_cons.
  rewrite filter_cons. case_decide; [|by apply IH]. cbn [map].
  apply NoDup_cons. split; [|by apply IH].
  intros Hin. apply Ha.
  apply list_elem_of_fmap in Hin as (x & -> & [_ Hx]%list_elem_of_filter).
  by apply list_elem_of_fmap_2.
Qed.

Lemma deleteWord_run (w : World) (userId wordbookId wordId : string) :
  deleteWord userId wordbookId wordId w =
    (Resolved tt,
     rewriteIfCached (makeCacheKey userId wordbookId)
       (filter (fun x => Word.id x ≠ wordId))
       (withStore
          (setWords userId wordbookId
             (delete wordId (words (store w) userId wordbookId)) (store w))
          (withEvent (DeleteDoc (WordDoc userId wordbookId wordId)) w))).
Proof. reflexivity. Qed.

(** X5: [deleteWord] never rejects, also when the document does not
    exist.  Afterwards the collection has no document under the id and is
    otherwise as before, no other collection has changed, and the cache
    entry of the key, when there is one, is the former entry without the
    words of that id. *)
Theorem deleteWord_effect (w : World) (userId wordbookId wordId : string) :
  let r := deleteWord userId wordbookId wordId w in
  let key := makeCacheKey userId wordbookId in
  r.1 = Resolved tt
  /\ words (store r.2) userId wordbookId =
       delete wordId (words (store w) userId wordbookId)
  /\ onlyWordsOf userId wordbookId (store w) (store r.2)
  /\ wordCache r.2 !! key =
       filter (fun x => Word.id x ≠ wordId) <$> wordCache w !! key
  /\ (forall k, k <> key -> wordCache r.2 !! k = wordCache w !! k)
  /\ (forall ws x, wordCache r.2 !! key = Some ws -> x ∈ ws ->
        Word.id x <> wordId).
Proof.
  cbv zeta. rewrite deleteWord_run. cbn [fst snd].
  match goal with |- context [rewriteIfCached ?k ?f ?w0] =>
    destruct (rewriteIfCached_frame k f w0) as (E1 & E2 & E3 & E4) end.
  rewrite E1, E3. cbn [store wordCache withStore withEvent].
  split; [done|]. split; [apply setWords_lookup|].
  split; [apply onlyWordsOf_setWords|]. split; [done|].
  split; [exact E4|].
  intros ws x Hws Hx.
  destruct (wordCache w !! makeCacheKey userId wordbookId) as [old|];
    [|done].
  injection Hws as <-. by apply list_elem_of_filter in Hx as [? _].
Qed.

Lemma plainWordIds_delete i (m : gmap string Word.Doc) :
  plainWordIds m -> plainWordIds (delete i m).
Proof.
  intros Hp k d [_ Hk]%lookup_delete_Some. by apply Hp.
Qed.

(** X6: [deleteWord] keeps the cache in step with the store: when no
    stored word of the wordbook carries a foreign [id] field and the cache
    entry of the key lists the stored words, both still hold after the
    call. *)
Theorem deleteWord_keeps_cache_in_step (w : World)
    (userId wordbookId wordId : string) :
  plainWordIds (words (store w) userId wordbookId) ->
  wordCacheAgrees userId wordbookId w ->
  let w' := (deleteWord userId wordbookId wordId w).2 in
  plainWordIds (words (store w') userId wordbookId)
  /\ wordCacheAgrees userId wordbookId w'.
Proof.
  intros Hp Ha. cbv zeta. rewrite deleteWord_run. cbn [snd].
  match goal with |- context [rewriteIfCached ?k ?f ?w0] =>
    destruct (rewriteIfCached_frame k f w0) as (E1 & _ & E3 & _) end.
  unfold wordCacheAgrees. rewrite E1, E3.
  cbn [store wordCache withStore withEvent]. rewrite setWords_lookup.
  split; [by apply plainWordIds_delete|].
  intros ws Hws.
  destruct (wordCache w !! makeCacheKey userId wordbookId) as [old|] eqn:Ho;
    [|done].
  injection Hws as <-. specialize (Ha old Ho).
  apply agrees_by_membership.
  - by apply plainWordIds_delete.
  - apply NoDup_ids_filter, (agreeing_list_ids old _ Hp Ha).
  - intros x. rewrite list_elem_of_filter, Ha, elem_of_wordsRead. split.
    + intros (Hne & i & d & Hd & ->). exists i, d. split; [|done].
      apply lookup_delete_Some. split; [|done].
      intros <-. apply Hne. by apply Hp.
    + intros (i & d & [Hne Hd]%lookup_delete_Some & ->).
      split; [|by exists i, d]. by rewrite (Hp i d Hd).
Qed.

(** On concrete worlds both conditions are settled by running them. *)
Ltac plain_by_compute :=
  match goal with
  | |- plainWordIds ?m =>
      change (map_Forall (fun i d => Word.id (Word.ofDoc i d) = i) m)
  | |- plainTagIds ?m =>
      change (map_Forall
                (fun i d => PartOfSpeechTag.id (PartOfSpeechTag.ofDoc i d) = i)
                m)
  end;
  apply (bool_decide_unpack _); vm_compute; exact I.

Ltac agrees_by_compute :=
  let l := fresh "l" in
  let H := fresh "H" in
  intros l H; vm_compute in H;
  first [ discriminate H
        | injection H as <-; vm_compute; reflexivity ].

Lemma deleteWord_keeps_cache_in_step_witness :
  plainWordIds (words (store twoWordsWorld) "u" "k0")
  /\ wordCacheAgrees "u" "k0" twoWordsWorld
  /\ wordCacheAgrees "u" "k0" (deleteWord "u" "k0" "k1" twoWordsWorld).2.
Proof.
  assert (Hp : plainWordIds (words (store twoWordsWorld) "u" "k0"))
    by plain_by_compute.
  assert (Ha : wordCacheAgrees "u" "k0" twoWordsWorld) by agrees_by_compute.
  split; [exact Hp|]. split; [exact Ha|].
  apply (deleteWord_keeps_cache_in_step twoWordsWorld "u" "k0" "k1" Hp Ha).
Defined.

(** A batch of [delete]s always goes through. *)
Lemma applyBatch_deletes u wb (ids : list string) (s : Store) :
  exists s',
    applyBatch (map (fun i => BatchDelete u wb i) ids) s = Some s'
    /\ onlyWordsOf u wb s s'
    /\ forall k,
         words s' u wb !! k =
           if decide (k ∈ ids) then None else words s u wb !! k.
Proof.
  revert s. induction ids as [|i ids IH]; intros s.
  - exists s. split; [done|]. split; [apply onlyWordsOf_refl|].
    intros k. rewrite decide_False; [done|]. apply not_elem_of_nil.
  - cbn [map applyBatch applyBatchOp].
    set (s1 := setWords u wb _ s).
    destruct (IH s1) as (s' & E & Hfr & Hl).
    exists s'. split; [exact E|]. split.
    { eapply onlyWordsOf_trans; [|exact Hfr]. apply onlyWordsOf_setWords. }
    intros k. rewrite Hl. subst s1. rewrite setWords_lookup.
    destruct (decide (k ∈ ids)) as [Hin|Hnin].
    + rewrite decide_True; [done|]. by apply list_elem_of_further.
    + destruct (decide (k = i)) as [->|Hne].
      * rewrite decide_True by apply list_elem_of_here.
        apply lookup_delete_eq.
      * rewrite decide_False; [by apply lookup_delete_ne|].
        intros [?|?]%elem_of_cons; done.
Qed.

Lemma bulkDeleteWords_run (w : World) (userId wordbookId : string)
    (ids : list string) :
  exists s',
    bulkDeleteWords userId wordbookId ids w =
      (Resolved tt,
       rewriteIfCached (makeCacheKey userId wordbookId)
         (filter (fun x => Word.id x ∉ ids))
         (withStore s'
            (withEvent
               (BatchCommit
                  (map (fun i => BatchDelete userId wordbookId i) ids)) w)))
    /\ onlyWordsOf userId wordbookId (store w) s'
    /\ forall k,
         words s' userId wordbookId !! k =
           if decide (k ∈ ids) then None
           else words (store w) userId wordbookId !! k.
Proof.
  destruct (applyBatch_deletes userId wordbookId ids (store w))
    as (s' & E & Hfr & Hl).
  exists s'. split; [|by split].
  unfold bulkDeleteWords, commit. unfold_promise. simpl. by rewrite E.
Qed.

(** X7: [bulkDeleteWords] never rejects, whether or not the listed
    documents exist.  It writes the store by one batched commit;
    afterwards no listed id has a document, every other document of the
    collection is as before, no other collection has changed, and the
    cache entry of the key, when there is one, is the former entry without
    the words whose id is listed. *)
Theorem bulkDeleteWords_effect (w : World) (userId wordbookId : string)
    (ids : list string) :
  let r := bulkDeleteWords userId wordbookId ids w in
  let key := makeCacheKey userId wordbookId in
  r.1 = Resolved tt
  /\ (forall k,
        words (store r.2) userId wordbookId !! k =
          if decide (k ∈ ids) then None
          else words (store w) userId wordbookId !! k)
  /\ onlyWordsOf userId wordbookId (store w) (store r.2)
  /\ wordCache r.2 !! key =
       filter (fun x => Word.id x ∉ ids) <$> wordCache w !! key
  /\ (forall k, k <> key -> wordCache r.2 !! k = wordCache w !! k)
  /\ trace r.2 =
       trace w ++
         [BatchCommit (map (fun i => BatchDelete userId wordbookId i) ids)].
Proof.
  cbv zeta.
  destruct (bulkDeleteWords_run w userId wordbookId ids)
    as (s' & Hrun & Hfr & Hl).
  rewrite Hrun. cbn [fst snd].
  match goal with |- context [rewriteIfCached ?k ?f ?w0] =>
    destruct (rewriteIfCached_frame k f w0) as (E1 & E2 & E3 & E4) end.
  rewrite E1, E2, E3. cbn [store trace wordCache withStore withEvent].
  split; [done|]. split; [exact Hl|]. split; [exact Hfr|].
  split; [done|]. split; [exact E4|done].
Qed.

(** X8: [bulkDeleteWords] keeps the cache in step with the store: when no
    stored word of the wordbook carries a foreign [id] field and the cache
    entry of the key lists the stored words, both still hold after the
    call. *)
Theorem bulkDeleteWords_keeps_cache_in_step (w : World)
    (userId wordbookId : string) (ids : list string) :
  plainWordIds (words (store w) userId wordbookId) ->
  wordCacheAgrees userId wordbookId w ->
  let w' := (bulkDeleteWords userId wordbookId ids w).2 in
  plainWordIds (words (store w') userId wordbookId)
  /\ wordCacheAgrees userId wordbookId w'.
Proof.
  intros Hp Ha. cbv zeta.
  destruct (bulkDeleteWords_run w userId wordbookId ids)
    as (s' & Hrun & _ & Hst).
  rewrite Hrun. cbn [snd].
  match goal with |- context [rewriteIfCached ?k ?f ?w0] =>
    destruct (rewriteIfCached_frame k f w0) as (E1 & _ & Hc & _) end.
  unfold wordCacheAgrees. rewrite E1, Hc.
  cbn [store wordCache withStore withEvent].
  assert (Hp' : plainWordIds (words s' userId wordbookId)).
  { intros k d Hk. rewrite Hst in Hk. case_decide; [done|]. by apply Hp. }
  split; [exact Hp'|]. intros ws Hws.
  destruct (wordCache w !! makeCacheKey userId wordbookId) as [old|] eqn:Ho;
    [|done].
  injection Hws as <-. specialize (Ha old Ho).
  apply agrees_by_membership; [exact Hp'| |].
  - apply NoDup_ids_filter, (agreeing_list_ids old _ Hp Ha).
  - intros x. rewrite list_elem_of_filter, Ha, elem_of_wordsRead. split.
    + intros (Hne & i & d & Hd & ->). exists i, d. split; [|done].
      rewrite Hst. rewrite (Hp i d Hd) in Hne. by rewrite decide_False.
    + intros (i & d & Hd & ->). rewrite Hst in Hd.
      case_decide as Hi; [done|].
      split; [by rewrite (Hp i d Hd)|by exists i, d].
Qed.

Lemma bulkDeleteWords_keeps_cache_in_step_witness :
  plainWordIds (words (store twoWordsWorld) "u" "k0")
  /\ wordCacheAgrees "u" "k0" twoWordsWorld
  /\ wordCacheAgrees "u" "k0"
       (bulkDeleteWords "u" "k0" ["k2"; "k9"] twoWordsWorld).2.
Proof.
  assert (Hp : plainWordIds (words (store twoWordsWorld) "u" "k0"))
    by plain_by_compute.
  assert (Ha : wordCacheAgrees "u" "k0" twoWordsWorld) by agrees_by_compute.
  split; [exact Hp|]. split; [exact Ha|].
  apply (bulkDeleteWords_keeps_cache_in_step twoWordsWorld "u" "k0"
           ["k2"; "k9"] Hp Ha).
Defined.

(** Merging a patch commutes with reading a document back. *)
Lemma ofDoc_mergeDoc (p : PartialWord.t) (i : string) (d : Word.Doc) :
  Word.ofDoc i (PartialWord.mergeDoc p d) =
  PartialWord.mergeWord p (Word.ofDoc i d).
Proof.
  unfold Word.ofDoc, PartialWord.mergeDoc, PartialWord.mergeWord,
    PartialWord.mergeRest. simpl.
  by destruct (PartialWord.id p), (Word.id d).
Qed.

Lemma mergeWord_id (p : PartialWord.t) (x : Word.t) :
  PartialWord.id p = None -> Word.id (PartialWord.mergeWord p x) = Word.id x.
Proof. intros H. unfold PartialWord.mergeWord. simpl. by rewrite H. Qed.

(** The shape shared by [updateWord] and [resetWordsProgress]: the store
    merges a patch into the documents selected by id, the cache merges it
    into the cached words selected by id. *)
Lemma merge_keeps_in_step (sel : string -> Prop) `{!forall k, Decision (sel k)}
    (p : PartialWord.t) (old : list Word.t) (m m' : gmap string Word.Doc) :
  PartialWord.id p = None ->
  plainWordIds m ->
  old ≡ₚ wordsRead m ->
  (forall k, m' !! k =
     if decide (sel k) then PartialWord.mergeDoc p <$> m !! k else m !! k) ->
  plainWordIds m'
  /\ map (fun x => if decide (sel (Word.id x))
                   then PartialWord.mergeWord p x else x) old
     ≡ₚ wordsRead m'.
Proof.
  intros Hid Hp Ha Hm'.
  assert (Hp' : plainWordIds m').
  { intros k d' Hk. rewrite Hm' in Hk. case_decide; [|by apply Hp].
    destruct (m !! k) as [d0|] eqn:Hd0; [|done]. injection Hk as <-.
    rewrite ofDoc_mergeDoc, mergeWord_id by done. by apply Hp. }
  split; [exact Hp'|].
  apply agrees_by_membership; [exact Hp'| |].
  - rewrite map_map.
    erewrite map_ext; [apply (agreeing_list_ids old m Hp Ha)|].
    intros x. simpl. case_decide; [by apply mergeWord_id|done].
  - intros x. split.
    + intros Hx. apply list_elem_of_fmap in Hx as (y & -> & Hy).
      rewrite Ha in Hy. apply elem_of_wordsRead in Hy as (k & d & Hd & ->).
      rewrite (Hp k d Hd). exists k.
      case_decide as Hs.
      * exists (PartialWord.mergeDoc p d). rewrite Hm', decide_True by done.
        rewrite Hd. split; [done|]. by rewrite ofDoc_mergeDoc.
      * exists d. rewrite Hm', decide_False by done. done.
    + intros (k & d' & Hk & ->). rewrite Hm' in Hk.
      apply list_elem_of_fmap. case_decide as Hs.
      * destruct (m !! k) as [d0|] eqn:Hd0; [|done]. injection Hk as <-.
        exists (Word.ofDoc k d0). rewrite (Hp k d0 Hd0).
        rewrite decide_True by done. split; [by rewrite ofDoc_mergeDoc|].
        rewrite Ha. apply elem_of_wordsRead. by exists k, d0.
      * exists (Word.ofDoc k d'). rewrite (Hp k d' Hk).
        rewrite decide_False by done. split; [done|].
        rewrite Ha. apply elem_of_wordsRead. by exists k, d'.
Qed.

Lemma updateWord_run (w : World) (userId wordbookId wordId : string)
    (updateData : PartialWord.t) (d : Word.Doc) :
  words (store w) userId wordbookId !! wordId = Some d ->
  updateWord userId wordbookId wordId updateData w =
    (Resolved tt,
     rewriteIfCached (makeCacheKey userId wordbookId)
       (map (fun x => if decide (Word.id x = wordId)
                      then PartialWord.mergeWord updateData x else x))
       (withStore
          (setWords userId wordbookId
             (<[wordId := PartialWord.mergeDoc updateData d]>
                (words (store w) userId wordbookId)) (store w))
          (withEvent (UpdateDoc (WordDoc userId wordbookId wordId)) w))).
Proof.
  intros H. unfold updateWord. unfold_sdk. simpl. by rewrite H.
Qed.

(** X9: [updateWord] keeps the cache in step with the store.  When the
    update data carries no [id], no stored word of the wordbook carries a
    foreign [id] field and the cache entry of the key lists the stored
    words, then both still hold after the call, whether it resolved or was
    rejected; when it resolved, the document holds the former fields
    overwritten by the given ones. *)
Theorem updateWord_keeps_cache_in_step (w : World)
    (userId wordbookId wordId : string) (updateData : PartialWord.t) :
  PartialWord.id updateData = None ->
  plainWordIds (words (store w) userId wordbookId) ->
  wordCacheAgrees userId wordbookId w ->
  let r := updateWord userId wordbookId wordId updateData w in
  plainWordIds (words (store r.2) userId wordbookId)
  /\ wordCacheAgrees userId wordbookId r.2
  /\ (forall d, words (store w) userId wordbookId !! wordId = Some d ->
        r.1 = Resolved tt
        /\ words (store r.2) userId wordbookId !! wordId =
             Some (PartialWord.mergeDoc updateData d)).
Proof.
  intros Hid Hp Ha. cbv zeta.
  destruct (words (store w) userId wordbookId !! wordId) as [d|] eqn:Hd.
  - rewrite (updateWord_run _ _ _ _ _ _ Hd). cbn [fst snd].
    match goal with |- context [rewriteIfCached ?k ?f ?w0] =>
      destruct (rewriteIfCached_frame k f w0) as (E1 & E2 & E3 & E4) end.
    unfold wordCacheAgrees. rewrite E1, E3.
    cbn [store wordCache withStore withEvent]. rewrite setWords_lookup.
    assert (Hm' : forall k,
      <[wordId := PartialWord.mergeDoc updateData d]>
        (words (store w) userId wordbookId) !! k =
      if decide (k = wordId)
      then PartialWord.mergeDoc updateData
             <$> words (store w) userId wordbookId !! k
      else words (store w) userId wordbookId !! k).
    { intros k. case_decide as Hk.
      - subst k. by rewrite lookup_insert_eq, Hd.
      - by rewrite lookup_insert_ne. }
    split; [|split].
    + destruct (wordCache w !! makeCacheKey userId wordbookId) as [old|] eqn:Ho.
      * apply (merge_keeps_in_step (fun k => k = wordId) updateData old
                 _ _ Hid Hp (Ha old Ho) Hm').
      * intros k d' Hk. rewrite Hm' in Hk. case_decide; [|by apply Hp].
        subst k. rewrite Hd in Hk. injection Hk as <-.
        rewrite ofDoc_mergeDoc, mergeWord_id by done. by apply Hp.
    + intros ws Hws.
      destruct (wordCache w !! makeCacheKey userId wordbookId) as [old|] eqn:Ho;
        [|done].
      injection Hws as <-.
      apply (merge_keeps_in_step (fun k => k = wordId) updateData old
               _ _ Hid Hp (Ha old Ho) Hm').
    + intros d0 [= <-]. split; [done|]. apply lookup_insert_eq.
  - assert (E : updateWord userId wordbookId wordId updateData w =
      (Rejected NotFound,
       withEvent (UpdateDoc (WordDoc userId wordbookId wordId)) w)).
    { unfold updateWord. unfold_sdk. simpl. by rewrite Hd. }
    rewrite E. cbn [fst snd].
    split; [exact Hp|]. split; [exact Ha|]. done.
Qed.

Lemma updateWord_keeps_cache_in_step_witness :
  PartialWord.id (PartialWord.setPartOfSpeech ["adj"]) = None
  /\ plainWordIds (words (store twoWordsWorld) "u" "k0")
  /\ wordCacheAgrees "u" "k0" twoWordsWorld
  /\ wordCacheAgrees "u" "k0"
       (updateWord "u" "k0" "k1" (PartialWord.setPartOfSpeech ["adj"])
          twoWordsWorld).2.
Proof.
  assert (Hp : plainWordIds (words (store twoWordsWorld) "u" "k0"))
    by plain_by_compute.
  assert (Ha : wordCacheAgrees "u" "k0" twoWordsWorld) by agrees_by_compute.
  split; [reflexivity|]. split; [exact Hp|]. split; [exact Ha|].
  apply (updateWord_keeps_cache_in_step twoWordsWorld "u" "k0" "k1"
           (PartialWord.setPartOfSpeech ["adj"]) eq_refl Hp Ha).
Defined.

(** X10: [resetWordsProgress] keeps the cache in step with the store:
    when no stored word of the wordbook carries a foreign [id] field and
    the cache entry of the key lists the stored words, both still hold
    after the call, whether it resolved or was rejected. *)
Theorem resetWordsProgress_keeps_cache_in_step (w : World)
    (userId wordbookId : string) (ids : list string) :
  plainWordIds (words (store w) userId wordbookId) ->
  wordCacheAgrees userId wordbookId w ->
  let w' := (resetWordsProgress userId wordbookId ids w).2 in
  plainWordIds (words (store w') userId wordbookId)
  /\ wordCacheAgrees userId wordbookId w'.
Proof.
  intros Hp Ha. cbv zeta. rewrite resetWordsProgress_run. cbv zeta.
  destruct (applyBatch _ (store w)) as [s'|] eqn:E; cbn [snd].
  2: { by split. }
  assert (Hex : forall i, i ∈ ids ->
             is_Some (words (store w) userId wordbookId !! i)).
  { intros i Hi.
    destruct (words (store w) userId wordbookId !! i) eqn:Hn; [by eexists|].
    rewrite (applyBatch_updates_None _ _ _ _ _ _ Hi Hn) in E. done. }
  destruct (applyBatch_updates_Some userId wordbookId
              PartialWord.resetProgress ids (store w) Hex)
    as (s2 & E2 & _ & Hl).
  rewrite E in E2. injection E2 as <-.
  assert (Hl' := Hl (fun d => ltac:(by rewrite !mergeDoc_resetProgress,
                                       withProgressReset_idem))).
  match goal with |- context [rewriteIfCached ?k ?f ?w0] =>
    destruct (rewriteIfCached_frame k f w0) as (E1 & _ & E3 & _) end.
  unfold wordCacheAgrees. rewrite E1, E3.
  cbn [store wordCache withStore withEvent].
  destruct (wordCache w !! makeCacheKey userId wordbookId) as [old|] eqn:Ho.
  - destruct (merge_keeps_in_step (fun k => k ∈ ids)
                PartialWord.resetProgress old _ _ eq_refl Hp (Ha old Ho) Hl')
      as [Hp' Ha'].
    split; [exact Hp'|]. intros ws [= <-]. exact Ha'.
  - split; [|done]. intros k d' Hk. rewrite Hl' in Hk.
    case_decide; [|by apply Hp].
    destruct (words (store w) userId wordbookId !! k) as [d0|] eqn:Hd0;
      [|done].
    injection Hk as <-.
    rewrite ofDoc_mergeDoc, mergeWord_id by done. by apply Hp.
Qed.

Lemma resetWordsProgress_keeps_cache_in_step_witness :
  plainWordIds (words (store twoWordsWorld) "u" "k0")
  /\ wordCacheAgrees "u" "k0" twoWordsWorld
  /\ wordCacheAgrees "u" "k0"
       (resetWordsProgress "u" "k0" ["k2"] twoWordsWorld).2.
Proof.
  assert (Hp : plainWordIds (words (store twoWordsWorld) "u" "k0"))
    by plain_by_compute.
  assert (Ha : wordCacheAgrees "u" "k0" twoWordsWorld) by agrees_by_compute.
  split; [exact Hp|]. split; [exact Ha|].
  apply (resetWordsProgress_keeps_cache_in_step twoWordsWorld "u" "k0"
           ["k2"] Hp Ha).
Defined.

(** ** Bulk import and the cache *)

(** X11: when the cache entry of the key is cold, [bulkImportWords] starts
    it with the imported words alone, without reading the store.  The list
    served afterwards is exactly the imported words (the empty list for an
    empty import): a word stored before the import, and not overwritten by
    it, is still in the store but missing from the list. *)
Theorem bulkImportWords_cold_cache_lists_only_new (w : World)
    (userId wordbookId : string) (data : list NewWord.t) :
  wordCache w !! makeCacheKey userId wordbookId = None ->
  exists (newWords : list Word.t) (w' : World),
    bulkImportWords userId wordbookId data w = (Resolved newWords, w')
    /\ length newWords = length data
    /\ getWordsByWordbookId userId wordbookId w' = (Resolved newWords, w')
    /\ forall i d,
         words (store w) userId wordbookId !! i = Some d ->
         Word.id (Word.ofDoc i d) = i ->
         i ∉ map Word.id newWords ->
         words (store w') userId wordbookId !! i = Some d
         /\ Word.ofDoc i d ∉ newWords.
Proof.
  intros Hcold.
  destruct (bulkImportWords_run w userId wordbookId data) as (s' & E & Hrun).
  cbv zeta in E, Hrun.
  set (newWords :=
         imap (fun j d =>
                 Word.mk (autoId w (idsDrawn w + j)) d wordbookId
                         (clock w (clockReads w)) (Some None) (Some 0%Z))
              data) in *.
  destruct (applyBatch_sets userId wordbookId newWords (store w))
    as (s2 & E2 & _ & Hout & _).
  rewrite E in E2. injection E2 as <-.
  rewrite Hcold in Hrun. simpl in Hrun.
  eexists newWords, _. split; [exact Hrun|].
  split; [apply length_imap|]. split.
  - apply getWordsByWordbookId_hit. cbn [wordCache]. apply lookup_insert_eq.
  - intros i d Hd Hid Hni. cbn [store]. split; [by rewrite Hout|].
    intros Hin. apply Hni. rewrite <- Hid. by apply list_elem_of_fmap_2.
Qed.

Lemma bulkImportWords_cold_cache_lists_only_new_witness :
  wordCache coldBookWorld !! makeCacheKey "u" "k0" = None
  /\ exists d,
       words (store coldBookWorld) "u" "k0" !! "k1" = Some d
       /\ exists newWords w',
            bulkImportWords "u" "k0" [sampleWord "tree" []] coldBookWorld =
              (Resolved newWords, w')
            /\ getWordsByWordbookId "u" "k0" w' = (Resolved newWords, w')
            /\ words (store w') "u" "k0" !! "k1" = Some d
            /\ Word.ofDoc "k1" d ∉ newWords.
Proof.
  assert (Hc : wordCache coldBookWorld !! makeCacheKey "u" "k0" = None)
    by (vm_compute; reflexivity).
  split; [exact Hc|].
  eexists. split; [vm_compute; reflexivity|].
  destruct (bulkImportWords_cold_cache_lists_only_new coldBookWorld "u" "k0"
              [sampleWord "tree" []] Hc)
    as (newWords & w' & E & Hlen & Hget & Hold).
  exists newWords, w'. split; [exact E|]. split; [exact Hget|].
  apply Hold; [vm_compute; reflexivity|reflexivity|].
  pose proof (f_equal fst E) as E1. vm_compute in E1. injection E1 as <-.
  vm_compute. intros H. apply list_elem_of_singleton in H. discriminate H.
Defined.

(** X12: [bulkImportWords] on a populated cache entry keeps the cache in
    step with the store: when no stored word of the wordbook carries a
    foreign [id] field, the entry lists the stored words, and the
    identifiers drawn are pairwise different and not yet in use in the
    collection, then both still hold after the import. *)
Theorem bulkImportWords_keeps_cache_in_step (w : World)
    (userId wordbookId : string) (data : list NewWord.t)
    (old newWords : list Word.t) (w' : World) :
  plainWordIds (words (store w) userId wordbookId) ->
  wordCacheAgrees userId wordbookId w ->
  wordCache w !! makeCacheKey userId wordbookId = Some old ->
  bulkImportWords userId wordbookId data w = (Resolved newWords, w') ->
  NoDup (map Word.id newWords) ->
  (forall x, x ∈ newWords ->
     words (store w) userId wordbookId !! Word.id x = None) ->
  plainWordIds (words (store w') userId wordbookId)
  /\ wordCacheAgrees userId wordbookId w'
  /\ wordCache w' !! makeCacheKey userId wordbookId = Some (old ++ newWords).
Proof.
  intros Hp Ha Hold Himp Hnd Hfresh.
  destruct (bulkImportWords_run w userId wordbookId data) as (s' & E & Hrun).
  cbv zeta in E, Hrun. rewrite Hrun in Himp.
  injection Himp as <- <-.
  match type of E with applyBatch (map _ ?nw) _ = _ =>
    set (newWords := nw) in * end.
  destruct (applyBatch_sets userId wordbookId newWords (store w))
    as (s2 & E2 & _ & Hout & Hin).
  rewrite E in E2. injection E2 as <-.
  specialize (Hin Hnd). rewrite Hold.
  change (default [] (Some old)) with old.
  unfold wordCacheAgrees. cbn [store wordCache].
  assert (Hp' : plainWordIds (words s' userId wordbookId)).
  { intros k d Hk.
    destruct (decide (k ∈ map Word.id newWords)) as [Hi|Hi].
    - apply list_elem_of_fmap in Hi as (x & -> & Hx).
      rewrite (Hin x Hx) in Hk. injection Hk as <-.
      by rewrite ofDoc_toDoc.
    - rewrite (Hout k Hi) in Hk. by apply Hp. }
  specialize (Ha old Hold).
  split; [exact Hp'|]. split; [|apply lookup_insert_eq].
  intros ws Hws. rewrite lookup_insert_eq in Hws. injection Hws as <-.
  apply agrees_by_membership; [exact Hp'| |].
  - rewrite map_app. apply NoDup_app. split; [|split; [|exact Hnd]].
    + apply (agreeing_list_ids old _ Hp Ha).
    + intros i Hi1 Hi2.
      apply list_elem_of_fmap in Hi1 as (y & -> & Hy).
      apply list_elem_of_fmap in Hi2 as (x & Hxy & Hx).
      rewrite Ha in Hy. apply elem_of_wordsRead in Hy as (k & d & Hd & ->).
      rewrite (Hp k d Hd) in Hxy. subst k.
      rewrite (Hfresh x Hx) in Hd. done.
  - intros x. rewrite elem_of_app, Ha, !elem_of_wordsRead. split.
    + intros [(k & d & Hd & ->)|Hx].
      * exists k, d. split; [|done]. rewrite Hout; [done|].
        intros Hk. apply list_elem_of_fmap in Hk as (y & -> & Hy).
        rewrite (Hfresh y Hy) in Hd. done.
      * exists (Word.id x), (Word.toDoc x).
        split; [by apply Hin|by rewrite ofDoc_toDoc].
    + intros (k & d & Hk & ->).
      destruct (decide (k ∈ map Word.id newWords)) as [Hi|Hi].
      * apply list_elem_of_fmap in Hi as (y & -> & Hy).
        rewrite (Hin y Hy) in Hk. injection Hk as <-.
        right. by rewrite ofDoc_toDoc.
      * rewrite (Hout k Hi) in Hk. left. by exists k, d.
Qed.

Lemma bulkImportWords_keeps_cache_in_step_witness :
  let r := bulkImportWords "u" "k0" [sampleWord "sky" []] twoWordsWorld in
  let new := Word.mk "k3" (sampleWord "sky" []) "k0" 1003%Z
                     (Some None) (Some 0%Z) in
  r.1 = Resolved [new]
  /\ words (store twoWordsWorld) "u" "k0" !! "k3" = None
  /\ wordCacheAgrees "u" "k0" twoWordsWorld
  /\ wordCacheAgrees "u" "k0" r.2.
Proof.
  cbv zeta.
  set (new := Word.mk "k3" (sampleWord "sky" []) "k0" 1003%Z
                      (Some None) (Some 0%Z)).
  assert (Hp : plainWordIds (words (store twoWordsWorld) "u" "k0"))
    by plain_by_compute.
  assert (Ha : wordCacheAgrees "u" "k0" twoWordsWorld) by agrees_by_compute.
  assert (H1 : (bulkImportWords "u" "k0" [sampleWord "sky" []]
                  twoWordsWorld).1 = Resolved [new])
    by (vm_compute; reflexivity).
  assert (Hf : words (store twoWordsWorld) "u" "k0" !! "k3" = None)
    by (vm_compute; reflexivity).
  split; [exact H1|]. split; [exact Hf|]. split; [exact Ha|].
  assert (Hold : exists old,
            wordCache twoWordsWorld !! makeCacheKey "u" "k0" = Some old).
  { eexists. vm_compute. reflexivity. }
  destruct Hold as [old Hold].
  refine (proj1 (proj2
    (bulkImportWords_keeps_cache_in_step twoWordsWorld "u" "k0"
       [sampleWord "sky" []] old [new] _ Hp Ha Hold _ _ _))).
  - rewrite <- H1. apply surjective_pairing.
  - apply NoDup_singleton.
  - intros x Hx. apply list_elem_of_singleton in Hx. subst x. exact Hf.
Defined.

(** ** Hard deletion and the trash *)

#[local] Instance onlyWordbook_preorder u i : PreOrder (onlyWordbook u i).
Proof.
  split.
  - intros w. by repeat split.
  - intros w1 w2 w3 (A1 & B1 & C1 & D1 & E1) (A2 & B2 & C2 & D2 & E2).
    split; [congruence|]. split; [congruence|]. split; [congruence|].
    split; intros u' i' H; [rewrite D2, D1|rewrite E2, E1]; done.
Qed.

Ltac onlyWordbook_leaf :=
  intros ?w; unfold_sdk; simpl; unfold onlyWordbook; simpl;
  repeat split; intros; repeat case_decide; simplify_eq; try done;
  rewrite ?lookup_delete_ne by congruence; done.

Lemma deleteWordbook_onlyWordbook userId wordbookId :
  preserves (onlyWordbook userId wordbookId)
    (deleteWordbook userId wordbookId).
Proof.
  unfold deleteWordbook.
  apply preserves_andThen; [apply _|onlyWordbook_leaf|intros docs].
  apply preserves_andThen; [apply _| |intros _; onlyWordbook_leaf].
  apply preserves_forEachAsync; [apply _|intros d]. onlyWordbook_leaf.
Qed.

(** X13: [deleteWordbook] always resolves and removes the wordbook
    document and every word document under it, and nothing else: every
    other wordbook, the words of every other wordbook, all tags and both
    caches are as before. *)
Theorem deleteWordbook_removes_only_that_wordbook (w : World)
    (userId wordbookId : string) :
  let r := deleteWordbook userId wordbookId w in
  r.1 = Resolved tt
  /\ wordbooks (store r.2) userId !! wordbookId = None
  /\ words (store r.2) userId wordbookId = ∅
  /\ (forall u' i', (u', i') <> (userId, wordbookId) ->
        wordbooks (store r.2) u' !! i' = wordbooks (store w) u' !! i'
        /\ words (store r.2) u' i' = words (store w) u' i')
  /\ posTags (store r.2) = posTags (store w)
  /\ wordCache r.2 = wordCache w
  /\ posTagCache r.2 = posTagCache w.
Proof.
  cbv zeta.
  destruct (deleteWordbook_effect w userId wordbookId)
    as (w' & E & Hwb & Hws & _).
  pose proof (deleteWordbook_onlyWordbook userId wordbookId w)
    as (A & B & C & D & F).
  rewrite E in *. cbn [fst snd] in *.
  split; [done|]. split; [done|]. split; [done|].
  split; [intros u' i' H; split; [by apply D|by apply F]|].
  by repeat split.
Qed.

Lemma forEach_deleteWordbook u (l : list Wordbook.t) (w : World) :
  exists w',
    forEachAsync (fun wb => deleteWordbook u (Wordbook.id wb)) l w =
      (Resolved (map (fun _ => tt) l), w')
    /\ wordCache w' = wordCache w
    /\ posTagCache w' = posTagCache w
    /\ posTags (store w') = posTags (store w)
    /\ (forall u' i,
          wordbooks (store w') u' !! i =
            if decide (u' = u /\ i ∈ map Wordbook.id l) then None
            else wordbooks (store w) u' !! i)
    /\ (forall u' i,
          words (store w') u' i =
            if decide (u' = u /\ i ∈ map Wordbook.id l) then ∅
            else words (store w) u' i).
Proof.
  revert w. induction l as [|x l IH]; intros w.
  - exists w. split; [done|]. repeat split; intros u' i;
      (rewrite decide_False; [done|]); intros [_ H];
      by apply not_elem_of_nil in H.
  - cbn [forEachAsync map].
    destruct (deleteWordbook_effect w u (Wordbook.id x))
      as (w1 & E1 & Hwb & Hws & _).
    pose proof (deleteWordbook_onlyWordbook u (Wordbook.id x) w)
      as (A & B & C & D & F).
    rewrite E1 in A, B, C, D, F. cbn [snd] in A, B, C, D, F.
    rewrite (andThen_resolved _ _ _ _ _ E1).
    destruct (IH w1) as (w2 & E2 & A2 & B2 & C2 & D2 & F2).
    rewrite (andThen_resolved _ _ _ _ _ E2).
    exists w2. split; [done|].
    split; [congruence|]. split; [congruence|]. split; [congruence|].
    split; intros u' i; [rewrite D2|rewrite F2].
    + destruct (decide (u' = u /\ i ∈ map Wordbook.id l)) as [H|H].
      * rewrite decide_True; [done|]. destruct H. split; [done|].
        by apply list_elem_of_further.
      * destruct (decide ((u', i) = (u, Wordbook.id x))) as [Heq|Hne].
        -- injection Heq as -> ->. rewrite Hwb.
           rewrite decide_True; [done|]. split; [done|].
           apply list_elem_of_here.
        -- rewrite (D _ _ Hne). rewrite decide_False; [done|].
           intros [-> [->|Hi]%elem_of_cons]; [done|]. by apply H.
    + destruct (decide (u' = u /\ i ∈ map Wordbook.id l)) as [H|H].
      * rewrite decide_True; [done|]. destruct H. split; [done|].
        by apply list_elem_of_further.
      * destruct (decide ((u', i) = (u, Wordbook.id x))) as [Heq|Hne].
        -- injection Heq as -> ->. rewrite Hws.
           rewrite decide_True; [done|]. split; [done|].
           apply list_elem_of_here.
        -- rewrite (F _ _ Hne). rewrite decide_False; [done|].
           intros [-> [->|Hi]%elem_of_cons]; [done|]. by apply H.
Qed.

(** X14: [clearTrashedWordbooks] always resolves.  Afterwards every
    wordbook of the user that was in the trash is gone together with its
    words, every other wordbook document and the words under every other
    wordbook id are as before, the trash of the user is empty, and the
    data of other users, the tags and both caches are untouched. *)
Theorem clearTrashedWordbooks_empties_trash (w : World) (userId : string) :
  let r := clearTrashedWordbooks userId w in
  r.1 = Resolved tt
  /\ (forall i,
        match wordbooks (store w) userId !! i with
        | Some d =>
            if Wordbook.isTrashed d
            then wordbooks (store r.2) userId !! i = None
                 /\ words (store r.2) userId i = ∅
            else wordbooks (store r.2) userId !! i = Some d
                 /\ words (store r.2) userId i = words (store w) userId i
        | None =>
            wordbooks (store r.2) userId !! i = None
            /\ words (store r.2) userId i = words (store w) userId i
        end)
  /\ (getTrashedWordbooksByUserId userId r.2).1 = Resolved []
  /\ (forall u' i, u' <> userId ->
        wordbooks (store r.2) u' = wordbooks (store w) u'
        /\ words (store r.2) u' i = words (store w) u' i)
  /\ posTags (store r.2) = posTags (store w)
  /\ wordCache r.2 = wordCache w
  /\ posTagCache r.2 = posTagCache w.
Proof.
  cbv zeta. unfold clearTrashedWordbooks.
  rewrite (andThen_resolved _ _ _ _ _
             (getTrashedWordbooksByUserId_run w userId)).
  set (trashed := omap _ _).
  set (w1 := withEvent _ w).
  destruct (forEach_deleteWordbook userId trashed w1)
    as (w2 & E & A & B & C & D & F).
  rewrite (andThen_resolved _ _ _ _ _ E). unfold resolve. cbn [fst snd].
  assert (Hin : forall i,
    i ∈ map Wordbook.id trashed <->
    exists d, wordbooks (store w) userId !! i = Some d
              /\ Wordbook.isTrashed d = true).
  { intros i. subst trashed. rewrite trashed_as_pushed. split.
    - intros Hi. apply list_elem_of_fmap in Hi as (x & -> & Hx).
      apply elem_of_pushed in Hx as [H1 H2]. by eexists.
    - intros (d & Hd & Ht). apply list_elem_of_fmap.
      exists (Wordbook.mk i d). split; [done|]. by apply elem_of_pushed. }
  assert (Hwb : forall i,
    wordbooks (store w2) userId !! i =
      match wordbooks (store w) userId !! i with
      | Some d => if Wordbook.isTrashed d then None else Some d
      | None => None
      end).
  { intros i. rewrite D. case_decide as Hd.
    - destruct Hd as [_ (d & -> & ->)%Hin]. done.
    - subst w1. cbn [store withEvent].
      destruct (wordbooks (store w) userId !! i) as [d|] eqn:Hl; [|done].
      destruct (Wordbook.isTrashed d) eqn:Ht; [|done].
      exfalso. apply Hd. split; [done|]. apply Hin. by exists d. }
  split; [done|]. split; [|split; [|split; [|by repeat split]]].
  - intros i. specialize (Hwb i). rewrite F.
    destruct (wordbooks (store w) userId !! i) as [d|] eqn:Hl.
    + destruct (Wordbook.isTrashed d) eqn:Ht.
      * split; [done|]. rewrite decide_True; [done|]. split; [done|].
        apply Hin. by exists d.
      * split; [done|]. rewrite decide_False; [done|].
        intros [_ (d' & Hd' & Ht')%Hin]. congruence.
    + split; [done|]. rewrite decide_False; [done|].
      intros [_ (d' & Hd' & _)%Hin]. congruence.
  - rewrite getTrashedWordbooksByUserId_run. cbn [fst]. f_equal.
    apply elem_of_nil_inv. intros x. rewrite trashed_as_pushed.
    intros [H1 H2]%elem_of_pushed. rewrite Hwb in H1.
    destruct (wordbooks (store w) userId !! Wordbook.id x) as [d|]; [|done].
    destruct (Wordbook.isTrashed d) eqn:Ht; [done|]. congruence.
  - intros u' i Hu. split.
    + apply map_eq. intros k. rewrite D. rewrite decide_False; [done|].
      by intros [? _].
    + rewrite F. rewrite decide_False; [done|]. by intros [? _].
Qed.

(** ** Renaming a wordbook *)

(** X15: [updateWordbookName] on an existing wordbook resolves and changes
    its name only: a following [getWordbook] resolves with the same record
    under the new name, and no other wordbook document, no word, no tag
    and no cache entry has changed. *)
Theorem updateWordbookName_then_getWordbook (w : World)
    (userId wordbookId newName : string) (d : Wordbook.Data) :
  wordbooks (store w) userId !! wordbookId = Some d ->
  let r := updateWordbookName userId wordbookId newName w in
  r.1 = Resolved tt
  /\ (getWordbook userId wordbookId r.2).1 =
       Resolved
         (Some (Wordbook.mk wordbookId
                  (Wordbook.mkData newName (Wordbook.createdAt d)
                     (Wordbook.userId d) (Wordbook.trashed d)
                     (Wordbook.trashedAt d))))
  /\ (forall u' i', (u', i') <> (userId, wordbookId) ->
        wordbooks (store r.2) u' !! i' = wordbooks (store w) u' !! i')
  /\ words (store r.2) = words (store w)
  /\ posTags (store r.2) = posTags (store w)
  /\ wordCache r.2 = wordCache w
  /\ posTagCache r.2 = posTagCache w.
Proof.
  intros Hd. cbv zeta.
  assert (E : updateWordbookName userId wordbookId newName w =
    (Resolved tt,
     withStore
       (setWordbooks userId
          (<[wordbookId :=
               Wordbook.merge (Wordbook.mkPatch (Some newName) None None) d]>
             (wordbooks (store w) userId)) (store w))
       (withEvent (UpdateDoc (WordbookDoc userId wordbookId)) w))).
  { unfold updateWordbookName. unfold_sdk. simpl. by rewrite Hd. }
  rewrite E. cbn [fst snd]. split; [done|]. split.
  - rewrite getWordbook_run. cbn [fst store withStore withEvent setWordbooks
      wordbooks].
    rewrite decide_True by done. by rewrite lookup_insert_eq.
  - split; [|done]. intros u' i' Hne. simpl.
    case_decide; [|done]. subst u'.
    rewrite lookup_insert_ne; [done|]. congruence.
Qed.

Lemma updateWordbookName_then_getWordbook_witness :
  exists d,
    wordbooks (store twoBooksWorld) "u" !! "k1" = Some d
    /\ (getWordbook "u" "k1"
          (updateWordbookName "u" "k1" "renamed" twoBooksWorld).2).1 =
         Resolved
           (Some (Wordbook.mk "k1"
                    (Wordbook.mkData "renamed" (Wordbook.createdAt d)
                       (Wordbook.userId d) (Wordbook.trashed d)
                       (Wordbook.trashedAt d)))).
Proof.
  eexists. split; [vm_compute; reflexivity|].
  refine (proj1 (proj2
    (updateWordbookName_then_getWordbook twoBooksWorld "u" "k1" "renamed"
       _ _))).
  vm_compute. reflexivity.
Defined.

(** ** The tag cache *)

(** X16: [getPartOfSpeechTags] is cache-first.  When the cache entry of
    the user is populated it resolves with the cached list and changes
    nothing, whatever the store holds; hence a call that follows any call
    for the same user resolves with the same list and issues no store
    read, even when the store was rewritten in between. *)
Theorem getPartOfSpeechTags_cache_first (w : World) (userId : string) :
  (forall tags, posTagCache w !! userId = Some tags ->
     forall mutated : Store,
       getPartOfSpeechTags userId (withStore mutated w) =
         (Resolved tags, withStore mutated w))
  /\ (forall mutated : Store,
        let first := getPartOfSpeechTags userId w in
        let second :=
          getPartOfSpeechTags userId (withStore mutated first.2) in
        second.1 = first.1 /\ trace second.2 = trace first.2).
Proof.
  split.
  - intros tags H s'. rewrite getPartOfSpeechTags_run.
    cbn [posTagCache withStore]. by rewrite H.
  - intros s'. cbv zeta. rewrite (getPartOfSpeechTags_run w).
    destruct (posTagCache w !! userId) as [tags|] eqn:Hc; cbn [fst snd].
    + rewrite getPartOfSpeechTags_run. cbn [posTagCache withStore].
      by rewrite Hc.
    + rewrite getPartOfSpeechTags_run.
      cbn [posTagCache withStore withPosTagCache withEvent].
      by rewrite lookup_insert_eq.
Qed.

Lemma getPartOfSpeechTags_cache_first_witness :
  let w := (getPartOfSpeechTags "u" twoTagsWorld).2 in
  exists tags,
    posTagCache w !! "u" = Some tags
    /\ getPartOfSpeechTags "u" (withStore emptyStore w) =
         (Resolved tags, withStore emptyStore w).
Proof.
  cbv zeta.
  assert (H : exists tags,
            posTagCache (getPartOfSpeechTags "u" twoTagsWorld).2 !! "u"
            = Some tags).
  { eexists. vm_compute. reflexivity. }
  destruct H as [tags H]. exists tags. split; [exact H|].
  destruct (getPartOfSpeechTags_cache_first
              (getPartOfSpeechTags "u" twoTagsWorld).2 "u") as [Hhit _].
  exact (Hhit _ H emptyStore).
Defined.

Lemma elem_of_tagsRead (m : gmap string PartOfSpeechTag.Doc)
    (x : PartOfSpeechTag.t) :
  x ∈ tagsRead m <->
  exists i d, m !! i = Some d /\ x = PartOfSpeechTag.ofDoc i d.
Proof.
  unfold tagsRead. split.
  - intros Hx. apply list_elem_of_fmap in Hx as ([i d] & -> & Hin).
    apply elem_of_map_to_list in Hin. by exists i, d.
  - intros (i & d & Hd & ->). apply list_elem_of_fmap. exists (i, d).
    split; [done|]. by apply elem_of_map_to_list.
Qed.

Lemma NoDup_tagsRead_ids (m : gmap string PartOfSpeechTag.Doc) :
  plainTagIds m -> NoDup (map PartOfSpeechTag.id (tagsRead m)).
Proof.
  intros Hp.
  assert (E : map PartOfSpeechTag.id (tagsRead m) = (map_to_list m).*1).
  { unfold tagsRead. rewrite map_map.
    apply list_fmap_ext. intros j [i d] Hj. simpl.
    apply Hp. apply elem_of_map_to_list. by eapply list_elem_of_lookup_2. }
  rewrite E. apply NoDup_fst_map_to_list.
Qed.

Lemma tags_agree_by_membership (l : list PartOfSpeechTag.t)
    (m : gmap string PartOfSpeechTag.Doc) :
  plainTagIds m ->
  NoDup (map PartOfSpeechTag.id l) ->
  (forall x, x ∈ l <->
     exists i d, m !! i = Some d /\ x = PartOfSpeechTag.ofDoc i d) ->
  l ≡ₚ tagsRead m.
Proof.
  intros Hp Hnd Hmem. apply NoDup_Permutation.
  - by apply (NoDup_fmap_1 PartOfSpeechTag.id).
  - by apply (NoDup_fmap_1 PartOfSpeechTag.id), NoDup_tagsRead_ids.
  - intros x. by rewrite Hmem, elem_of_tagsRead.
Qed.

Lemma rewriteTagsIfCached_frame u f w :
  store (rewriteTagsIfCached u f w) = store w
  /\ trace (rewriteTagsIfCached u f w) = trace w
  /\ wordCache (rewriteTagsIfCached u f w) = wordCache w
  /\ posTagCache (rewriteTagsIfCached u f w) !! u = f <$> posTagCache w !! u
  /\ forall k, k <> u ->
       posTagCache (rewriteTagsIfCached u f w) !! k = posTagCache w !! k.
Proof.
  unfold rewriteTagsIfCached.
  destruct (posTagCache w !! u) as [tags|] eqn:Hc; simpl.
  - repeat split; [by rewrite lookup_insert_eq|].
    intros k Hk. by rewrite lookup_insert_ne.
  - by rewrite Hc.
Qed.

Lemma createPartOfSpeechTag_run (w : World) (userId : string)
    (data : NewTag.t) :
  let docId := autoId w (idsDrawn w) in
  let tag :=
    PartOfSpeechTag.mk docId (NewTag.name data) (NewTag.color data) userId in
  let drawn :=
    mkWorld (store w) (wordCache w) (posTagCache w) (clock w) (clockReads w)
            (autoId w) (S (idsDrawn w))
            (trace w ++ [AddDoc (PosTagDoc userId docId)]) in
  createPartOfSpeechTag userId data w =
    match posTags (store w) userId !! docId with
    | Some _ => (Rejected AlreadyExists, drawn)
    | None =>
        (Resolved tag,
         rewriteTagsIfCached userId (fun tags => tags ++ [tag])
           (withStore
              (setPosTags userId
                 (<[docId := PartOfSpeechTag.mk None (NewTag.name data)
                               (NewTag.color data) userId]>
                    (posTags (store w) userId)) (store w))
              drawn))
    end.
Proof.
  cbv zeta. unfold createPartOfSpeechTag. unfold_sdk. simpl.
  by destruct (posTags (store w) userId !! autoId w (idsDrawn w)).
Qed.

Lemma setPosTags_lookup u m s : posTags (setPosTags u m s) u = m.
Proof. simpl. by rewrite decide_True. Qed.

(** X17: when the generated identifier is free, [createPartOfSpeechTag]
    stores the name, the colour and the user id without an [id] field,
    resolves with the tag under the new id, and the next call of
    [getPartOfSpeechTags] lists that same tag, be the cache populated
    (the tag was appended to it) or cold (the tag is read back from the
    store). *)
Theorem createPartOfSpeechTag_then_listed (w : World) (userId : string)
    (data : NewTag.t) :
  let docId := autoId w (idsDrawn w) in
  let tag :=
    PartOfSpeechTag.mk docId (NewTag.name data) (NewTag.color data) userId in
  let r := createPartOfSpeechTag userId data w in
  posTags (store w) userId !! docId = None ->
  r.1 = Resolved tag
  /\ posTags (store r.2) userId !! docId =
       Some (PartOfSpeechTag.mk None (NewTag.name data) (NewTag.color data)
               userId)
  /\ exists listed,
       (getPartOfSpeechTags userId r.2).1 = Resolved listed
       /\ tag ∈ listed.
Proof.
  cbv zeta. intros Hfree. rewrite createPartOfSpeechTag_run. cbv zeta.
  rewrite Hfree. cbn [fst snd].
  match goal with |- context [rewriteTagsIfCached ?k ?f ?w0] =>
    destruct (rewriteTagsIfCached_frame k f w0) as (E1 & _ & _ & E4 & _);
    set (after := rewriteTagsIfCached k f w0) in * end.
  cbn [store posTagCache withStore] in E1, E4.
  assert (Hst : posTags (store after) userId !! autoId w (idsDrawn w) =
                Some (PartOfSpeechTag.mk None (NewTag.name data)
                        (NewTag.color data) userId)).
  { rewrite E1, setPosTags_lookup. apply lookup_insert_eq. }
  split; [done|]. split; [exact Hst|].
  rewrite getPartOfSpeechTags_run, E4.
  destruct (posTagCache w !! userId) as [old|]; cbn [fmap option_fmap
    option_map fst].
  - eexists. split; [done|]. apply elem_of_app. right. constructor.
  - eexists. split; [done|]. apply (elem_of_tagsRead _ _).
    eexists _, _. split; [exact Hst|reflexivity].
Qed.

Lemma createPartOfSpeechTag_then_listed_witness :
  posTags (store twoTagsWorld) "u" !! "k2" = None
  /\ exists listed,
       (getPartOfSpeechTags "u"
          (createPartOfSpeechTag "u" (NewTag.mk "adj" "green")
             twoTagsWorld).2).1 = Resolved listed
       /\ PartOfSpeechTag.mk "k2" "adj" "green" "u" ∈ listed.
Proof.
  assert (H : posTags (store twoTagsWorld) "u" !! "k2" = None)
    by (vm_compute; reflexivity).
  split; [exact H|].
  exact (proj2 (proj2
    (createPartOfSpeechTag_then_listed twoTagsWorld "u"
       (NewTag.mk "adj" "green") H))).
Defined.

Lemma tag_ofDoc_mergeDoc (p : PartialTag.t) (i : string)
    (d : PartOfSpeechTag.Doc) :
  PartOfSpeechTag.ofDoc i (PartialTag.mergeDoc p d) =
  PartialTag.mergeTag p (PartOfSpeechTag.ofDoc i d).
Proof.
  unfold PartOfSpeechTag.ofDoc, PartialTag.mergeDoc, PartialTag.mergeTag.
  simpl. by destruct (PartialTag.id p), (PartOfSpeechTag.id d).
Qed.

Lemma agreeing_tag_ids (l : list PartOfSpeechTag.t)
    (m : gmap string PartOfSpeechTag.Doc) :
  plainTagIds m -> l ≡ₚ tagsRead m -> NoDup (map PartOfSpeechTag.id l).
Proof. intros Hp Hl. rewrite Hl. by apply NoDup_tagsRead_ids. Qed.

(** X18: [createPartOfSpeechTag] keeps the tag cache in step with the
    store: when no stored tag of the user carries a foreign [id] field and
    the cache entry of the user lists the stored tags, both still hold
    after the call, whether it resolved or was rejected. *)
Theorem createPartOfSpeechTag_keeps_cache_in_step (w : World)
    (userId : string) (data : NewTag.t) :
  plainTagIds (posTags (store w) userId) ->
  posTagCacheAgrees userId w ->
  let w' := (createPartOfSpeechTag userId data w).2 in
  plainTagIds (posTags (store w') userId) /\ posTagCacheAgrees userId w'.
Proof.
  intros Hp Ha. cbv zeta. rewrite createPartOfSpeechTag_run. cbv zeta.
  destruct (posTags (store w) userId !! autoId w (idsDrawn w)) eqn:Hfree;
    cbn [snd]; [by split|].
  match goal with |- context [rewriteTagsIfCached ?k ?f ?w0] =>
    destruct (rewriteTagsIfCached_frame k f w0) as (E1 & _ & _ & E4 & _) end.
  unfold posTagCacheAgrees. rewrite E1, E4.
  cbn [store posTagCache withStore]. rewrite setPosTags_lookup.
  set (docId := autoId w (idsDrawn w)) in *.
  set (doc := PartOfSpeechTag.mk None (NewTag.name data) (NewTag.color data)
                userId).
  assert (Hp' : plainTagIds (<[docId := doc]> (posTags (store w) userId))).
  { intros k d Hk. destruct (decide (k = docId)) as [->|Hne].
    - rewrite lookup_insert_eq in Hk. by injection Hk as <-.
    - rewrite lookup_insert_ne in Hk by done. by apply Hp. }
  split; [exact Hp'|]. intros tags Htags.
  destruct (posTagCache w !! userId) as [old|] eqn:Ho; [|done].
  injection Htags as <-. specialize (Ha old Ho).
  apply tags_agree_by_membership; [exact Hp'| |].
  - rewrite map_app. apply NoDup_app.
    split; [apply (agreeing_tag_ids old _ Hp Ha)|].
    split; [|apply NoDup_singleton].
    intros i Hi1 Hi2. apply list_elem_of_singleton in Hi2. simpl in Hi2.
    subst i. apply list_elem_of_fmap in Hi1 as (y & Hy1 & Hy).
    rewrite Ha in Hy. apply elem_of_tagsRead in Hy as (k & d & Hd & ->).
    rewrite (Hp k d Hd) in Hy1. subst k. congruence.
  - intros x. rewrite elem_of_app, Ha, !elem_of_tagsRead,
      list_elem_of_singleton. split.
    + intros [(k & d & Hd & ->)| ->].
      * exists k, d. split; [|done]. rewrite lookup_insert_ne; [done|].
        intros <-. congruence.
      * exists docId, doc. split; [apply lookup_insert_eq|done].
    + intros (k & d & Hk & ->).
      destruct (decide (k = docId)) as [->|Hne].
      * rewrite lookup_insert_eq in Hk. injection Hk as <-. by right.
      * rewrite lookup_insert_ne in Hk by done. left. by exists k, d.
Qed.

Lemma createPartOfSpeechTag_keeps_cache_in_step_witness :
  let w := (getPartOfSpeechTags "u" twoTagsWorld).2 in
  plainTagIds (posTags (store w) "u")
  /\ posTagCacheAgrees "u" w
  /\ posTagCacheAgrees "u"
       (createPartOfSpeechTag "u" (NewTag.mk "adj" "green") w).2.
Proof.
  cbv zeta.
  assert (Hp : plainTagIds
            (posTags (store (getPartOfSpeechTags "u" twoTagsWorld).2) "u"))
    by plain_by_compute.
  assert (Ha : posTagCacheAgrees "u" (getPartOfSpeechTags "u" twoTagsWorld).2)
    by agrees_by_compute.
  split; [exact Hp|]. split; [exact Ha|].
  apply (createPartOfSpeechTag_keeps_cache_in_step _ "u"
           (NewTag.mk "adj" "green") Hp Ha).
Defined.

(** X19: [updatePartOfSpeechTag] keeps the tag cache in step with the
    store: when the update data carries no [id], no stored tag of the user
    carries a foreign [id] field and the cache entry lists the stored
    tags, both still hold after the call; the call resolves exactly when
    the tag document exists, and then the document holds the former fields
    overwritten by the given ones. *)
Theorem updatePartOfSpeechTag_keeps_cache_in_step (w : World)
    (userId tagId : string) (data : PartialTag.t) :
  PartialTag.id data = None ->
  plainTagIds (posTags (store w) userId) ->
  posTagCacheAgrees userId w ->
  let r := updatePartOfSpeechTag userId tagId data w in
  plainTagIds (posTags (store r.2) userId)
  /\ posTagCacheAgrees userId r.2
  /\ r.1 = match posTags (store w) userId !! tagId with
           | Some _ => Resolved tt
           | None => Rejected NotFound
           end
  /\ posTags (store r.2) userId !! tagId =
       PartialTag.mergeDoc data <$> posTags (store w) userId !! tagId.
Proof.
  intros Hid Hp Ha. cbv zeta.
  unfold updatePartOfSpeechTag, updateDoc_posTag. unfold_promise. simpl.
  destruct (posTags (store w) userId !! tagId) as [d|] eqn:Hd; simpl.
  2: { split; [exact Hp|]. split; [exact Ha|]. by rewrite Hd. }
  match goal with |- context [rewriteTagsIfCached ?k ?f ?w0] =>
    destruct (rewriteTagsIfCached_frame k f w0) as (E1 & _ & _ & E4 & _) end.
  unfold posTagCacheAgrees. rewrite E1, E4.
  cbn [store posTagCache withStore withEvent]. rewrite setPosTags_lookup.
  set (m := posTags (store w) userId) in *.
  assert (Hp' : plainTagIds (<[tagId := PartialTag.mergeDoc data d]> m)).
  { intros k d' Hk. destruct (decide (k = tagId)) as [->|Hne].
    - rewrite lookup_insert_eq in Hk. injection Hk as <-.
      rewrite tag_ofDoc_mergeDoc. unfold PartialTag.mergeTag. simpl.
      rewrite Hid. by apply Hp.
    - rewrite lookup_insert_ne in Hk by done. by apply Hp. }
  split; [exact Hp'|]. split; [|split; [done|by rewrite lookup_insert_eq]].
  intros tags Htags.
  destruct (posTagCache w !! userId) as [old|] eqn:Ho; [|done].
  injection Htags as <-. specialize (Ha old Ho).
  apply tags_agree_by_membership; [exact Hp'| |].
  - rewrite map_map.
    erewrite map_ext; [apply (agreeing_tag_ids old _ Hp Ha)|].
    intros x. simpl. case_decide; [|done].
    unfold PartialTag.mergeTag. simpl. by rewrite Hid.
  - intros x. split.
    + intros Hx. apply list_elem_of_fmap in Hx as (y & -> & Hy).
      rewrite Ha in Hy. apply elem_of_tagsRead in Hy as (k & d0 & Hd0 & ->).
      rewrite (Hp k d0 Hd0). exists k. case_decide as Hk.
      * subst k. exists (PartialTag.mergeDoc data d).
        rewrite lookup_insert_eq. split; [done|].
        rewrite tag_ofDoc_mergeDoc.
        change (m !! tagId = Some d0) in Hd0. congruence.
      * exists d0. by rewrite lookup_insert_ne.
    + intros (k & d' & Hk & ->). apply list_elem_of_fmap.
      destruct (decide (k = tagId)) as [->|Hne].
      * rewrite lookup_insert_eq in Hk. injection Hk as <-.
        exists (PartOfSpeechTag.ofDoc tagId d). rewrite (Hp tagId d Hd).
        rewrite decide_True by done. split; [by rewrite tag_ofDoc_mergeDoc|].
        rewrite Ha. apply elem_of_tagsRead. by exists tagId, d.
      * rewrite lookup_insert_ne in Hk by done.
        exists (PartOfSpeechTag.ofDoc k d'). rewrite (Hp k d' Hk).
        rewrite decide_False by done. split; [done|].
        rewrite Ha. apply elem_of_tagsRead. by exists k, d'.
Qed.

Lemma updatePartOfSpeechTag_keeps_cache_in_step_witness :
  let w := (getPartOfSpeechTags "u" twoTagsWorld).2 in
  let p := PartialTag.mk None (Some "substantive") None None in
  PartialTag.id p = None
  /\ plainTagIds (posTags (store w) "u")
  /\ posTagCacheAgrees "u" w
  /\ posTagCacheAgrees "u" (updatePartOfSpeechTag "u" "k0" p w).2.
Proof.
  cbv zeta.
  assert (Hp : plainTagIds
            (posTags (store (getPartOfSpeechTags "u" twoTagsWorld).2) "u"))
    by plain_by_compute.
  assert (Ha : posTagCacheAgrees "u" (getPartOfSpeechTags "u" twoTagsWorld).2)
    by agrees_by_compute.
  split; [reflexivity|]. split; [exact Hp|]. split; [exact Ha|].
  apply (updatePartOfSpeechTag_keeps_cache_in_step _ "u" "k0"
           (PartialTag.mk None (Some "substantive") None None) eq_refl Hp Ha).
Defined.

Lemma plainTagIds_delete i (m : gmap string PartOfSpeechTag.Doc) :
  plainTagIds m -> plainTagIds (delete i m).
Proof. intros Hp k d [_ Hk]%lookup_delete_Some. by apply Hp. Qed.

(** X20: when no stored tag of the user carries a foreign [id] field,
    [deletePartOfSpeechTag] removes the tag for every later reader: it
    resolves, the tag document is gone, and the list that
    [getPartOfSpeechTags] serves next has no entry with that id, be the
    tag cache populated or cold. *)
Theorem deletePartOfSpeechTag_unlists_tag (w : World)
    (userId tagId : string) :
  plainTagIds (posTags (store w) userId) ->
  let r := deletePartOfSpeechTag userId tagId w in
  r.1 = Resolved tt
  /\ posTags (store r.2) userId !! tagId = None
  /\ plainTagIds (posTags (store r.2) userId)
  /\ exists listed,
       (getPartOfSpeechTags userId r.2).1 = Resolved listed
       /\ forall x, x ∈ listed -> PartOfSpeechTag.id x <> tagId.
Proof.
  intros Hp. cbv zeta.
  destruct (deletePartOfSpeechTag_cleans w userId tagId)
    as (w' & E & _ & Hgone & listed & Hl & Hlisted).
  destruct (deletePartOfSpeechTag_run w userId tagId)
    as (w2 & E2 & _ & _ & Ht & _).
  rewrite E in E2. injection E2 as <-.
  rewrite E. cbn [fst snd]. split; [done|]. split; [exact Hgone|].
  split; [rewrite Ht; by apply plainTagIds_delete|].
  exists listed. split; [exact Hl|].
  intros x Hx Hid. destruct (Hlisted x Hx Hid) as (_ & k & d & Hne & Hd & Hk).
  apply Hne. rewrite <- (Hp k d Hd). unfold PartOfSpeechTag.ofDoc. simpl.
  by rewrite Hk.
Qed.

Lemma deletePartOfSpeechTag_unlists_tag_witness :
  plainTagIds (posTags (store twoTagsWorld) "u")
  /\ exists listed,
       (getPartOfSpeechTags "u"
          (deletePartOfSpeechTag "u" "k0" twoTagsWorld).2).1 = Resolved listed
       /\ forall x, x ∈ listed -> PartOfSpeechTag.id x <> "k0".
Proof.
  assert (Hp : plainTagIds (posTags (store twoTagsWorld) "u"))
    by plain_by_compute.
  split; [exact Hp|].
  exact (proj2 (proj2 (proj2
    (deletePartOfSpeechTag_unlists_tag twoTagsWorld "u" "k0" Hp)))).
Defined.

(** X21: [deletePartOfSpeechTag] keeps the tag cache in step with the
    store: when no stored tag of the user carries a foreign [id] field and
    the cache entry of the user lists the stored tags, the entry still
    lists the stored tags after the deletion. *)
Theorem deletePartOfSpeechTag_keeps_tag_cache_in_step (w : World)
    (userId tagId : string) :
  plainTagIds (posTags (store w) userId) ->
  posTagCacheAgrees userId w ->
  posTagCacheAgrees userId (deletePartOfSpeechTag userId tagId w).2.
Proof.
  intros Hp Ha.
  destruct (deletePartOfSpeechTag_run w userId tagId)
    as (w' & E & _ & _ & Ht & Hc).
  rewrite E. cbn [snd]. intros tags Htags. rewrite Hc in Htags. rewrite Ht.
  destruct (posTagCache w !! userId) as [old|] eqn:Ho; [|done].
  injection Htags as <-. specialize (Ha old Ho).
  apply tags_agree_by_membership; [by apply plainTagIds_delete| |].
  - pose proof (agreeing_tag_ids old _ Hp Ha) as Hnd. clear -Hnd.
    induction old as [|a l IH]; [done|]. cbn [map] in Hnd.
    apply NoDup_cons in Hnd as [Hnot Hl]. rewrite filter_cons.
    case_decide; [|by apply IH]. cbn [map]. apply NoDup_cons.
    split; [|by apply IH]. intros Hin. apply Hnot.
    apply list_elem_of_fmap in Hin as (x & -> & [_ Hx]%list_elem_of_filter).
    by apply list_elem_of_fmap_2.
  - intros x. rewrite list_elem_of_filter, Ha, elem_of_tagsRead. split.
    + intros (Hne & i & d & Hd & ->). exists i, d. split; [|done].
      apply lookup_delete_Some. split; [|done].
      intros <-. apply Hne. by apply Hp.
    + intros (i & d & [Hne Hd]%lookup_delete_Some & ->).
      split; [|by exists i, d]. by rewrite (Hp i d Hd).
Qed.

Lemma deletePartOfSpeechTag_keeps_tag_cache_in_step_witness :
  let w := (getPartOfSpeechTags "u" twoTagsWorld).2 in
  plainTagIds (posTags (store w) "u")
  /\ posTagCacheAgrees "u" w
  /\ posTagCacheAgrees "u" (deletePartOfSpeechTag "u" "k1" w).2.
Proof.
  cbv zeta.
  assert (Hp : plainTagIds
            (posTags (store (getPartOfSpeechTags "u" twoTagsWorld).2) "u"))
    by plain_by_compute.
  assert (Ha : posTagCacheAgrees "u" (getPartOfSpeechTags "u" twoTagsWorld).2)
    by agrees_by_compute.
  split; [exact Hp|]. split; [exact Ha|].
  apply (deletePartOfSpeechTag_keeps_tag_cache_in_step _ "u" "k1" Hp Ha).
Defined.

(** ** Where the cache and the store part *)

(** X22: [createWord] on a populated cache entry keeps the cache in step
    with the store only when its two clock readings coincide.  With no
    foreign [id] field in the collection, an entry that lists the stored
    words and a free generated identifier, the entry lists the stored
    words after the call exactly when the second reading equals the
    first: otherwise the cached copy of the new word and the stored one
    differ in [createdAt]. *)
Theorem createWord_in_step_iff_same_reading (w : World)
    (userId wordbookId : string) (wordData : NewWord.t)
    (old : list Word.t) :
  plainWordIds (words (store w) userId wordbookId) ->
  wordCacheAgrees userId wordbookId w ->
  wordCache w !! makeCacheKey userId wordbookId = Some old ->
  words (store w) userId wordbookId !! autoId w (idsDrawn w) = None ->
  wordCacheAgrees userId wordbookId
    (createWord userId wordbookId wordData w).2
  <-> clock w (S (clockReads w)) = clock w (clockReads w).
Proof.
  intros Hp Ha Hold Hfree.
  rewrite createWord_run by exact Hfree. cbn [snd].
  match goal with |- context [pushIfCached ?k ?l ?w0] =>
    destruct (pushIfCached_frame k l w0) as (E1 & _ & _ & E4 & _) end.
  unfold wordCacheAgrees. rewrite E1, E4.
  cbn [store wordCache]. rewrite setWords_lookup, Hold.
  cbn [fmap option_fmap option_map].
  set (docId := autoId w (idsDrawn w)) in *.
  set (m := words (store w) userId wordbookId) in *.
  set (stored := clock w (clockReads w)).
  set (returned := clock w (S (clockReads w))).
  set (doc := Word.mk None wordData wordbookId stored (Some None) (Some 0%Z)).
  set (new := Word.mk docId wordData wordbookId returned (Some None)
                (Some 0%Z)).
  specialize (Ha old Hold).
  assert (Hp' : plainWordIds (<[docId := doc]> m)).
  { intros k d Hk. destruct (decide (k = docId)) as [->|Hne].
    - rewrite lookup_insert_eq in Hk. by injection Hk as <-.
    - rewrite lookup_insert_ne in Hk by done. by apply Hp. }
  split.
  - intros Hagree. specialize (Hagree _ eq_refl).
    assert (Hin : new ∈ wordsRead (<[docId := doc]> m)).
    { rewrite <- Hagree. apply elem_of_app. right. constructor. }
    apply elem_of_wordsRead in Hin as (k & d & Hk & Hnew).
    assert (k = docId) as ->.
    { rewrite <- (Hp' k d Hk), <- Hnew. done. }
    rewrite lookup_insert_eq in Hk. injection Hk as <-.
    by injection Hnew.
  - intros Hsame ws [= <-].
    assert (Hnew : new = Word.ofDoc docId doc).
    { unfold new, doc, Word.ofDoc. simpl. by rewrite Hsame. }
    apply agrees_by_membership; [exact Hp'| |].
    + rewrite map_app. apply NoDup_app.
      split; [apply (agreeing_list_ids old _ Hp Ha)|].
      split; [|apply NoDup_singleton].
      intros i Hi1 Hi2. apply list_elem_of_singleton in Hi2. simpl in Hi2.
      subst i. apply list_elem_of_fmap in Hi1 as (y & Hy1 & Hy).
      rewrite Ha in Hy. apply elem_of_wordsRead in Hy as (k & d & Hd & ->).
      rewrite (Hp k d Hd) in Hy1. rewrite <- Hy1 in Hd. fold m in Hd.
      congruence.
    + intros x. rewrite elem_of_app, Ha, !elem_of_wordsRead,
        list_elem_of_singleton. split.
      * intros [(k & d & Hd & ->)| ->].
        -- exists k, d. split; [|done]. rewrite lookup_insert_ne; [done|].
           intros Hk. rewrite <- Hk in Hd. fold m in Hd. congruence.
        -- exists docId, doc. split; [apply lookup_insert_eq|done].
      * intros (k & d & Hk & ->).
        destruct (decide (k = docId)) as [->|Hne].
        -- rewrite lookup_insert_eq in Hk. injection Hk as <-. by right.
        -- rewrite lookup_insert_ne in Hk by done. left. by exists k, d.
Qed.

Lemma createWord_in_step_iff_same_reading_witness :
  wordCacheAgrees "u" "k0" twoWordsWorld
  /\ ~ wordCacheAgrees "u" "k0"
         (createWord "u" "k0" (sampleWord "sky" []) twoWordsWorld).2.
Proof.
  assert (Hp : plainWordIds (words (store twoWordsWorld) "u" "k0"))
    by plain_by_compute.
  assert (Ha : wordCacheAgrees "u" "k0" twoWordsWorld) by agrees_by_compute.
  assert (Hold : exists old,
            wordCache twoWordsWorld !! makeCacheKey "u" "k0" = Some old).
  { eexists. vm_compute. reflexivity. }
  destruct Hold as [old Hold].
  assert (Hf : words (store twoWordsWorld) "u" "k0"
                 !! autoId twoWordsWorld (idsDrawn twoWordsWorld) = None)
    by (vm_compute; reflexivity).
  split; [exact Ha|].
  rewrite (createWord_in_step_iff_same_reading twoWordsWorld "u" "k0"
             (sampleWord "sky" []) old Hp Ha Hold Hf).
  vm_compute. discriminate.
Defined.

(** ** What no request does *)

Ltac preserves_by leaf :=
  repeat first
    [ solve [leaf]
    | apply preserves_andThen; [apply _| |intros ?]
    | apply preserves_forEachAsync; [apply _|intros ?] ].

#[local] Instance samePosTagCache_preorder : PreOrder samePosTagCache.
Proof.
  split; [by intros w|]. intros w1 w2 w3 H1 H2.
  unfold samePosTagCache in *. congruence.
Qed.

Ltac sameCache_leaf :=
  intros ?w; unfold_sdk;
  unfold rewriteIfCached, pushIfCached, rewriteTagsIfCached;
  simpl; repeat case_match; simpl; reflexivity.

(** X23: the two caches have separate owners.  The word cache is written
    by the seven word functions only: after any wordbook or tag request it
    is what it was.  The tag cache is written by the four tag functions
    only: after any wordbook or word request it is what it was. *)
Theorem caches_have_separate_owners (r : Request) (w : World) :
  (isWordRequest r = false -> wordCache (perform r w) = wordCache w)
  /\ (isTagRequest r = false -> posTagCache (perform r w) = posTagCache w).
Proof.
  split; intros Hr; destruct r; try discriminate Hr; cbn [perform].
  all: match goal with
       | |- wordCache (?m ?w).2 = wordCache ?w =>
           revert w; change (preserves sameWordCache m)
       | |- posTagCache (?m ?w).2 = posTagCache ?w =>
           revert w; change (preserves samePosTagCache m)
       end.
  all: unfold getWordbooksByUserId, createWordbook, deleteWordbook,
         trashWordbook, clearTrashedWordbooks, getTrashedWordbooksByUserId,
         updateWordbookName, getWordbook, getWordsByWordbookId, createWord,
         updateWord, deleteWord, bulkImportWords, resetWordsProgress,
         bulkDeleteWords, getPartOfSpeechTags, createPartOfSpeechTag,
         updatePartOfSpeechTag, deletePartOfSpeechTag, deleteWordbook.
  all: preserves_by sameCache_leaf.
Qed.

Lemma caches_have_separate_owners_witness :
  wordCache (perform (DeleteWordbook "u" "k0") cachedBookWorld) =
    wordCache cachedBookWorld
  /\ posTagCache (perform (CreateWord "u" "k0" (sampleWord "sky" []))
                    cachedBookWorld) = posTagCache cachedBookWorld.
Proof.
  split.
  - apply (caches_have_separate_owners (DeleteWordbook "u" "k0")). reflexivity.
  - apply (caches_have_separate_owners
             (CreateWord "u" "k0" (sampleWord "sky" []))). reflexivity.
Defined.

#[local] Instance otherUsersKept_preorder u : PreOrder (otherUsersKept u).
Proof.
  split.
  - intros w u' _. by repeat split.
  - intros w1 w2 w3 H1 H2 u' Hu.
    destruct (H1 u' Hu) as (A1 & B1 & C1), (H2 u' Hu) as (A2 & B2 & C2).
    split; [congruence|]. split; [|congruence].
    intros wb. by rewrite B2, B1.
Qed.

Lemma applyBatch_otherUsers u (ops : list BatchOp) (s s' : Store) :
  Forall (fun op => batchOpUser op = u) ops ->
  applyBatch ops s = Some s' ->
  wordbooks s' = wordbooks s
  /\ posTags s' = posTags s
  /\ forall u' wb, u' <> u -> words s' u' wb = words s u' wb.
Proof.
  intros Hops. revert s. induction Hops as [|op ops Hop _ IH]; intros s.
  - intros [= <-]. by repeat split.
  - cbn [applyBatch]. destruct (applyBatchOp op s) as [s1|] eqn:E1; [|done].
    intros H. destruct (IH _ H) as (A & B & C).
    assert (H1 : wordbooks s1 = wordbooks s /\ posTags s1 = posTags s
                 /\ forall u' wb, u' <> u -> words s1 u' wb = words s u' wb).
    { destruct op; simpl in E1, Hop; subst;
        repeat case_match; simplify_eq; repeat split;
        intros u' wb Hne; simpl; by rewrite decide_False. }
    destruct H1 as (A1 & B1 & C1).
    split; [congruence|]. split; [congruence|].
    intros u' wb Hne. by rewrite C, C1.
Qed.

Lemma commit_otherUsers u (ops : list BatchOp) :
  Forall (fun op => batchOpUser op = u) ops ->
  preserves (otherUsersKept u) (commit ops).
Proof.
  intros Hops w. unfold commit. unfold_promise. simpl.
  destruct (applyBatch ops (store w)) as [s'|] eqn:E; simpl.
  - destruct (applyBatch_otherUsers u ops _ _ Hops E) as (A & B & C).
    intros u' Hu. simpl. rewrite A, B. split; [done|]. split; [|done].
    intros wb. by apply C.
  - intros u' _. by repeat split.
Qed.

Ltac otherUsers_leaf :=
  intros ?w; unfold_sdk;
  unfold rewriteIfCached, pushIfCached, rewriteTagsIfCached;
  simpl; repeat case_match; simpl;
  intros ?u' ?Hu; simpl; repeat split; try intros ?;
  repeat case_decide; subst; done.

Ltac otherUsers_auto :=
  repeat first
    [ solve [otherUsers_leaf]
    | solve [apply commit_otherUsers, Forall_fmap, Forall_true; done]
    | apply preserves_andThen; [apply _| |intros ?]
    | apply preserves_forEachAsync; [apply _|intros ?] ].

(** X24: a request never writes another user's data: after any request
    made for a user, the wordbooks, the words and the tags stored for
    every other user are as before, whether the request resolved or was
    rejected. *)
Theorem requests_leave_other_users_alone (r : Request) (w : World)
    (other : string) :
  other <> requestUser r ->
  wordbooks (store (perform r w)) other = wordbooks (store w) other
  /\ (forall wb, words (store (perform r w)) other wb
                 = words (store w) other wb)
  /\ posTags (store (perform r w)) other = posTags (store w) other.
Proof.
  intros Hne.
  assert (H : otherUsersKept (requestUser r) w (perform r w));
    [|exact (H other Hne)].
  clear Hne. destruct r; cbn [perform requestUser].
  all: match goal with |- otherUsersKept ?u ?w (?m ?w).2 =>
         revert w; change (preserves (otherUsersKept u) m) end.
  all: unfold getWordbooksByUserId, createWordbook, deleteWordbook,
         trashWordbook, clearTrashedWordbooks, getTrashedWordbooksByUserId,
         updateWordbookName, getWordbook, getWordsByWordbookId, createWord,
         updateWord, deleteWord, bulkImportWords, resetWordsProgress,
         bulkDeleteWords, getPartOfSpeechTags, createPartOfSpeechTag,
         updatePartOfSpeechTag, deletePartOfSpeechTag, deleteWordbook.
  all: otherUsers_auto.
Qed.

Lemma requests_leave_other_users_alone_witness :
  "v" <> requestUser (ClearTrashedWordbooks "u")
  /\ wordbooks (store (perform (ClearTrashedWordbooks "u") twoBooksWorld)) "v"
     = wordbooks (store twoBooksWorld) "v".
Proof.
  assert (H : "v" <> requestUser (ClearTrashedWordbooks "u"))
    by discriminate.
  split; [exact H|].
  exact (proj1 (requests_leave_other_users_alone
                  (ClearTrashedWordbooks "u") twoBooksWorld "v" H)).
Defined.

(** ** Stored ids stay plain *)

#[local] Instance plainKept_preorder : PreOrder plainKept.
Proof.
  split.
  - by intros w H.
  - intros w1 w2 w3 H1 H2 H. by apply H2, H1.
Qed.

Lemma plainWordIds_insert i d (m : gmap string Word.Doc) :
  Word.id (Word.ofDoc i d) = i -> plainWordIds m -> plainWordIds (<[i := d]> m).
Proof.
  intros Hd Hp k e. destruct (decide (k = i)) as [->|Hne].
  - rewrite lookup_insert_eq. by intros [= <-].
  - rewrite lookup_insert_ne by done. apply Hp.
Qed.

Lemma plainTagIds_insert i d (m : gmap string PartOfSpeechTag.Doc) :
  PartOfSpeechTag.id (PartOfSpeechTag.ofDoc i d) = i ->
  plainTagIds m -> plainTagIds (<[i := d]> m).
Proof.
  intros Hd Hp k e. destruct (decide (k = i)) as [->|Hne].
  - rewrite lookup_insert_eq. by intros [= <-].
  - rewrite lookup_insert_ne by done. apply Hp.
Qed.

Lemma plainStore_setWords u wb m s :
  plainWordIds m -> plainStore s -> plainStore (setWords u wb m s).
Proof.
  intros Hm [Hw Ht]. split; [|exact Ht].
  intros u' wb'. simpl. repeat case_decide; [exact Hm|apply Hw..].
Qed.

Lemma plainStore_setPosTags u m s :
  plainTagIds m -> plainStore s -> plainStore (setPosTags u m s).
Proof.
  intros Hm [Hw Ht]. split; [exact Hw|].
  intros u'. simpl. case_decide; [exact Hm|apply Ht].
Qed.

Lemma plainStore_setWordbooks u m s :
  plainStore s -> plainStore (setWordbooks u m s).
Proof. by intros [Hw Ht]. Qed.

Lemma mergeDoc_keeps_plain (p : PartialWord.t) i d :
  match PartialWord.id p with Some j => j = i | None => True end ->
  Word.id (Word.ofDoc i d) = i ->
  Word.id (Word.ofDoc i (PartialWord.mergeDoc p d)) = i.
Proof.
  intros Hp Hd. rewrite ofDoc_mergeDoc. unfold PartialWord.mergeWord. simpl.
  destruct (PartialWord.id p); simpl; [done|exact Hd].
Qed.

Lemma tag_mergeDoc_keeps_plain (p : PartialTag.t) i d :
  match PartialTag.id p with Some j => j = i | None => True end ->
  PartOfSpeechTag.id (PartOfSpeechTag.ofDoc i d) = i ->
  PartOfSpeechTag.id (PartOfSpeechTag.ofDoc i (PartialTag.mergeDoc p d)) = i.
Proof.
  intros Hp Hd. rewrite tag_ofDoc_mergeDoc. unfold PartialTag.mergeTag. simpl.
  destruct (PartialTag.id p); simpl; [done|exact Hd].
Qed.

Lemma applyBatch_plain (ops : list BatchOp) (s s' : Store) :
  Forall plainBatchOp ops ->
  applyBatch ops s = Some s' -> plainStore s -> plainStore s'.
Proof.
  intros Hops. revert s. induction Hops as [|op ops Hop _ IH]; intros s.
  - by intros [= <-].
  - cbn [applyBatch]. destruct (applyBatchOp op s) as [s1|] eqn:E1; [|done].
    intros H Hs. apply (IH _ H). clear IH H.
    destruct op as [u wb i d|u wb i p|u wb i]; simpl in E1, Hop.
    + injection E1 as <-. apply plainStore_setWords; [|done].
      apply plainWordIds_insert; [done|apply Hs].
    + destruct (words s u wb !! i) as [d|] eqn:Ed; [|done].
      injection E1 as <-. apply plainStore_setWords; [|done].
      apply plainWordIds_insert; [|apply Hs].
      apply mergeDoc_keeps_plain; [by rewrite Hop|].
      by apply (proj1 Hs u wb).
    + injection E1 as <-. apply plainStore_setWords; [|done].
      apply plainWordIds_delete, Hs.
Qed.

Lemma commit_plainKept (ops : list BatchOp) :
  Forall plainBatchOp ops -> preserves plainKept (commit ops).
Proof.
  intros Hops w. unfold commit. unfold_promise. simpl.
  destruct (applyBatch ops (store w)) as [s'|] eqn:E; simpl; [|by unfold plainKept].
  intros Hs. simpl. by apply (applyBatch_plain ops (store w)).
Qed.

Lemma updateDoc_word_plainKept u wb i (p : PartialWord.t) :
  match PartialWord.id p with Some j => j = i | None => True end ->
  preserves plainKept (updateDoc_word u wb i p).
Proof.
  intros Hp w. unfold updateDoc_word. unfold_promise. simpl.
  destruct (words (store w) u wb !! i) as [d|] eqn:Ed; simpl; [|by unfold plainKept].
  intros Hs. simpl. apply plainStore_setWords; [|done].
  apply plainWordIds_insert; [|apply Hs].
  apply mergeDoc_keeps_plain; [done|]. by apply (proj1 Hs u wb).
Qed.

Lemma updateDoc_posTag_plainKept u i (p : PartialTag.t) :
  match PartialTag.id p with Some j => j = i | None => True end ->
  preserves plainKept (updateDoc_posTag u i p).
Proof.
  intros Hp w. unfold updateDoc_posTag. unfold_promise. simpl.
  destruct (posTags (store w) u !! i) as [d|] eqn:Ed; simpl; [|by unfold plainKept].
  intros Hs. simpl. apply plainStore_setPosTags; [|done].
  apply plainTagIds_insert; [|apply Hs].
  apply tag_mergeDoc_keeps_plain; [done|]. by apply (proj2 Hs u).
Qed.

Lemma addDoc_word_plainKept u wb (d : Word.Doc) :
  Word.id d = None -> preserves plainKept (addDoc_word u wb d).
Proof.
  intros Hd w. unfold addDoc_word, newDocId. unfold_promise. simpl.
  destruct (words (store w) u wb !! autoId w (idsDrawn w)); simpl; [by unfold plainKept|].
  intros Hs. simpl. apply plainStore_setWords; [|done].
  apply plainWordIds_insert; [|apply Hs].
  unfold Word.ofDoc. simpl. by rewrite Hd.
Qed.

Lemma addDoc_posTag_plainKept u (d : PartOfSpeechTag.Doc) :
  PartOfSpeechTag.id d = None -> preserves plainKept (addDoc_posTag u d).
Proof.
  intros Hd w. unfold addDoc_posTag, newDocId. unfold_promise. simpl.
  destruct (posTags (store w) u !! autoId w (idsDrawn w)); simpl; [by unfold plainKept|].
  intros Hs. simpl. apply plainStore_setPosTags; [|done].
  apply plainTagIds_insert; [|apply Hs].
  unfold PartOfSpeechTag.ofDoc. simpl. by rewrite Hd.
Qed.

Lemma deleteDoc_word_plainKept u wb i :
  preserves plainKept (deleteDoc_word u wb i).
Proof.
  intros w Hs. unfold deleteDoc_word. unfold_promise. simpl.
  apply plainStore_setWords; [|done]. apply plainWordIds_delete, Hs.
Qed.

Lemma deleteDoc_posTag_plainKept u i :
  preserves plainKept (deleteDoc_posTag u i).
Proof.
  intros w Hs. unfold deleteDoc_posTag. unfold_promise. simpl.
  apply plainStore_setPosTags; [|done]. apply plainTagIds_delete, Hs.
Qed.

(** Steps that leave the words and the tags of the store as they are. *)
Ltac plainKept_leaf :=
  intros ?w; unfold_sdk;
  unfold rewriteIfCached, pushIfCached, rewriteTagsIfCached;
  simpl; repeat case_match; simpl; intros ?Hs; exact Hs.

Ltac plainKept_auto :=
  repeat first
    [ solve [plainKept_leaf]
    | apply deleteDoc_word_plainKept
    | apply deleteDoc_posTag_plainKept
    | solve [apply addDoc_word_plainKept; done]
    | solve [apply addDoc_posTag_plainKept; done]
    | solve [apply updateDoc_word_plainKept; done]
    | solve [apply commit_plainKept, Forall_fmap, Forall_true; intros ?;
             simpl; try done; by rewrite ofDoc_toDoc]
    | apply preserves_andThen; [apply _| |intros ?]
    | apply preserves_forEachAsync; [apply _|intros ?] ].

Lemma updateWord_plainKept u wb i (p : PartialWord.t) :
  renamesId (UpdateWord u wb i p) = false ->
  preserves plainKept (updateWord u wb i p).
Proof.
  simpl. intros Hr. unfold updateWord.
  apply preserves_andThen; [apply _| |intros ?; plainKept_leaf].
  apply updateDoc_word_plainKept.
  destruct (PartialWord.id p) as [j|]; [|done].
  apply bool_decide_eq_false in Hr. by apply dec_stable.
Qed.

Lemma updatePartOfSpeechTag_plainKept u i (p : PartialTag.t) :
  renamesId (UpdatePartOfSpeechTag u i p) = false ->
  preserves plainKept (updatePartOfSpeechTag u i p).
Proof.
  simpl. intros Hr. unfold updatePartOfSpeechTag.
  apply preserves_andThen; [apply _| |intros ?; plainKept_leaf].
  apply updateDoc_posTag_plainKept.
  destruct (PartialTag.id p) as [j|]; [|done].
  apply bool_decide_eq_false in Hr. by apply dec_stable.
Qed.

(** X25: the layer keeps stored ids plain.  When every stored word and
    tag reads back under the id of its document, the same holds after any
    request, for every user and wordbook, unless the request is an update
    whose data names an [id] other than that of the document it
    addresses. *)
Theorem requests_keep_stored_ids_plain (r : Request) (w : World) :
  renamesId r = false ->
  plainStore (store w) -> plainStore (store (perform r w)).
Proof.
  intros Hr.
  change (plainKept w (perform r w)).
  destruct r; cbn [perform].
  all: match goal with |- plainKept ?w (?m ?w).2 =>
         revert w; change (preserves plainKept m) end.
  all: try (by apply updateWord_plainKept).
  all: try (by apply updatePartOfSpeechTag_plainKept).
  all: unfold getWordbooksByUserId, createWordbook, deleteWordbook,
         trashWordbook, clearTrashedWordbooks, getTrashedWordbooksByUserId,
         updateWordbookName, getWordbook, getWordsByWordbookId, createWord,
         deleteWord, bulkImportWords, resetWordsProgress,
         bulkDeleteWords, getPartOfSpeechTags, createPartOfSpeechTag,
         deletePartOfSpeechTag, deleteWordbook.
  all: plainKept_auto.
Qed.

Lemma requests_keep_stored_ids_plain_witness :
  renamesId (BulkImportWords "u" "k0" [sampleWord "sky" []]) = false
  /\ plainStore (store freshWorld)
  /\ plainStore
       (store (perform (BulkImportWords "u" "k0" [sampleWord "sky" []])
                 freshWorld)).
Proof.
  assert (Hp : plainStore (store freshWorld)).
  { split; [intros u wb|intros u]; intros i d; simpl;
      by rewrite lookup_empty. }
  split; [reflexivity|]. split; [exact Hp|].
  exact (requests_keep_stored_ids_plain
           (BulkImportWords "u" "k0" [sampleWord "sky" []]) freshWorld
           eq_refl Hp).
Defined.

(** ** Cache keys *)

Lemma append_nil_l (s : string) : "" +:+ s = s.
Proof. reflexivity. Qed.

Lemma append_cons_l c (s t : string) :
  String c s +:+ t = String c (s +:+ t).
Proof. reflexivity. Qed.

(** X26: [makeCacheKey] tells apart the wordbooks of users whose ids have
    no underscore: two such pairs of a user id and a wordbook id with the
    same key are the same pair. *)
Theorem makeCacheKey_injective (u1 wb1 u2 wb2 : string) :
  hasUnderscore u1 = false -> hasUnderscore u2 = false ->
  makeCacheKey u1 wb1 = makeCacheKey u2 wb2 -> u1 = u2 /\ wb1 = wb2.
Proof.
  unfold makeCacheKey. revert u2.
  induction u1 as [|c1 u1 IH]; intros [|c2 u2];
    cbn [hasUnderscore];
    repeat (rewrite append_nil_l || rewrite append_cons_l).
  - intros _ _ [= ->]. done.
  - intros _ H2 [= <- _]. done.
  - intros H1 _ [= -> _]. done.
  - intros H1 H2 [= -> Hk].
    destruct (Ascii.eqb c2 (Ascii.ascii_of_nat 95)); [done|].
    destruct (IH u2 H1 H2 Hk) as [-> ->]. done.
Qed.

Lemma makeCacheKey_injective_witness :
  hasUnderscore "u" = false /\ hasUnderscore "v" = false
  /\ (makeCacheKey "u" "k0" = makeCacheKey "v" "k0" -> "u" = "v").
Proof.
  split; [reflexivity|]. split; [reflexivity|].
  intros H.
  exact (proj1 (makeCacheKey_injective "u" "k0" "v" "k0" eq_refl eq_refl H)).
Defined.

Lemma makeCacheKey_shift (u x wb : string) :
  makeCacheKey (u +:+ "_" +:+ x) wb = makeCacheKey u (x +:+ "_" +:+ wb).
Proof.
  unfold makeCacheKey.
  induction u as [|c u IH];
    repeat (rewrite append_nil_l || rewrite append_cons_l).
  - done.
  - f_equal. exact IH.
Qed.

(** X27: with an underscore in the ids, two different pairs can share a
    key, and then they share the cache entry: once the words of wordbook
    [x_wb] of user [u] are cached, [getWordsByWordbookId] serves that same
    list for wordbook [wb] of user [u_x], without a round trip to the
    store. *)
Theorem colliding_keys_share_cache_entry (w : World) (u x wb : string)
    (ws : list Word.t) :
  wordCache w !! makeCacheKey u (x +:+ "_" +:+ wb) = Some ws ->
  getWordsByWordbookId (u +:+ "_" +:+ x) wb w = (Resolved ws, w).
Proof.
  intros Hc. apply getWordsByWordbookId_hit. by rewrite makeCacheKey_shift.
Qed.

Lemma colliding_keys_share_cache_entry_witness :
  exists word,
    wordCache underscoreWorld !! makeCacheKey "u" ("x" +:+ "_" +:+ "wb")
      = Some [word]
    /\ getWordsByWordbookId ("u" +:+ "_" +:+ "x") "wb" underscoreWorld
       = (Resolved [word], underscoreWorld).
Proof.
  assert (H : exists word,
    wordCache underscoreWorld !! makeCacheKey "u" ("x" +:+ "_" +:+ "wb")
      = Some [word]).
  { eexists. vm_compute. reflexivity. }
  destruct H as [word H]. exists word. split; [exact H|].
  exact (colliding_keys_share_cache_entry underscoreWorld "u" "x" "wb"
           [word] H).
Defined.

#[local] Instance wordEntryKept_preorder k : PreOrder (wordEntryKept k).
Proof.
  split; [by intros w|]. intros w1 w2 w3 H1 H2.
  unfold wordEntryKept in *. congruence.
Qed.

#[local] Instance tagEntryKept_preorder u : PreOrder (tagEntryKept u).
Proof.
  split; [by intros w|]. intros w1 w2 w3 H1 H2.
  unfold tagEntryKept in *. congruence.
Qed.




(** X29: the five reading functions only read.  After any of them the
    store is what it was, the clock has not been read, no document id has
    been drawn, and at most one round trip to the store has been made. *)
Theorem reads_never_write_store (r : Request) (w : World) :
  isReadRequest r = true ->
  store (perform r w) = store w
  /\ clockReads (perform r w) = clockReads w
  /\ idsDrawn (perform r w) = idsDrawn w
  /\ exists evs, trace (perform r w) = trace w ++ evs /\ length evs <= 1.
Proof.
  intros Hr. destruct r; try discriminate Hr; cbn [perform].
  all: unfold getWordbooksByUserId, getTrashedWordbooksByUserId, getWordbook,
         getWordsByWordbookId, getPartOfSpeechTags.
  all: unfold_sdk; simpl; repeat case_match; simpl.
  all: split; [reflexivity|]; split; [reflexivity|]; split; [reflexivity|].
  all: first [ exists []; split; [by rewrite app_nil_r|simpl; lia]
             | eexists [_]; split; [reflexivity|simpl; lia] ].
Qed.

Lemma reads_never_write_store_witness :
  isReadRequest (GetWordsByWordbookId "u" "k0") = true
  /\ store (perform (GetWordsByWordbookId "u" "k0") coldBookWorld)
     = store coldBookWorld.
Proof.
  split; [reflexivity|].
  exact (proj1 (reads_never_write_store (GetWordsByWordbookId "u" "k0")
                  coldBookWorld eq_refl)).
Defined.
